(** * snakeoil.data_source: sources, handles and the transfer helper

    A shallow embedding of [snakeoil/data_source.py].  Python objects live
    in an explicit store (the [world]); methods are computations in a
    state-and-exception monad over that store, so that a bound method kept
    by a handle (the commit callback) really aliases the source object it
    was taken from. *)

From Stdlib Require Import ZArith NArith Lia Ascii String List Strings.Byte.
From stdpp Require Import base option gmap strings list fin_maps.

Local Open Scope string_scope.
Local Open Scope list_scope.
Local Open Scope Z_scope.

(** ** Python values *)

(** The exception classes that occur in the module and in the primitives
    it calls. *)
Inductive exc : Set :=
  | TypeError
  | ValueError
  | MemoryError
  | EnvironmentError
  | NotImplementedError
  | AttributeError
  | UnicodeEncodeError
  | UnicodeDecodeError.

#[global] Instance exc_eq_dec : EqDecision exc.
Proof. solve_decision. Defined.

(** A [str] is a sequence of code points, a [bytes] a sequence of octets.
    The other two constructors stand for objects that are neither. *)
Inductive pyval : Type :=
  | VStr (s : list N)
  | VBytes (b : list byte)
  | VInt (z : Z)
  | VNone.

#[global] Instance byte_eq_dec : EqDecision byte := Byte.byte_eq_dec.

#[global] Instance pyval_eq_dec : EqDecision pyval.
Proof. solve_decision. Defined.

Definition isinstance_str (v : pyval) : bool :=
  match v with VStr _ => true | _ => false end.

Definition isinstance_bytes (v : pyval) : bool :=
  match v with VBytes _ => true | _ => false end.

(** Truth value of an object, as tested by [while data:]. *)
Definition truthy (v : pyval) : bool :=
  match v with
  | VStr [] | VBytes [] | VNone => false
  | VInt z => negb (Z.eqb z 0)
  | _ => true
  end.

Definition py_len (v : pyval) : nat :=
  match v with
  | VStr s => length s
  | VBytes b => length b
  | _ => O
  end.

(** A text literal: the code points of an ASCII string. *)
Definition text (s : string) : list N :=
  map N_of_ascii (list_ascii_of_string s).

(** A bytes literal: the octets of an ASCII string. *)
Definition octets (s : string) : list byte :=
  map byte_of_ascii (list_ascii_of_string s).

(** ** The default codec of [str.encode()] and [bytes.decode()]: strict UTF-8 *)

Module Utf8.

Local Open Scope N_scope.

Definition byte_of_N (n : N) : byte :=
  match Byte.of_N n with Some b => b | None => Byte.x00 end.

Definition is_surrogate (c : N) : bool := (0xD800 <=? c) && (c <=? 0xDFFF).

Definition encode_cp (c : N) : option (list byte) :=
  if c <? 0x80 then Some [byte_of_N c]
  else if c <? 0x800 then
    Some [byte_of_N (0xC0 + c / 64); byte_of_N (0x80 + c mod 64)]
  else if c <? 0x10000 then
    if is_surrogate c then None
    else Some [byte_of_N (0xE0 + c / 4096);
               byte_of_N (0x80 + (c / 64) mod 64);
               byte_of_N (0x80 + c mod 64)]
  else if c <? 0x110000 then
    Some [byte_of_N (0xF0 + c / 262144);
          byte_of_N (0x80 + (c / 4096) mod 64);
          byte_of_N (0x80 + (c / 64) mod 64);
          byte_of_N (0x80 + c mod 64)]
  else None.

Fixpoint encode (s : list N) : option (list byte) :=
  match s with
  | [] => Some []
  | c :: s' =>
      match encode_cp c, encode s' with
      | Some bs, Some bs' => Some (bs ++ bs')
      | _, _ => None
      end
  end.

(** A continuation octet is [10xxxxxx]. *)
Definition is_cont (b : byte) : bool :=
  (0x80 <=? Byte.to_N b) && (Byte.to_N b <? 0xC0).

Definition payload (b : byte) : N := Byte.to_N b - 0x80.

Definition push (c : N) (r : option (list N)) : option (list N) :=
  match r with Some s => Some (c :: s) | None => None end.

(** Strict decoding: stray continuation octets, truncated sequences,
    overlong forms, surrogates and values above U+10FFFF are refused. *)
Fixpoint decode (bs : list byte) : option (list N) :=
  match bs with
  | [] => Some []
  | b0 :: r0 =>
      let n0 := Byte.to_N b0 in
      if n0 <? 0x80 then push n0 (decode r0)
      else if n0 <? 0xC0 then None
      else if n0 <? 0xE0 then
        match r0 with
        | b1 :: r1 =>
            let c := (n0 - 0xC0) * 64 + payload b1 in
            if is_cont b1 && (0x80 <=? c) then push c (decode r1) else None
        | _ => None
        end
      else if n0 <? 0xF0 then
        match r0 with
        | b1 :: b2 :: r2 =>
            let c := (n0 - 0xE0) * 4096 + payload b1 * 64 + payload b2 in
            if is_cont b1 && is_cont b2 && (0x800 <=? c)
               && negb (is_surrogate c)
            then push c (decode r2) else None
        | _ => None
        end
      else if n0 <? 0xF8 then
        match r0 with
        | b1 :: b2 :: b3 :: r3 =>
            let c := (n0 - 0xF0) * 262144 + payload b1 * 4096
                     + payload b2 * 64 + payload b3 in
            if is_cont b1 && is_cont b2 && is_cont b3
               && (0x10000 <=? c) && (c <? 0x110000)
            then push c (decode r3) else None
        | _ => None
        end
      else None
  end.

End Utf8.


Definition str_encode (v : pyval) : exc + pyval :=
  match v with
  | VStr s =>
      match Utf8.encode s with
      | Some b => inr (VBytes b)
      | None => inl UnicodeEncodeError
      end
  | _ => inl AttributeError
  end.

Definition bytes_decode (v : pyval) : exc + pyval :=
  match v with
  | VBytes b =>
      match Utf8.decode b with
      | Some s => inr (VStr s)
      | None => inl UnicodeDecodeError
      end
  | _ => inl AttributeError
  end.

(** ** Objects and the store *)

(** Modelled from the spec: the constant [compatibility.is_py3k]; the
    module [snakeoil.compatibility] is not among the sources.  The spec
    describes text and binary payloads as distinct representations that
    are converted on the fly, and the typed constructors as strict
    (sections 4.3 and 9), which is the py3k configuration. *)
Definition is_py3k : bool := true.

Abbreviation loc := nat.

(** The three classes of in-memory sources; the class of an object
    decides which [_convert_data] and which [__init__] it has. *)
Inductive source_class : Set :=
  | cls_data_source
  | cls_text_data_source
  | cls_bytes_data_source.

(** [__slots__ = ('data', 'mutable')] *)
Record source_obj : Type := Source {
  src_class : source_class;
  data : pyval;
  mutable : bool }.

(** The in-memory handle classes of the module. *)
Inductive handle_class : Set :=
  | text_wr_StringIO
  | bytes_wr_StringIO
  | text_ro_StringIO
  | bytes_ro_StringIO.

Definition is_text (k : handle_class) : bool :=
  match k with text_wr_StringIO | text_ro_StringIO => true | _ => false end.

Definition is_readonly (k : handle_class) : bool :=
  match k with text_ro_StringIO | bytes_ro_StringIO => true | _ => false end.

(** What a writable handle keeps in [_callback]: the bound method
    [self._reset_data] of the source at [self]. *)
Inductive callable : Set :=
  | bound_reset_data (self : loc).

(** An in-memory stream object: the buffer and position of the underlying
    string stream, and the [_callback] slot the writable classes add. *)
Record stringio_obj : Type := StringIO {
  h_class : handle_class;
  buffer : pyval;
  position : nat;
  closed : bool;
  _callback : option callable }.

(** A file object as returned by [open_file]; [exceptions] is an instance
    attribute there, absent on what [codecs.open] returns. *)
Record file_obj : Type := File {
  f_path : string;
  f_mode : string;
  f_buffering : Z;
  f_encoding : option string;
  f_exceptions : option (list exc) }.

(** Observable primitive operations, in the order they happen. *)
Inductive event : Type :=
  | EvOpen (path mode : string)
  | EvRead (h : loc) (size : Z) (chunk : pyval)
  | EvWrite (h : loc) (chunk : pyval)
  | EvCall (f : callable) (arg : pyval).

Record world : Type := World {
  sources : gmap nat source_obj;
  handles : gmap nat stringio_obj;
  fds : gmap nat file_obj;
  files : gmap string (list byte);
  trace : list event }.

Definition with_sources (f : gmap nat source_obj → gmap nat source_obj) (σ : world) : world :=
  World (f (sources σ)) (handles σ) (fds σ) (files σ) (trace σ).

Definition with_handles (f : gmap nat stringio_obj → gmap nat stringio_obj) (σ : world) : world :=
  World (sources σ) (f (handles σ)) (fds σ) (files σ) (trace σ).

Definition with_fds (f : gmap nat file_obj → gmap nat file_obj) (σ : world) : world :=
  World (sources σ) (handles σ) (f (fds σ)) (files σ) (trace σ).

Definition with_files (f : gmap string (list byte) → gmap string (list byte)) (σ : world) : world :=
  World (sources σ) (handles σ) (fds σ) (f (files σ)) (trace σ).

Definition log (e : event) (σ : world) : world :=
  World (sources σ) (handles σ) (fds σ) (files σ) (trace σ ++ [e]).

Definition empty_world : world := World ∅ ∅ ∅ ∅ [].

(** ** Computations: state that survives a raised exception *)

Inductive outcome (A : Type) : Type :=
  | Ok (a : A)
  | Raise (e : exc).
Arguments Ok {A} a.
Arguments Raise {A} e.

Definition M (A : Type) : Type := world → outcome A * world.

Definition ret {A} (a : A) : M A := λ σ, (Ok a, σ).

Definition raise {A} (e : exc) : M A := λ σ, (Raise e, σ).

Definition bind {A B} (m : M A) (k : A → M B) : M B :=
  λ σ, match m σ with
       | (Ok a, σ') => k a σ'
       | (Raise e, σ') => (Raise e, σ')
       end.

Notation "'let*' x ':=' m 'in' k" := (bind m (λ x, k))
  (at level 10, x name, m at level 100, k at level 200).
Notation "m1 '>>' m2" := (bind m1 (λ _, m2))
  (at level 100, m2 at level 200, right associativity).

Definition lift {A} (r : exc + A) : M A :=
  match r with inl e => raise e | inr a => ret a end.

Definition modify (f : world → world) : M unit := λ σ, (Ok tt, f σ).

(** A reference that names no object cannot arise from the module's own
    code; such a computation stops with [ValueError]. *)
Definition get_source (self : loc) : M source_obj :=
  λ σ, match sources σ !! self with
       | Some o => (Ok o, σ)
       | None => (Raise ValueError, σ)
       end.

Definition get_handle (self : loc) : M stringio_obj :=
  λ σ, match handles σ !! self with
       | Some o => (Ok o, σ)
       | None => (Raise ValueError, σ)
       end.

Definition put_handle (self : loc) (o : stringio_obj) : M unit :=
  modify (with_handles <[self := o]>).

Definition new_source (o : source_obj) : M loc :=
  λ σ, let l := fresh (dom (sources σ)) in (Ok l, with_sources <[l := o]> σ).

Definition new_handle (o : stringio_obj) : M loc :=
  λ σ, let l := fresh (dom (handles σ)) in (Ok l, with_handles <[l := o]> σ).

Definition new_fd (o : file_obj) : M loc :=
  λ σ, let l := fresh (dom (fds σ)) in (Ok l, with_fds <[l := o]> σ).

(** ** In-memory streams *)

Section buffers.
Context {A : Type}.

(** The units a [read(size)] at [pos] returns: all that remains when
    [size] is negative, at most [size] of them otherwise. *)
Definition buf_read (buf : list A) (pos : nat) (size : Z) : list A :=
  if size <? 0 then drop pos buf
  else take (Z.to_nat size) (drop pos buf).

(** The buffer after a [write(s)] at [pos]: [s] replaces what it covers
    and extends the buffer past its end; a position beyond the end is
    first padded with [nul].  Writing nothing changes nothing. *)
Definition buf_write (nul : A) (buf : list A) (pos : nat) (s : list A) : list A :=
  match s with
  | [] => buf
  | _ => take pos buf ++ replicate (pos - length buf) nul ++ s
         ++ drop (pos + length s) buf
  end.
End buffers.

Definition py_read (buf : pyval) (pos : nat) (size : Z) : pyval :=
  match buf with
  | VStr s => VStr (buf_read s pos size)
  | VBytes b => VBytes (buf_read b pos size)
  | v => v
  end.

Definition py_write (buf : pyval) (pos : nat) (v : pyval) : option pyval :=
  match buf, v with
  | VStr s, VStr t => Some (VStr (buf_write 0%N s pos t))
  | VBytes s, VBytes t => Some (VBytes (buf_write Byte.x00 s pos t))
  | _, _ => None
  end.

(** Modelled from the spec: the stream classes of [snakeoil.stringio]
    ([text_writable], [bytes_writable], [text_readonly], [bytes_readonly]),
    which are not among the sources.  The spec takes the in-memory stream
    primitives as given platform services with the standard
    read/write/seek/close operations (sections 1 and 6), a writable handle
    being overwritten at its current position (section 8); the read-only
    classes refuse [write] with [TypeError], as the docstring of
    [data_source.py] shows.  A stream starts at position 0. *)
Module stringio.

(** [base.__init__(self, data)]: the payload must have the type of the
    stream; [None] gives an empty one. *)
Definition initial (k : handle_class) (v : pyval) : exc + pyval :=
  match is_text k, v with
  | true, VStr s => inr (VStr s)
  | true, VNone => inr (VStr [])
  | false, VBytes b => inr (VBytes b)
  | false, VNone => inr (VBytes [])
  | _, _ => inl TypeError
  end.

Definition __init__ (k : handle_class) (v : pyval) : M loc :=
  let* buf := lift (initial k v) in
  new_handle (StringIO k buf 0 false None).

Definition read (self : loc) (size : Z) : M pyval :=
  let* o := get_handle self in
  if closed o then raise ValueError
  else
    let chunk := py_read (buffer o) (position o) size in
    put_handle self (StringIO (h_class o) (buffer o)
                       (position o + py_len chunk) (closed o) (_callback o)) >>
    modify (log (EvRead self size chunk)) >>
    ret chunk.

Definition write (self : loc) (v : pyval) : M nat :=
  let* o := get_handle self in
  if is_readonly (h_class o) then raise TypeError
  else if closed o then raise ValueError
  else
    match py_write (buffer o) (position o) v with
    | None => raise TypeError
    | Some buf =>
        put_handle self (StringIO (h_class o) buf
                           (position o + py_len v) (closed o) (_callback o)) >>
        modify (log (EvWrite self v)) >>
        ret (py_len v)
    end.

Definition seek (self : loc) (offset : Z) : M Z :=
  let* o := get_handle self in
  if closed o then raise ValueError
  else if offset <? 0 then raise ValueError
  else
    put_handle self (StringIO (h_class o) (buffer o) (Z.to_nat offset)
                       (closed o) (_callback o)) >>
    ret offset.

(** Nothing is pending in an in-memory stream; a closed binary stream
    refuses the call. *)
Definition flush (self : loc) : M unit :=
  let* o := get_handle self in
  if closed o && negb (is_text (h_class o)) then raise ValueError
  else ret tt.

Definition close (self : loc) : M unit :=
  let* o := get_handle self in
  put_handle self (StringIO (h_class o) (buffer o) (position o) true
                     (_callback o)).

End stringio.

(** ** The in-memory source: conversion and commit *)

Definition set_data (self : loc) (d : pyval) : M unit :=
  let* o := get_source self in
  modify (with_sources <[self := Source (src_class o) d (mutable o)]>).

(** [data_source._convert_data] (lines 258-269) *)
Definition data_source_convert_data (o : source_obj) (mode : string) : exc + pyval :=
  if is_py3k then
    if String.eqb mode "bytes" then
      if isinstance_bytes (data o) then inr (data o)
      else str_encode (data o)
    else if isinstance_str (data o) then inr (data o)
    else bytes_decode (data o)
  else inr (data o).

(** [text_data_source._convert_data] (lines 323-326) *)
Definition text_data_source_convert_data (o : source_obj) (mode : string) : exc + pyval :=
  if negb (String.eqb mode "bytes") then inr (data o)
  else str_encode (data o).

(** [bytes_data_source._convert_data] (lines 345-348) *)
Definition bytes_data_source_convert_data (o : source_obj) (mode : string) : exc + pyval :=
  if String.eqb mode "bytes" then inr (data o)
  else bytes_decode (data o).

(** [self._convert_data(mode)]: the method of the object's class. *)
Definition convert_data_of (o : source_obj) (mode : string) : exc + pyval :=
  match src_class o with
  | cls_data_source => data_source_convert_data o mode
  | cls_text_data_source => text_data_source_convert_data o mode
  | cls_bytes_data_source => bytes_data_source_convert_data o mode
  end.

Definition _convert_data (self : loc) (mode : string) : M pyval :=
  let* o := get_source self in
  lift (convert_data_of o mode).

(** [data_source._reset_data] (lines 280-290) *)
Definition _reset_data (self : loc) (d : pyval) : M unit :=
  let* o := get_source self in
  let* d :=
    if is_py3k then
      if isinstance_bytes (data o) then
        if negb (isinstance_bytes d) then lift (str_encode d) else ret d
      else if negb (isinstance_str d) then lift (bytes_decode d)
      else ret d
    else ret d in
  set_data self d.

(** Calling what a handle kept; the call is recorded in the trace. *)
Definition call (f : callable) (v : pyval) : M unit :=
  modify (log (EvCall f v)) >>
  match f with
  | bound_reset_data self => _reset_data self v
  end.

(** ** Handle classes *)

(** What is passed as [callback]: a callable, or some other object. *)
Inductive callback_arg : Type :=
  | Callable (f : callable)
  | NotCallable (v : pyval).

Definition set_callback (self : loc) (cb : option callable) : M unit :=
  let* o := get_handle self in
  put_handle self (StringIO (h_class o) (buffer o) (position o) (closed o) cb).

(** The class [_mk_writable_cls(base, name)] builds; [name] is
    [text_wr_StringIO] or [bytes_wr_StringIO]. *)
Module kls.

Definition exceptions : list exc := [MemoryError].

Definition __init__ (name : handle_class) (callback : callback_arg) (d : pyval) : M loc :=
  match callback with
  | NotCallable _ => raise TypeError
  | Callable f =>
      let* self := stringio.__init__ name d in
      set_callback self (Some f) >>
      ret self
  end.

Definition close (self : loc) : M unit :=
  stringio.flush self >>
  let* o := get_handle self in
  (match _callback o with
   | Some f =>
       stringio.seek self 0 >>
       let* content := stringio.read self (-1) in
       call f content >>
       set_callback self None
   | None => ret tt
   end) >>
  stringio.close self.

End kls.

(** The [exceptions] attribute each in-memory handle class declares. *)
Definition class_exceptions (k : handle_class) : list exc :=
  match k with
  | text_wr_StringIO | bytes_wr_StringIO => kls.exceptions
  | text_ro_StringIO => [MemoryError; TypeError]
  | bytes_ro_StringIO => [MemoryError; TypeError]
  end.

(** ** Files *)

Inductive open_kind : Set :=
  | OpenExisting   (* r: the file must exist, it is left as it is *)
  | OpenTruncate   (* w: created if missing, emptied otherwise *)
  | OpenAppend     (* a: created if missing, left as it is otherwise *)
  | OpenExclusive. (* x: created, refused if it exists *)

Definition open_kind_of (mode : string) : option open_kind :=
  match mode with
  | String "r" _ => Some OpenExisting
  | String "w" _ => Some OpenTruncate
  | String "a" _ => Some OpenAppend
  | String "x" _ => Some OpenExclusive
  | _ => None
  end.

(** The platform's [io.open], as far as the mode decides: which modes need
    the path to exist, which create it and which empty it.  Every call is
    recorded in the trace.  What the platform may refuse besides (a
    permission, an encoding it does not know, an ill-formed path) is not
    modelled, so that the model says when an open fails for its mode and
    what a call leaves of the files, not when an open succeeds. *)
Definition io_open (path mode : string) (buffering : Z)
    (encoding : option string) : M loc :=
  modify (log (EvOpen path mode)) >>
  let fd := File path mode buffering encoding None in
  λ σ,
    match open_kind_of mode, files σ !! path with
    | None, _ => raise ValueError σ
    | Some OpenExisting, None => raise EnvironmentError σ
    | Some OpenExclusive, Some _ => raise EnvironmentError σ
    | Some OpenTruncate, _ =>
        (modify (with_files <[path := []]>) >> new_fd fd) σ
    | Some _, None =>
        (modify (with_files <[path := []]>) >> new_fd fd) σ
    | Some _, Some _ => new_fd fd σ
    end.

(** [codecs.open], the py2k opener for a forced encoding: it opens in
    binary mode and its result has no [exceptions] attribute. *)
Definition codecs_open (path mode : string) (buffering : Z)
    (encoding : option string) : M loc :=
  io_open path (mode ++ "b")%string buffering encoding.

Definition set_exceptions (fd : loc) (e : list exc) : M unit :=
  λ σ, match fds σ !! fd with
       | Some f =>
           (Ok tt, with_fds <[fd := File (f_path f) (f_mode f) (f_buffering f)
                                       (f_encoding f) (Some e)]> σ)
       | None => (Raise ValueError, σ)
       end.

(** [open_file] (lines 129-132) *)
Definition open_file (path mode : string) (buffering : Z)
    (encoding : option string) : M loc :=
  let* handle := io_open path mode buffering encoding in
  set_exceptions handle [EnvironmentError] >>
  ret handle.

(** ** The source classes *)

Module base.

Definition text_fileobj (writable : bool) : M loc :=
  raise NotImplementedError.

Definition bytes_fileobj (writable : bool) : M loc :=
  raise NotImplementedError.

End base.

Module local_source.

(** [__slots__ = ("path", "mutable", "encoding")] *)
Record t : Type := Local {
  path : string;
  mutable : bool;
  encoding : option string }.

Definition buffering_window : Z := 32768.

Definition __init__ (path : string) (mutable : bool)
    (encoding : option string) : t :=
  Local path mutable encoding.

(** Truth value of [self.encoding]: [None] and the empty string are
    false. *)
Definition has_encoding (self : t) : bool :=
  match encoding self with
  | None | Some EmptyString => false
  | Some _ => true
  end.

Definition text_fileobj (self : t) (writable : bool) : M loc :=
  if writable && negb (mutable self) then raise TypeError
  else
    let opener : string → string → M loc :=
      if has_encoding self then
        let opener := if negb is_py3k then codecs_open else open_file in
        λ p m, opener p m buffering_window (encoding self)
      else
        λ p m, open_file p m buffering_window None in
    if writable then opener (path self) "r+"
    else opener (path self) "r".

Definition bytes_fileobj (self : t) (writable : bool) : M loc :=
  if writable then
    if negb (mutable self) then raise TypeError
    else open_file (path self) "rb+" buffering_window None
  else open_file (path self) "rb" buffering_window None.

End local_source.

Module data_source.

(** [cls] is the class being instantiated. *)
Definition __init__ (cls : source_class) (d : pyval) (mutable : bool) : M loc :=
  new_source (Source cls d mutable).

Definition text_fileobj (self : loc) (writable : bool) : M loc :=
  if writable then
    let* o := get_source self in
    if negb (mutable o) then raise TypeError
    else
      let* d := _convert_data self "text" in
      kls.__init__ text_wr_StringIO (Callable (bound_reset_data self)) d
  else
    let* d := _convert_data self "text" in
    stringio.__init__ text_ro_StringIO d.

Definition bytes_fileobj (self : loc) (writable : bool) : M loc :=
  if writable then
    let* o := get_source self in
    if negb (mutable o) then raise TypeError
    else
      let* d := _convert_data self "bytes" in
      kls.__init__ bytes_wr_StringIO (Callable (bound_reset_data self)) d
  else
    let* d := _convert_data self "bytes" in
    stringio.__init__ bytes_ro_StringIO d.

End data_source.

(** Under py2k the two names are aliases of [data_source]. *)
Module text_data_source.

Definition __init__ (d : pyval) (mutable : bool) : M loc :=
  if is_py3k then
    if negb (isinstance_str d) then raise TypeError
    else data_source.__init__ cls_text_data_source d mutable
  else data_source.__init__ cls_data_source d mutable.

End text_data_source.

Module bytes_data_source.

Definition __init__ (d : pyval) (mutable : bool) : M loc :=
  if is_py3k then
    if negb (isinstance_bytes d) then raise TypeError
    else data_source.__init__ cls_bytes_data_source d mutable
  else data_source.__init__ cls_data_source d mutable.

End bytes_data_source.

(** ** The transfer helper *)

Definition default_bufsize : Z := 4096 * 16.

(** The [while data:] loop of [transfer_data]; [None] when [fuel]
    iterations were not enough to leave it. *)
Fixpoint transfer_loop (fuel : nat) (read_fsobj write_fsobj : loc)
    (bufsize : Z) (chunk : pyval) (σ : world) : option (outcome unit * world) :=
  if truthy chunk then
    match fuel with
    | O => None
    | S fuel' =>
        match stringio.write write_fsobj chunk σ with
        | (Raise e, σ1) => Some (Raise e, σ1)
        | (Ok _, σ1) =>
            match stringio.read read_fsobj bufsize σ1 with
            | (Raise e, σ2) => Some (Raise e, σ2)
            | (Ok chunk', σ2) =>
                transfer_loop fuel' read_fsobj write_fsobj bufsize chunk' σ2
            end
        end
    end
  else Some (Ok tt, σ).

(** [transfer_data] (lines 351-358); [bufsize = None] is a call that
    leaves the parameter to its default. *)
Definition transfer_data (fuel : nat) (read_fsobj write_fsobj : loc)
    (bufsize : option Z) (σ : world) : option (outcome unit * world) :=
  let bufsize := default default_bufsize bufsize in
  match stringio.read read_fsobj bufsize σ with
  | (Raise e, σ1) => Some (Raise e, σ1)
  | (Ok chunk, σ1) => transfer_loop fuel read_fsobj write_fsobj bufsize chunk σ1
  end.


(** ** Notions the statements use *)

(** The value [_reset_data] stores for a committed [d], given what the
    source holds. *)
Definition stored_form (held d : pyval) : exc + pyval :=
  if isinstance_bytes held then
    if isinstance_bytes d then inr d else str_encode d
  else if isinstance_str d then inr d else bytes_decode d.

(** What the typed constructors guarantee of the objects they build, and
    every commit keeps: a [text_data_source] holds a [str], a
    [bytes_data_source] holds [bytes]. *)
Definition well_typed (o : source_obj) : bool :=
  match src_class o with
  | cls_data_source => true
  | cls_text_data_source => isinstance_str (data o)
  | cls_bytes_data_source => isinstance_bytes (data o)
  end.

(** The text a source presents, whatever it stores. *)
Definition text_view (v : pyval) : option (list N) :=
  match v with
  | VStr s => Some s
  | VBytes b => Utf8.decode b
  | _ => None
  end.

(** The octets a source presents, whatever it stores. *)
Definition bytes_view (v : pyval) : option (list byte) :=
  match v with
  | VStr s => Utf8.encode s
  | VBytes b => Some b
  | _ => None
  end.

(** A client that overwrites through a writable text handle, closes it
    and reads the source again through a fresh read-only text handle. *)
Definition write_close_read (src : loc) (T : list N) : M pyval :=
  let* f := data_source.text_fileobj src true in
  stringio.write f (VStr T) >>
  kls.close f >>
  let* g := data_source.text_fileobj src false in
  stringio.read g (-1).

(** The scenario of [_test_fileobj]: a fresh mutable source with the given
    content, then [write_close_read]. *)
Definition construct_write_close_read (content : pyval) (T : list N) : M pyval :=
  let* obj := data_source.__init__ cls_data_source content true in
  write_close_read obj T.

(** [try: m] followed by [except Exception: pass]. *)
Definition attempt {A} (m : M A) : M unit := λ σ, (Ok tt, snd (m σ)).

(** The callback calls a trace records, oldest first. *)
Definition calls (tr : list event) : list (callable * pyval) :=
  omap (λ e, match e with EvCall f v => Some (f, v) | _ => None end) tr.

(** A bytes handle on a source holding text, left with octets that do not
    decode, and closed twice. *)
Definition close_twice_undecodable : M unit :=
  let* obj := data_source.__init__ cls_data_source (VStr (text "a")) true in
  let* f := data_source.bytes_fileobj obj true in
  stringio.write f (VBytes [Byte.xff]) >>
  attempt (kls.close f) >>
  attempt (kls.close f).

(** The [close] method of a handle: the override of the writable classes,
    the inherited one for the read-only classes. *)
Definition close_method (self : loc) : M unit :=
  let* o := get_handle self in
  if is_readonly (h_class o) then stringio.close self else kls.close self.

(** What a client can do with in-memory sources and their handles. *)
Inductive op : Type :=
  | op_text_fileobj (src : loc) (writable : bool)
  | op_bytes_fileobj (src : loc) (writable : bool)
  | op_read (h : loc) (size : Z)
  | op_write (h : loc) (v : pyval)
  | op_seek (h : loc) (offset : Z)
  | op_flush (h : loc)
  | op_close (h : loc).

Definition run_op (c : op) : M unit :=
  match c with
  | op_text_fileobj src w => data_source.text_fileobj src w >> ret tt
  | op_bytes_fileobj src w => data_source.bytes_fileobj src w >> ret tt
  | op_read h size => stringio.read h size >> ret tt
  | op_write h v => stringio.write h v >> ret tt
  | op_seek h offset => stringio.seek h offset >> ret tt
  | op_flush h => stringio.flush h
  | op_close h => close_method h
  end.

(** A client that goes on after an exception. *)
Definition run_ops (cs : list op) (σ : world) : world :=
  foldl (λ σ c, snd (run_op c σ)) σ cs.

Definition is_close (c : op) : bool :=
  match c with op_close _ => true | _ => false end.

(** A computation that leaves every source as it is. *)
Definition keeps_sources {A} (m : M A) : Prop :=
  ∀ σ, sources (snd (m σ)) = sources σ.

(** The trace of a transfer that moved the chunks [cs] one after the
    other: each is read, then written. *)
Definition chunk_events (r w : loc) (n : Z) (cs : list pyval) : list event :=
  flat_map (λ c, [EvRead r n c; EvWrite w c]) cs.

(** Concatenation of two payloads of one kind. *)
Definition py_app (a b : pyval) : pyval :=
  match a, b with
  | VStr s, VStr t => VStr (s ++ t)
  | VBytes s, VBytes t => VBytes (s ++ t)
  | _, _ => a
  end.

(** A reader is exhausted when any further [read] returns nothing. *)
Definition exhausted (r : loc) (σ : world) : Prop :=
  ∀ size, ∃ e, fst (stringio.read r size σ) = Ok e ∧ truthy e = false.

(** Two streams, "abc" to read and an empty one to write to. *)
Definition abc_and_empty : world :=
  snd ((stringio.__init__ text_ro_StringIO (VStr (text "abc")) >>
        stringio.__init__ text_wr_StringIO (VStr [])) empty_world).

(** ** Notions the further properties use *)

(** The bytes counterpart of [write_close_read]. *)
Definition write_close_read_bytes (src : loc) (B : list byte) : M pyval :=
  let* f := data_source.bytes_fileobj src true in
  stringio.write f (VBytes B) >>
  kls.close f >>
  let* g := data_source.bytes_fileobj src false in
  stringio.read g (-1).

(** A reader that takes a read-only text handle first, lets a writer
    overwrite and commit through a writable text handle, and only then
    reads what its own handle holds. *)
Definition read_across_commit (src : loc) (T : list N) : M pyval :=
  let* g := data_source.text_fileobj src false in
  let* f := data_source.text_fileobj src true in
  stringio.write f (VStr T) >>
  kls.close f >>
  stringio.read g (-1).

(** A source as it may become: same class, same [mutable] flag, and text
    still text, bytes still bytes. *)
Definition same_shape (o o' : source_obj) : Prop :=
  src_class o' = src_class o ∧ mutable o' = mutable o
  ∧ (isinstance_str (data o) = true → isinstance_str (data o') = true)
  ∧ (isinstance_bytes (data o) = true → isinstance_bytes (data o') = true).

(** Every callback a handle keeps is bound to a source that exists and is
    mutable. *)
Definition callbacks_mutable (σ : world) : Prop :=
  ∀ h o self, handles σ !! h = Some o →
    _callback o = Some (bound_reset_data self) →
    ∃ s, sources σ !! self = Some s ∧ mutable s = true.

(** What one operation on a source or handle may change: no file and no
    file object; at most one handle, which either existed and keeps its
    class and its callback (or loses the callback), or is new and bound,
    if at all, to a mutable source; at most one source, which then takes a
    value committed by a handle bound to it. *)
Definition footprint (σ σ' : world) : Prop :=
  files σ' = files σ ∧ fds σ' = fds σ
  ∧ (handles σ' = handles σ
     ∨ ∃ h o', handles σ' = <[h := o']> (handles σ)
         ∧ match handles σ !! h with
           | Some o => h_class o' = h_class o
                       ∧ (_callback o' = _callback o ∨ _callback o' = None)
           | None => ∀ l, _callback o' = Some (bound_reset_data l) →
                       ∃ s, sources σ !! l = Some s ∧ mutable s = true
           end)
  ∧ (sources σ' = sources σ
     ∨ ∃ l s d v h oh,
         sources σ !! l = Some s ∧ handles σ !! h = Some oh
         ∧ _callback oh = Some (bound_reset_data l)
         ∧ stored_form (data s) v = inr d
         ∧ sources σ' = <[l := Source (src_class s) d (mutable s)]> (sources σ)).

(** What holds between a store and any later one. *)
Definition later_store (σ σ' : world) : Prop :=
  (∀ l o, sources σ !! l = Some o →
     ∃ o', sources σ' !! l = Some o' ∧ same_shape o o')
  ∧ (callbacks_mutable σ →
     callbacks_mutable σ'
     ∧ ∀ l o, sources σ !! l = Some o → mutable o = false →
         sources σ' !! l = Some o).

(** Everything a client of the module can do. *)
Inductive action : Type :=
  | act (c : op)
  | act_data_source (d : pyval) (m : bool)
  | act_text_data_source (d : pyval) (m : bool)
  | act_bytes_data_source (d : pyval) (m : bool)
  | act_local_text (ls : local_source.t) (writable : bool)
  | act_local_bytes (ls : local_source.t) (writable : bool)
  | act_transfer (fuel : nat) (r w : loc) (bufsize : option Z).

Definition run_action (a : action) (σ : world) : world :=
  match a with
  | act c => snd (run_op c σ)
  | act_data_source d m => snd (data_source.__init__ cls_data_source d m σ)
  | act_text_data_source d m => snd (text_data_source.__init__ d m σ)
  | act_bytes_data_source d m => snd (bytes_data_source.__init__ d m σ)
  | act_local_text ls w => snd (local_source.text_fileobj ls w σ)
  | act_local_bytes ls w => snd (local_source.bytes_fileobj ls w σ)
  | act_transfer fuel r w bufsize =>
      match transfer_data fuel r w bufsize σ with
      | Some (_, σ') => σ'
      | None => σ
      end
  end.

Definition run_actions (l : list action) (σ : world) : world :=
  foldl (λ σ a, run_action a σ) σ l.

(** A client that copies one source into another: a read-only text
    handle on [src], a writable one on [dst], [transfer_data] with its
    default chunk size between them, and the close that commits. *)
Definition copy_text (fuel : nat) (src dst : loc) :
    world → option (outcome unit * world) :=
  λ σ, match data_source.text_fileobj src false σ with
       | (Raise e, σ1) => Some (Raise e, σ1)
       | (Ok g, σ1) =>
           match data_source.text_fileobj dst true σ1 with
           | (Raise e, σ2) => Some (Raise e, σ2)
           | (Ok f, σ2) =>
               match transfer_data fuel g f None σ2 with
               | None => None
               | Some (Raise e, σ3) => Some (Raise e, σ3)
               | Some (Ok _, σ3) => Some (kls.close f σ3)
               end
           end
       end.

(** ** The test helpers *)

(** Modelled from the spec: [tell] of the stream classes of
    [snakeoil.stringio], which are not among the sources; the spec takes
    the streams' standard operations as given, each stream having a
    current position that reads and writes advance.  A closed stream
    refuses the call. *)
Definition tell (self : loc) : M nat :=
  let* o := get_handle self in
  if closed o then raise ValueError else ret (position o).

(** [==] and [!=] on the values at hand: a [str] never equals a [bytes]. *)
Definition py_eq (a b : pyval) : bool := bool_decide (a = b).

Definition py_ne (a b : pyval) : bool := negb (py_eq a b).

(** The builtin [len]: only sequences have one. *)
Definition builtin_len (v : pyval) : exc + nat :=
  match v with
  | VStr s => inr (length s)
  | VBytes b => inr (length b)
  | _ => inl TypeError
  end.

Module test.

(** How a test helper ends: it returns, one of its assertions fails
    (unittest raises [failureException]), or an exception of the code
    under test comes through. *)
Inductive ended (A : Type) : Type :=
  | Returns (a : A)
  | Fails
  | Throws (e : exc).
Arguments Returns {A} a.
Arguments Fails {A}.
Arguments Throws {A} e.

(** A test computation; [None] when the fuel given to a loop ran out. *)
Definition T (A : Type) : Type := world → option (ended A * world).

#[global] Instance T_ret : MRet T := λ A a σ, Some (Returns a, σ).

#[global] Instance T_bind : MBind T := λ A B k m σ,
  match m σ with
  | Some (Returns a, σ') => k a σ'
  | Some (Fails, σ') => Some (Fails, σ')
  | Some (Throws e, σ') => Some (Throws e, σ')
  | None => None
  end.

(** A call into the code under test. *)
Definition run {A} (m : M A) : T A :=
  λ σ, match m σ with
       | (Ok a, σ') => Some (Returns a, σ')
       | (Raise e, σ') => Some (Throws e, σ')
       end.

Definition run_fuel {A} (m : world → option (outcome A * world)) : T A :=
  λ σ, match m σ with
       | Some (Ok a, σ') => Some (Returns a, σ')
       | Some (Raise e, σ') => Some (Throws e, σ')
       | None => None
       end.

(** unittest's [assertTrue] and [assertFalse], on a truth value. *)
Definition assertTrue (expr : bool) : T unit :=
  λ σ, Some (if expr then Returns tt else Fails, σ).

Definition assertFalse (expr : bool) : T unit := assertTrue (negb expr).

(** [TestCase.assertLen] (test/__init__.py, lines 103-105) *)
Definition assertLen (obj : pyval) (length : Z) : T unit :=
  n ← run (lift (builtin_len obj));
  assertTrue (Z.eqb (Z.of_nat n) length).

(** [TestCase.assertEqual] (test/__init__.py, lines 139-144) *)
Definition assertEqual (obj1 obj2 : pyval) (reflective : bool) : T unit :=
  assertTrue (py_eq obj1 obj2);;
  if reflective then assertTrue (negb (py_ne obj1 obj2)) else mret tt.

(** [Test_transfer_data.assertTransfer] (test_data_source.py, lines
    86-99); [func] is [transfer_data], called with its default chunk
    size. *)
Definition assertTransfer (fuel : nat) (reader writer : loc) : T unit :=
  r_position ← run (tell reader);
  w_position ← run (tell writer);
  run_fuel (transfer_data fuel reader writer None);;
  r_end ← run (tell reader);
  let r_size := Z.of_nat r_end - Z.of_nat r_position in
  rest ← run (stringio.read reader (-1));
  assertFalse (truthy rest);;
  w_end ← run (tell writer);
  assertEqual (VInt (Z.of_nat w_end - Z.of_nat w_position)) (VInt r_size) true;;
  run (stringio.seek writer (Z.of_nat w_position));;
  run (stringio.seek reader (Z.of_nat r_position));;
  data ← run (stringio.read reader (-1));
  assertLen data r_size;;
  written ← run (stringio.read writer (-1));
  assertEqual data written true.

(** [issubclass] among the exception classes at hand: in Python's
    hierarchy the two Unicode errors derive from [ValueError]; all derive
    from [Exception]. *)
Definition issubclass (e base : exc) : bool :=
  match e, base with
  | UnicodeEncodeError, ValueError | UnicodeDecodeError, ValueError => true
  | _, _ => bool_decide (e = base)
  end.

(** Whether [except excClass] catches [e], [excClass] being a tuple of
    classes (a single class is a tuple of one). *)
Definition catches (excClass : list exc) (e : exc) : bool :=
  existsb (issubclass e) excClass.

(** [TestCase.assertRaises] (test/__init__.py, lines 153-168).  [ignored]
    tells which exceptions are instances of [IGNORED_EXCEPTIONS], a
    constant of [snakeoil.compatibility].  There is no [else] branch: a
    call that raises nothing falls through. *)
Definition assertRaises {A} (ignored : exc → bool) (excClass : list exc)
    (callableObj : M A) : T unit :=
  λ σ, match callableObj σ with
       | (Ok _, σ') => Some (Returns tt, σ')
       | (Raise e, σ') =>
           if catches excClass e then Some (Returns tt, σ')
           else if ignored e then Some (Throws e, σ')
           else Some (Fails, σ')
       end.

(** [TestCase.assertRaisesMsg] (test/__init__.py, lines 170-184) *)
Definition assertRaisesMsg {A} (excClass : list exc) (callableObj : M A) :
    T unit :=
  λ σ, match callableObj σ with
       | (Ok _, σ') => Some (Fails, σ')
       | (Raise e, σ') =>
           if catches excClass e then Some (Returns tt, σ')
           else Some (Throws e, σ')
       end.

End test.

(** ** Running a test case *)

(** [Todo], [_tryResultCall] and [TestCase.run] of test/__init__.py.  The
    result object and the test case are seen through the calls made on
    them; an exception is seen through its class. *)
Module TestCase.

(** The methods a result object may lack ([_tryResultCall] looks them up
    with [getattr]); the others are called directly. *)
Record result : Type := Result {
  has_addSkip : bool;
  has_addExpectedFailure : bool;
  has_addUnexpectedSuccess : bool
}.

Section run.
Context {cls : Type} `{!EqDecision cls}.

(** [isinstance] of an exception of the class, against
    [self.failureException], [SkipTest] and [KeyboardInterrupt]. *)
Variables is_failure is_skip is_interrupt : cls → bool.

(** A [todo] attribute: a string, or a pair of errors and a reason, the
    errors being one class or a sequence of classes. *)
Inductive todo_attr : Type :=
  | todo_str (reason : string)
  | todo_pair (errors : cls + list cls) (reason : string).

Record Todo : Type := mkTodo {
  reason : string;
  errors : option (list cls)
}.

(** [Todo.parse] (lines 51-60) on an attribute of one of these shapes:
    [list(errors)] raises [TypeError] on a class, which then stands
    alone. *)
Definition parse (todo : todo_attr) : Todo :=
  match todo with
  | todo_str reason => mkTodo reason None
  | todo_pair (inl error) reason => mkTodo reason (Some [error])
  | todo_pair (inr errors) reason => mkTodo reason (Some errors)
  end.

(** [Todo.expected] (lines 62-69): the test is [exception is error]. *)
Definition expected (self : Todo) (exception : cls) : bool :=
  match errors self with
  | None => true
  | Some errors => existsb (λ error, bool_decide (exception = error)) errors
  end.

(** What is called on the result object and on the test case. *)
Inductive call : Type :=
  | startTest
  | stopTest
  | addSuccess
  | addSkip
  | addUnexpectedSuccess
  | addError (c : cls)
  | addFailure (c : cls)
  | addExpectedFailure (c : cls)
  | setUp
  | testMethod
  | tearDown
  | stdout_write.

(** [_tryResultCall] (lines 22-38): the call is made if the result object
    has the method, and the answer tells whether it was. *)
Definition _tryResultCall (has_method : bool) (c : call) : bool * list call :=
  if has_method then (true, [c]) else (false, []).

(** The handlers around the test method (lines 228-247), in their order:
    the calls made, and the exception that goes on, if any. *)
Definition handle_test_exception (res : result) (todo : option Todo)
    (e : cls) : list call * option cls :=
  let is_expected :=
    match todo with Some todo => expected todo e | None => false end in
  if is_failure e then
    (if is_expected
     then snd (_tryResultCall (has_addExpectedFailure res)
                 (addExpectedFailure e))
     else [addFailure e], None)
  else if is_skip e then
    (snd (_tryResultCall (has_addSkip res) addSkip), None)
  else if is_interrupt e then ([], Some e)
  else
    (if is_expected
     then snd (_tryResultCall (has_addExpectedFailure res)
                 (addExpectedFailure e))
     else [addError e], None).

(** What a [todo] attribute can be: of a shape [Todo.parse] takes, or
    anything else, on which the unpacking [errors, reason = todo] of line
    55 raises ([TypeError] for an object that cannot be unpacked,
    [ValueError] for one that does not unpack into two); [raises] is the
    class of that exception. *)
Inductive todo_value : Type :=
  | shaped (todo : todo_attr)
  | ill_shaped (raises : cls).

(** [Todo.parse] (lines 51-60) on any attribute. *)
Definition parse_value (todo : todo_value) : cls + Todo :=
  match todo with
  | shaped todo => inr (parse todo)
  | ill_shaped raises => inl raises
  end.

(** The body of [run] after the attributes are read and [todo] is parsed
    (lines 203-265).  [skip] is the attribute found, [todo] the parsed
    one; [filters_raise] is what installing the warning filters of a
    [suppress] attribute raises (lines 219-221), [None] when it raises
    nothing or there is no such attribute; [setUp_raises],
    [testMethod_raises] and [tearDown_raises] are what each of the three
    raises when it is run.  The methods of the result object return. *)
Definition run_body (res : result) (skip : option string)
    (todo : option Todo) (filters_raise : option cls)
    (setUp_raises testMethod_raises tearDown_raises : option cls) :
    list call * option cls :=
  match skip with
  | Some _ =>
      let '(called, calls) := _tryResultCall (has_addSkip res) addSkip in
      (if called then calls else calls ++ [stdout_write; addSuccess], None)
  | None =>
      match setUp_raises, filters_raise with
      | Some e, _ =>
          if is_interrupt e then ([setUp], Some e)
          else ([setUp; addError e], None)
      | None, Some e => ([setUp], Some e)
      | None, None =>
          let '(calls1, ok, out1) :=
            match testMethod_raises with
            | None => ([], true, None)
            | Some e =>
                let '(calls, out) := handle_test_exception res todo e in
                (calls, false, out)
            end in
          match out1 with
          | Some e => ([setUp; testMethod] ++ calls1, Some e)
          | None =>
              let '(calls2, ok, out2) :=
                match tearDown_raises with
                | None => ([], ok, None)
                | Some e =>
                    if is_interrupt e then ([], ok, Some e)
                    else ([addError e], false, None)
                end in
              match out2 with
              | Some e =>
                  ([setUp; testMethod] ++ calls1 ++ [tearDown] ++ calls2,
                   Some e)
              | None =>
                  ([setUp; testMethod] ++ calls1 ++ [tearDown] ++ calls2
                   ++ (if ok then
                         match todo with
                         | Some _ =>
                             snd (_tryResultCall
                                    (has_addUnexpectedSuccess res)
                                    addUnexpectedSuccess)
                         | None => [addSuccess]
                         end
                       else []),
                   None)
              end
          end
      end
  end.

(** [TestCase.run] (lines 193-268): the calls made, in order, and the
    exception that leaves [run], if any.  [Todo.parse] is called after
    [startTest], inside the [try] whose [finally] calls [stopTest], and
    before the [skip] attribute is looked at (lines 197-203): what it
    raises leaves [run], nothing else having been called. *)
Definition run_value (res : result) (skip : option string)
    (todo : option todo_value) (filters_raise : option cls)
    (setUp_raises testMethod_raises tearDown_raises : option cls) :
    list call * option cls :=
  let parsed : cls + option Todo :=
    match todo with
    | None => inr None
    | Some todo =>
        match parse_value todo with
        | inl raises => inl raises
        | inr todo => inr (Some todo)
        end
    end in
  match parsed with
  | inl raises => ([startTest; stopTest], Some raises)
  | inr todo =>
      let '(calls, out) :=
        run_body res skip todo filters_raise setUp_raises testMethod_raises
          tearDown_raises in
      ([startTest] ++ calls ++ [stopTest], out)
  end.

(** [run] for a [todo] attribute of one of the shapes [Todo.parse]
    takes and a method without a [suppress] attribute. *)
Definition run (res : result) (skip : option string)
    (todo : option todo_attr)
    (setUp_raises testMethod_raises tearDown_raises : option cls) :
    list call * option cls :=
  run_value res skip (shaped <$> todo) None setUp_raises testMethod_raises
    tearDown_raises.

End run.

End TestCase.

(** ** Comparison by attributes *)

(** [generic_attr_eq] and [generic_attr_ne] of _klass.py.  An instance is
    seen through its identity, its [__attr_comparison__] if it has one,
    and its attributes. *)
Module _klass.

Section attrs.
Context {V : Type}.

(** [a != b] for what [getattr(inst, attr, _sentinel)] returns: a value,
    or the sentinel, which is [None] here. *)
Variable ne : option V → option V → bool.

Record instance : Type := Instance {
  ident : nat;
  __attr_comparison__ : option (list string);
  attributes : gmap string V
}.

(** [inst1 is inst2] *)
Definition is_ (inst1 inst2 : instance) : bool :=
  bool_decide (ident inst1 = ident inst2).

(** [_attrlist_getter]: [attrgetter] raises when the attribute is
    missing. *)
Definition _attrlist_getter (inst : instance) : exc + list string :=
  match __attr_comparison__ inst with
  | Some l => inr l
  | None => inl AttributeError
  end.

(** The loop of [generic_attr_eq] (lines 41-45) *)
Fixpoint eq_loop (inst1 inst2 : instance) (l : list string) : bool :=
  match l with
  | [] => true
  | attr :: l =>
      if ne (attributes inst1 !! attr) (attributes inst2 !! attr) then false
      else eq_loop inst1 inst2 l
  end.

(** [generic_attr_eq] (lines 33-45) *)
Definition generic_attr_eq (inst1 inst2 : instance) : exc + bool :=
  if is_ inst1 inst2 then inr true
  else
    match _attrlist_getter inst1 with
    | inl e => inl e
    | inr l => inr (eq_loop inst1 inst2 l)
    end.

(** The loop of [generic_attr_ne] (lines 56-59) *)
Fixpoint ne_loop (inst1 inst2 : instance) (l : list string) : bool :=
  match l with
  | [] => false
  | attr :: l =>
      if ne (attributes inst1 !! attr) (attributes inst2 !! attr) then true
      else ne_loop inst1 inst2 l
  end.

(** [generic_attr_ne] (lines 48-59) *)
Definition generic_attr_ne (inst1 inst2 : instance) : exc + bool :=
  if is_ inst1 inst2 then inr false
  else
    match _attrlist_getter inst1 with
    | inl e => inl e
    | inr l => inr (ne_loop inst1 inst2 l)
    end.

End attrs.

End _klass.
(** * Properties *)

(** ** Sanity checks of the codec *)

Example utf8_encode_ascii :
  Utf8.encode (text "foonani") = Some (octets "foonani").
Proof. reflexivity. Qed.

(* "foonani\xf2" as in test_get_bytes_fileobj *)
Example utf8_encode_latin :
  Utf8.encode (text "foonani" ++ [0xf2%N])
  = Some (octets "foonani" ++ [Byte.xc3; Byte.xb2]).
Proof. reflexivity. Qed.

Example utf8_decode_latin :
  Utf8.decode [Byte.x66; Byte.xc3; Byte.xb2; Byte.xe2; Byte.x82; Byte.xac;
               Byte.xf0; Byte.x9f; Byte.x98; Byte.x80]
  = Some [0x66; 0xf2; 0x20ac; 0x1f600]%N.
Proof. reflexivity. Qed.

Example utf8_decode_overlong : Utf8.decode [Byte.xc0; Byte.x80] = None.
Proof. reflexivity. Qed.

Example utf8_encode_surrogate : Utf8.encode [0xD800%N] = None.
Proof. reflexivity. Qed.

(** ** The codec round-trips *)

Module Utf8Facts.
Import Utf8.
Local Open Scope N_scope.

Lemma to_N_byte_of_N n : n < 256 -> Byte.to_N (byte_of_N n) = n.
Proof.
  intros H. unfold byte_of_N. destruct (Byte.of_N n) eqn:E.
  - by apply Byte.to_of_N.
  - apply Byte.of_N_None_iff in E. lia.
Qed.

Lemma byte_of_N_to_N b : byte_of_N (Byte.to_N b) = b.
Proof. unfold byte_of_N. by rewrite Byte.of_to_N. Qed.

Lemma div_4096 c : c / 4096 = c / 64 / 64.
Proof. by rewrite N.Div0.div_div. Qed.

Lemma div_262144 c : c / 262144 = c / 64 / 64 / 64.
Proof. by rewrite !N.Div0.div_div. Qed.

(** Name the quotient and remainder of [x] by 64, keeping only their
    defining equation and bound, so that [lia] sees linear facts. *)
Ltac euclid x :=
  let q := fresh "q" in
  let r := fresh "r" in
  pose proof (N.Div0.div_mod x 64);
  pose proof (N.mod_upper_bound x 64 ltac:(discriminate));
  set (q := x / 64) in *; set (r := x mod 64) in *; clearbody q r.

Ltac split_cmp :=
  repeat match goal with
    | |- context [?a <? ?b] => destruct (N.ltb_spec a b); try lia
    | |- context [?a <=? ?b] => destruct (N.leb_spec a b); try lia
    | H : context [?a <? ?b] |- _ => destruct (N.ltb_spec a b); try lia
    | H : context [?a <=? ?b] |- _ => destruct (N.leb_spec a b); try lia
    end.

Lemma decode_encode_cp c bs rest :
  encode_cp c = Some bs → decode (bs ++ rest) = push c (decode rest).
Proof.
  unfold encode_cp, is_surrogate. intros H.
  rewrite div_4096, div_262144 in H.
  euclid c. euclid q. euclid q0.
  split_cmp; simpl in H; try discriminate; injection H as <-;
    cbn [app decode]; unfold is_cont, payload, is_surrogate;
    rewrite !to_N_byte_of_N by lia; split_cmp; cbn [andb negb];
    f_equal; lia.
Qed.

Lemma decode_encode s : ∀ bs, encode s = Some bs → decode bs = Some s.
Proof.
  induction s as [|c s IH]; intros bs H; simpl in H.
  - by injection H as <-.
  - destruct (encode_cp c) as [b1|] eqn:E1; [|discriminate].
    destruct (encode s) as [b2|] eqn:E2; [|discriminate].
    injection H as <-. rewrite (decode_encode_cp _ _ _ E1).
    by rewrite (IH _ eq_refl).
Qed.

Lemma push_Some c r s : push c r = Some s → ∃ s', s = c :: s' ∧ r = Some s'.
Proof. destruct r; simpl; intros [= <-]; eauto. Qed.

Lemma encode_cons c s bs bs' :
  encode_cp c = Some bs → encode s = Some bs' → encode (c :: s) = Some (bs ++ bs').
Proof. intros H1 H2. simpl. by rewrite H1, H2. Qed.

Ltac byte_range b := pose proof (Byte.to_N_bounded b).

Lemma encode_decode_bounded n : ∀ bs s,
  (length bs ≤ n)%nat → decode bs = Some s → encode s = Some bs.
Proof.
  induction n as [|n IH]; intros bs s Hn H.
  { destruct bs; [|simpl in Hn; lia]. by injection H as <-. }
  destruct bs as [|b0 r0]; [by injection H as <-|].
  cbn [decode] in H. byte_range b0.
  destruct (N.ltb_spec (Byte.to_N b0) 0x80).
  { apply push_Some in H as (s' & -> & H).
    apply (encode_cons _ _ [b0]); [|apply IH; [simpl in Hn; lia|done]].
    unfold encode_cp. split_cmp. by rewrite byte_of_N_to_N. }
  destruct (N.ltb_spec (Byte.to_N b0) 0xC0); [discriminate|].
  destruct (N.ltb_spec (Byte.to_N b0) 0xE0).
  { destruct r0 as [|b1 r1]; [discriminate|]. byte_range b1.
    unfold is_cont, payload in H.
    destruct (N.leb_spec 0x80 (Byte.to_N b1)); [|discriminate].
    destruct (N.ltb_spec (Byte.to_N b1) 0xC0); [|discriminate].
    cbn [andb] in H.
    set (c := (Byte.to_N b0 - 192) * 64 + (Byte.to_N b1 - 128)) in *.
    destruct (N.leb_spec 0x80 c); [|discriminate].
    apply push_Some in H as (s' & -> & H).
    apply (encode_cons _ _ [b0; b1]);
      [|apply IH; [simpl in Hn; lia|done]].
    unfold encode_cp. subst c. split_cmp.
    match goal with |- context [?x / 64] => euclid x end.
    replace (192 + q) with (Byte.to_N b0) by lia.
    replace (128 + r) with (Byte.to_N b1) by lia.
    by rewrite !byte_of_N_to_N. }
  destruct (N.ltb_spec (Byte.to_N b0) 0xF0).
  { destruct r0 as [|b1 [|b2 r2]]; try discriminate.
    byte_range b1. byte_range b2.
    unfold is_cont, payload in H.
    destruct (N.leb_spec 0x80 (Byte.to_N b1)); [|discriminate].
    destruct (N.ltb_spec (Byte.to_N b1) 0xC0); [|discriminate].
    destruct (N.leb_spec 0x80 (Byte.to_N b2)); [|discriminate].
    destruct (N.ltb_spec (Byte.to_N b2) 0xC0); [|discriminate].
    cbn [andb] in H.
    set (c := (Byte.to_N b0 - 224) * 4096 + (Byte.to_N b1 - 128) * 64
              + (Byte.to_N b2 - 128)) in *.
    destruct (N.leb_spec 0x800 c); [|discriminate].
    destruct (is_surrogate c) eqn:Hs; [discriminate|].
    cbn [andb negb] in H.
    apply push_Some in H as (s' & -> & H).
    apply (encode_cons _ _ [b0; b1; b2]);
      [|apply IH; [simpl in Hn; lia|done]].
    unfold encode_cp. rewrite Hs, div_4096.
    assert (c < 0x10000) by (subst c; lia).
    split_cmp. clear Hs. subst c.
    match goal with |- context [?x / 64 / 64] => euclid x end.
    euclid q.
    replace (224 + q0) with (Byte.to_N b0) by lia.
    replace (128 + r0) with (Byte.to_N b1) by lia.
    replace (128 + r) with (Byte.to_N b2) by lia.
    by rewrite !byte_of_N_to_N. }
  destruct (N.ltb_spec (Byte.to_N b0) 0xF8); [|discriminate].
  destruct r0 as [|b1 [|b2 [|b3 r3]]]; try discriminate.
  byte_range b1. byte_range b2. byte_range b3.
  unfold is_cont, payload in H.
  destruct (N.leb_spec 0x80 (Byte.to_N b1)); [|discriminate].
  destruct (N.ltb_spec (Byte.to_N b1) 0xC0); [|discriminate].
  destruct (N.leb_spec 0x80 (Byte.to_N b2)); [|discriminate].
  destruct (N.ltb_spec (Byte.to_N b2) 0xC0); [|discriminate].
  destruct (N.leb_spec 0x80 (Byte.to_N b3)); [|discriminate].
  destruct (N.ltb_spec (Byte.to_N b3) 0xC0); [|discriminate].
  cbn [andb] in H.
  set (c := (Byte.to_N b0 - 240) * 262144 + (Byte.to_N b1 - 128) * 4096
            + (Byte.to_N b2 - 128) * 64 + (Byte.to_N b3 - 128)) in *.
  destruct (N.leb_spec 0x10000 c); [|discriminate].
  destruct (N.ltb_spec c 0x110000); [|discriminate].
  cbn [andb] in H.
  apply push_Some in H as (s' & -> & H).
  apply (encode_cons _ _ [b0; b1; b2; b3]);
    [|apply IH; [simpl in Hn; lia|done]].
  unfold encode_cp. rewrite div_4096, div_262144.
  split_cmp. subst c.
  match goal with |- context [?x / 64 / 64 / 64] => euclid x end.
  euclid q. euclid q0.
  replace (240 + q1) with (Byte.to_N b0) by lia.
  replace (128 + r1) with (Byte.to_N b1) by lia.
  replace (128 + r0) with (Byte.to_N b2) by lia.
  replace (128 + r) with (Byte.to_N b3) by lia.
  by rewrite !byte_of_N_to_N.
Qed.

Lemma encode_decode bs s : decode bs = Some s → encode s = Some bs.
Proof. by apply (encode_decode_bounded (length bs)). Qed.

End Utf8Facts.

(** ** Reading the store *)

Lemma get_source_eq σ self o :
  sources σ !! self = Some o → get_source self σ = (Ok o, σ).
Proof. intros H. unfold get_source. by rewrite H. Qed.

Lemma get_handle_eq σ self o :
  handles σ !! self = Some o → get_handle self σ = (Ok o, σ).
Proof. intros H. unfold get_handle. by rewrite H. Qed.

Lemma bind_eq {A B} (m : M A) (k : A → M B) σ a σ' :
  m σ = (Ok a, σ') → bind m k σ = k a σ'.
Proof. intros H. unfold bind. by rewrite H. Qed.

Lemma bind_raise {A B} (m : M A) (k : A → M B) σ e σ' :
  m σ = (Raise e, σ') → bind m k σ = (Raise e, σ').
Proof. intros H. unfold bind. by rewrite H. Qed.

(** ** The scenarios of the test suite *)

(* _test_fileobj on an immutable source: the content is read back and a
   write is refused with one of the exceptions the handle declares *)
Example test_fileobj_immutable :
  let run :=
    let* obj := data_source.__init__ cls_data_source (VStr (text "foonani")) false in
    let* handle := data_source.text_fileobj obj false in
    let* got := stringio.read handle (-1) in
    attempt (stringio.write handle (VStr (text "monkey"))) >>
    let* again := data_source.bytes_fileobj obj false in
    let* got' := stringio.read again (-1) in
    ret (got, got') in
  fst (run empty_world)
  = Ok (VStr (text "foonani"), VBytes (octets "foonani")).
Proof. reflexivity. Qed.

(* _test_fileobj with bytes_fileobj on a mutable source *)
Example test_bytes_fileobj :
  let run :=
    let* obj := data_source.__init__ cls_data_source (VStr (text "foonani")) true in
    let* f := data_source.bytes_fileobj obj true in
    stringio.write f (VBytes (octets "dar")) >>
    kls.close f >>
    let* g := data_source.bytes_fileobj obj true in
    stringio.read g (-1) in
  fst (run empty_world) = Ok (VBytes (octets "darnani")).
Proof. reflexivity. Qed.

(* Test_transfer_data.test_it, on twenty digits and seven at a time *)
Example test_transfer_data :
  let digits := text "01234567890123456789" in
  let run :=
    let* reader := stringio.__init__ text_ro_StringIO (VStr digits) in
    let* writer := stringio.__init__ text_wr_StringIO (VStr digits) in
    (λ σ, match transfer_data 20 reader writer (Some 7) σ with
          | Some r => r
          | None => (Raise MemoryError, σ)
          end) >>
    stringio.seek writer 5 >>
    stringio.seek reader 0 >>
    (λ σ, match transfer_data 20 reader writer None σ with
          | Some r => r
          | None => (Raise MemoryError, σ)
          end) >>
    stringio.seek writer 0 >>
    stringio.read writer (-1) in
  fst (run empty_world) = Ok (VStr (take 5 digits ++ digits)).
Proof. vm_compute. reflexivity. Qed.

(** ** Immutable sources *)

(** C1: a source whose [mutable] flag is false, on disk or in memory,
    answers a request for a writable text or bytes handle with
    [TypeError], and the whole store, trace of primitive operations
    included, is as it was: nothing was opened, read or changed. *)
Theorem immutable_source_refuses_writable
    (ls : local_source.t) (self : loc) (o : source_obj) (σ : world) :
  local_source.mutable ls = false →
  sources σ !! self = Some o →
  mutable o = false →
  local_source.text_fileobj ls true σ = (Raise TypeError, σ)
  ∧ local_source.bytes_fileobj ls true σ = (Raise TypeError, σ)
  ∧ data_source.text_fileobj self true σ = (Raise TypeError, σ)
  ∧ data_source.bytes_fileobj self true σ = (Raise TypeError, σ).
Proof.
  intros Hls Hsrc Hmut.
  unfold local_source.text_fileobj, local_source.bytes_fileobj,
    data_source.text_fileobj, data_source.bytes_fileobj.
  rewrite Hls. simpl.
  rewrite !(bind_eq _ _ _ _ _ (get_source_eq _ _ _ Hsrc)), Hmut.
  done.
Qed.

Lemma immutable_source_refuses_writable_witness :
  let ls := local_source.__init__ "localsource.test" false None in
  let σ := snd (data_source.__init__ cls_data_source (VStr (text "foonani")) false empty_world) in
  local_source.text_fileobj ls true σ = (Raise TypeError, σ)
  ∧ local_source.bytes_fileobj ls true σ = (Raise TypeError, σ)
  ∧ data_source.text_fileobj 0%nat true σ = (Raise TypeError, σ)
  ∧ data_source.bytes_fileobj 0%nat true σ = (Raise TypeError, σ).
Proof.
  intros ls σ.
  apply (immutable_source_refuses_writable ls 0%nat
           (Source cls_data_source (VStr (text "foonani")) false) σ);
    reflexivity.
Defined.

(** ** Steps of the stream primitives *)

Ltac wsimpl :=
  cbn [sources handles fds files trace
       with_sources with_handles with_fds with_files log] in *.

Ltac munfold :=
  unfold bind, ret, raise, lift, modify, put_handle, set_callback in *.

Lemma fresh_handle σ : handles σ !! fresh (dom (handles σ)) = None.
Proof. apply not_elem_of_dom, is_fresh. Qed.

Lemma fresh_source σ : sources σ !! fresh (dom (sources σ)) = None.
Proof. apply not_elem_of_dom, is_fresh. Qed.

Lemma fresh_fd σ : fds σ !! fresh (dom (fds σ)) = None.
Proof. apply not_elem_of_dom, is_fresh. Qed.

Lemma stringio_init_eq k v buf σ :
  stringio.initial k v = inr buf →
  stringio.__init__ k v σ
  = (Ok (fresh (dom (handles σ))),
     with_handles <[fresh (dom (handles σ)) := StringIO k buf 0 false None]> σ).
Proof. intros H. unfold stringio.__init__. munfold. by rewrite H. Qed.

Lemma stringio_init_raise k v e σ :
  stringio.initial k v = inl e → stringio.__init__ k v σ = (Raise e, σ).
Proof. intros H. unfold stringio.__init__. munfold. by rewrite H. Qed.

Lemma read_eq σ self o size :
  handles σ !! self = Some o → closed o = false →
  stringio.read self size σ
  = (Ok (py_read (buffer o) (position o) size),
     log (EvRead self size (py_read (buffer o) (position o) size))
       (with_handles
          <[self := StringIO (h_class o) (buffer o)
                      (position o + py_len (py_read (buffer o) (position o) size))
                      false (_callback o)]> σ)).
Proof.
  intros H Hc. unfold stringio.read. munfold.
  rewrite (get_handle_eq _ _ _ H), Hc. done.
Qed.

Lemma write_eq σ self o v buf :
  handles σ !! self = Some o → is_readonly (h_class o) = false →
  closed o = false → py_write (buffer o) (position o) v = Some buf →
  stringio.write self v σ
  = (Ok (py_len v),
     log (EvWrite self v)
       (with_handles
          <[self := StringIO (h_class o) buf (position o + py_len v)
                      false (_callback o)]> σ)).
Proof.
  intros H Hro Hc Hw. unfold stringio.write. munfold.
  rewrite (get_handle_eq _ _ _ H), Hro, Hc, Hw. done.
Qed.

Lemma write_readonly σ self o v :
  handles σ !! self = Some o → is_readonly (h_class o) = true →
  stringio.write self v σ = (Raise TypeError, σ).
Proof.
  intros H Hro. unfold stringio.write. munfold.
  by rewrite (get_handle_eq _ _ _ H), Hro.
Qed.

Lemma seek_eq σ self o offset :
  handles σ !! self = Some o → closed o = false → 0 ≤ offset →
  stringio.seek self offset σ
  = (Ok offset,
     with_handles
       <[self := StringIO (h_class o) (buffer o) (Z.to_nat offset)
                   false (_callback o)]> σ).
Proof.
  intros H Hc Hoff. unfold stringio.seek. munfold.
  rewrite (get_handle_eq _ _ _ H), Hc.
  destruct (Z.ltb_spec offset 0); [lia|done].
Qed.

Lemma flush_eq σ self o :
  handles σ !! self = Some o → closed o = false →
  stringio.flush self σ = (Ok tt, σ).
Proof.
  intros H Hc. unfold stringio.flush. munfold.
  by rewrite (get_handle_eq _ _ _ H), Hc.
Qed.

Lemma close_eq σ self o :
  handles σ !! self = Some o →
  stringio.close self σ
  = (Ok tt,
     with_handles
       <[self := StringIO (h_class o) (buffer o) (position o) true
                   (_callback o)]> σ).
Proof.
  intros H. unfold stringio.close. munfold.
  by rewrite (get_handle_eq _ _ _ H).
Qed.


(** ** Commit at close *)


Lemma reset_data_eq σ self o d d' :
  sources σ !! self = Some o → stored_form (data o) d = inr d' →
  _reset_data self d σ
  = (Ok tt, with_sources <[self := Source (src_class o) d' (mutable o)]> σ).
Proof.
  intros H Hd. unfold _reset_data, stored_form, set_data in *. munfold.
  rewrite (get_source_eq _ _ _ H). simpl.
  destruct (isinstance_bytes (data o)), (isinstance_bytes d),
    (isinstance_str d); simpl in *;
    try (injection Hd as ->); try rewrite Hd; simpl;
    by rewrite (get_source_eq _ _ _ H).
Qed.

Lemma reset_data_raise σ self o d e :
  sources σ !! self = Some o → stored_form (data o) d = inl e →
  _reset_data self d σ = (Raise e, σ).
Proof.
  intros H Hd. unfold _reset_data, stored_form, set_data in *. munfold.
  rewrite (get_source_eq _ _ _ H). simpl.
  destruct (isinstance_bytes (data o)), (isinstance_bytes d),
    (isinstance_str d); simpl in *; try discriminate; by rewrite Hd.
Qed.

Lemma py_read_start buf : py_read buf 0 (-1) = buf.
Proof. by destruct buf. Qed.

Lemma kls_close_eq σ h o self src d' :
  handles σ !! h = Some o → closed o = false →
  _callback o = Some (bound_reset_data self) →
  sources σ !! self = Some src →
  stored_form (data src) (buffer o) = inr d' →
  kls.close h σ
  = (Ok tt,
     World (<[self := Source (src_class src) d' (mutable src)]> (sources σ))
           (<[h := StringIO (h_class o) (buffer o) (py_len (buffer o)) true None]>
              (handles σ))
           (fds σ) (files σ)
           (trace σ ++ [EvRead h (-1) (buffer o);
                        EvCall (bound_reset_data self) (buffer o)])).
Proof.
  intros Hh Hc Hcb Hs Hd. unfold kls.close.
  rewrite (bind_eq _ _ _ _ _ (flush_eq _ _ _ Hh Hc)).
  rewrite (bind_eq _ _ _ _ _ (get_handle_eq _ _ _ Hh)).
  rewrite Hcb.
  erewrite bind_eq; last first.
  { erewrite bind_eq; last by apply (seek_eq _ _ _ 0 Hh Hc).
    erewrite bind_eq; last first.
    { apply read_eq; wsimpl; [apply lookup_insert_eq|done]. }
    cbn [buffer position h_class _callback closed call].
    rewrite py_read_start.
    erewrite bind_eq; last first.
    { unfold call, modify. unfold bind at 1.
      eapply reset_data_eq; wsimpl; [exact Hs|exact Hd]. }
    unfold set_callback. erewrite bind_eq; last first.
    { apply get_handle_eq. wsimpl. apply lookup_insert_eq. }
    unfold put_handle, modify. reflexivity. }
  erewrite close_eq; last by (wsimpl; apply lookup_insert_eq).
  unfold with_handles, with_sources, log. wsimpl. simpl.
  by rewrite !insert_insert_eq, <- app_assoc.
Qed.

Lemma kls_close_raise σ h o self src e :
  handles σ !! h = Some o → closed o = false →
  _callback o = Some (bound_reset_data self) →
  sources σ !! self = Some src →
  stored_form (data src) (buffer o) = inl e →
  kls.close h σ
  = (Raise e,
     World (sources σ)
           (<[h := StringIO (h_class o) (buffer o) (py_len (buffer o)) false
                     (_callback o)]> (handles σ))
           (fds σ) (files σ)
           (trace σ ++ [EvRead h (-1) (buffer o);
                        EvCall (bound_reset_data self) (buffer o)])).
Proof.
  intros Hh Hc Hcb Hs Hd. unfold kls.close.
  rewrite (bind_eq _ _ _ _ _ (flush_eq _ _ _ Hh Hc)).
  rewrite (bind_eq _ _ _ _ _ (get_handle_eq _ _ _ Hh)).
  rewrite Hcb at 1.
  erewrite bind_raise; first reflexivity.
  erewrite bind_eq; last by apply (seek_eq _ _ _ 0 Hh Hc).
  erewrite bind_eq; last first.
  { apply read_eq; wsimpl; [apply lookup_insert_eq|done]. }
  cbn [buffer position h_class _callback closed call].
  rewrite py_read_start.
  erewrite bind_raise; last first.
  { unfold call, modify. unfold bind at 1.
    eapply reset_data_raise; wsimpl; [exact Hs|exact Hd]. }
  unfold with_handles, log. wsimpl. simpl.
  by rewrite !insert_insert_eq, <- app_assoc.
Qed.

Lemma flush_cases σ h o :
  handles σ !! h = Some o →
  stringio.flush h σ
  = (if closed o && negb (is_text (h_class o)) then Raise ValueError
     else Ok tt, σ).
Proof.
  intros Hh. unfold stringio.flush.
  rewrite (bind_eq _ _ _ _ _ (get_handle_eq _ _ _ Hh)).
  by destruct (closed o && negb (is_text (h_class o))).
Qed.

(** Without a callback, closing touches the handle only. *)
Lemma kls_close_no_callback σ h o :
  handles σ !! h = Some o → _callback o = None →
  ∃ r hs, kls.close h σ
          = (r, World (sources σ) hs (fds σ) (files σ) (trace σ)).
Proof.
  intros Hh Hcb. unfold kls.close.
  destruct (closed o && negb (is_text (h_class o))) eqn:E.
  - erewrite bind_raise; last by rewrite (flush_cases _ _ _ Hh), E.
    eexists _, (handles σ). by destruct σ.
  - erewrite bind_eq; last by rewrite (flush_cases _ _ _ Hh), E.
    rewrite (bind_eq _ _ _ _ _ (get_handle_eq _ _ _ Hh)), Hcb.
    unfold ret, bind at 1. rewrite (close_eq _ _ _ Hh).
    eexists _, _. reflexivity.
Qed.

(** ** Obtaining a handle from an in-memory source *)

Lemma convert_data_eq σ self o mode d :
  sources σ !! self = Some o → convert_data_of o mode = inr d →
  _convert_data self mode σ = (Ok d, σ).
Proof.
  intros H Hd. unfold _convert_data.
  rewrite (bind_eq _ _ _ _ _ (get_source_eq _ _ _ H)). by rewrite Hd.
Qed.

Lemma convert_data_raise σ self o mode e :
  sources σ !! self = Some o → convert_data_of o mode = inl e →
  _convert_data self mode σ = (Raise e, σ).
Proof.
  intros H Hd. unfold _convert_data.
  rewrite (bind_eq _ _ _ _ _ (get_source_eq _ _ _ H)). by rewrite Hd.
Qed.

Lemma convert_text_view o s :
  well_typed o = true → text_view (data o) = Some s →
  convert_data_of o "text" = inr (VStr s).
Proof.
  destruct o as [[] [] m]; simpl; intros Hw Hv; try discriminate;
    unfold convert_data_of, data_source_convert_data,
      text_data_source_convert_data, bytes_data_source_convert_data; simpl;
    try (injection Hv as ->); try rewrite Hv; done.
Qed.

Lemma convert_bytes_view o b :
  well_typed o = true → bytes_view (data o) = Some b →
  convert_data_of o "bytes" = inr (VBytes b).
Proof.
  destruct o as [[] [] m]; simpl; intros Hw Hv; try discriminate;
    unfold convert_data_of, data_source_convert_data,
      text_data_source_convert_data, bytes_data_source_convert_data; simpl;
    try (injection Hv as ->); try rewrite Hv; done.
Qed.

Lemma open_text_ro σ self o s :
  sources σ !! self = Some o → well_typed o = true →
  text_view (data o) = Some s →
  data_source.text_fileobj self false σ
  = (Ok (fresh (dom (handles σ))),
     with_handles
       <[fresh (dom (handles σ)) := StringIO text_ro_StringIO (VStr s) 0 false None]> σ).
Proof.
  intros H Hw Hv. unfold data_source.text_fileobj.
  rewrite (bind_eq _ _ _ _ _
             (convert_data_eq _ _ _ _ _ H (convert_text_view _ _ Hw Hv))).
  by apply stringio_init_eq.
Qed.

Lemma open_bytes_ro σ self o b :
  sources σ !! self = Some o → well_typed o = true →
  bytes_view (data o) = Some b →
  data_source.bytes_fileobj self false σ
  = (Ok (fresh (dom (handles σ))),
     with_handles
       <[fresh (dom (handles σ)) := StringIO bytes_ro_StringIO (VBytes b) 0 false None]> σ).
Proof.
  intros H Hw Hv. unfold data_source.bytes_fileobj.
  rewrite (bind_eq _ _ _ _ _
             (convert_data_eq _ _ _ _ _ H (convert_bytes_view _ _ Hw Hv))).
  by apply stringio_init_eq.
Qed.

Lemma kls_init_eq name f d buf σ :
  stringio.initial name d = inr buf →
  kls.__init__ name (Callable f) d σ
  = (Ok (fresh (dom (handles σ))),
     with_handles
       <[fresh (dom (handles σ)) := StringIO name buf 0 false (Some f)]> σ).
Proof.
  intros Hi. unfold kls.__init__.
  rewrite (bind_eq _ _ _ _ _ (stringio_init_eq _ _ _ _ Hi)).
  unfold set_callback.
  erewrite bind_eq; last first.
  { erewrite bind_eq;
      last by (apply get_handle_eq; wsimpl; apply lookup_insert_eq).
    unfold put_handle, modify. reflexivity. }
  unfold ret, with_handles. wsimpl. simpl. by rewrite insert_insert_eq.
Qed.

Lemma open_text_wr σ self o s :
  sources σ !! self = Some o → mutable o = true → well_typed o = true →
  text_view (data o) = Some s →
  data_source.text_fileobj self true σ
  = (Ok (fresh (dom (handles σ))),
     with_handles
       <[fresh (dom (handles σ)) :=
           StringIO text_wr_StringIO (VStr s) 0 false
             (Some (bound_reset_data self))]> σ).
Proof.
  intros H Hm Hw Hv. unfold data_source.text_fileobj.
  rewrite (bind_eq _ _ _ _ _ (get_source_eq _ _ _ H)), Hm. simpl.
  rewrite (bind_eq _ _ _ _ _
             (convert_data_eq _ _ _ _ _ H (convert_text_view _ _ Hw Hv))).
  by apply kls_init_eq.
Qed.

Lemma open_bytes_wr σ self o b :
  sources σ !! self = Some o → mutable o = true → well_typed o = true →
  bytes_view (data o) = Some b →
  data_source.bytes_fileobj self true σ
  = (Ok (fresh (dom (handles σ))),
     with_handles
       <[fresh (dom (handles σ)) :=
           StringIO bytes_wr_StringIO (VBytes b) 0 false
             (Some (bound_reset_data self))]> σ).
Proof.
  intros H Hm Hw Hv. unfold data_source.bytes_fileobj.
  rewrite (bind_eq _ _ _ _ _ (get_source_eq _ _ _ H)), Hm. simpl.
  rewrite (bind_eq _ _ _ _ _
             (convert_data_eq _ _ _ _ _ H (convert_bytes_view _ _ Hw Hv))).
  by apply kls_init_eq.
Qed.

(** ** Overwriting through a writable text handle *)

Lemma buf_write_start {A} (nul : A) (s T : list A) :
  buf_write nul s 0 T = T ++ drop (length T) s.
Proof.
  unfold buf_write. destruct T as [|t T]; [by rewrite drop_0|].
  by rewrite take_0, Nat.sub_0_l.
Qed.

Lemma stored_form_text held new :
  text_view held ≠ None →
  (isinstance_bytes held = true → Utf8.encode new ≠ None) →
  ∃ d', stored_form held (VStr new) = inr d'
        ∧ text_view d' = Some new
        ∧ isinstance_str d' = isinstance_str held
        ∧ isinstance_bytes d' = isinstance_bytes held.
Proof.
  intros Hv Henc. destruct held as [s|b|z|]; simpl in *; try done.
  - by exists (VStr new).
  - unfold stored_form. simpl.
    destruct (Utf8.encode new) as [b'|] eqn:E; [|by destruct Henc].
    exists (VBytes b'). split_and!; try done.
    simpl. by apply Utf8Facts.decode_encode.
Qed.

Lemma well_typed_same_kind c d d' m :
  isinstance_str d' = isinstance_str d →
  isinstance_bytes d' = isinstance_bytes d →
  well_typed (Source c d m) = true → well_typed (Source c d' m) = true.
Proof. unfold well_typed. destruct c; simpl; congruence. Qed.

Lemma write_close_read_eq σ src o s T :
  sources σ !! src = Some o → mutable o = true → well_typed o = true →
  text_view (data o) = Some s →
  (isinstance_bytes (data o) = true →
   Utf8.encode (buf_write 0%N s 0 T) ≠ None) →
  fst (write_close_read src T σ) = Ok (VStr (buf_write 0%N s 0 T)).
Proof.
  intros Hs Hm Hw Hv Henc. unfold write_close_read.
  destruct (stored_form_text (data o) (buf_write 0%N s 0 T))
    as (d' & Hd' & Hv' & Hk1 & Hk2); [congruence|done|].
  rewrite (bind_eq _ _ _ _ _ (open_text_wr _ _ _ _ Hs Hm Hw Hv)).
  set (h := fresh (dom (handles σ))).
  erewrite bind_eq; last first.
  { eapply write_eq; wsimpl; [apply lookup_insert_eq|done..]. }
  cbn [h_class buffer position _callback py_len].
  erewrite bind_eq; last first.
  { eapply kls_close_eq; wsimpl;
      [apply lookup_insert_eq|done|done|exact Hs|exact Hd']. }
  erewrite bind_eq; last first.
  { eapply open_text_ro; wsimpl; [apply lookup_insert_eq| |exact Hv'].
    destruct o as [c d m]. by apply (well_typed_same_kind c d). }
  wsimpl. erewrite read_eq; [|wsimpl; apply lookup_insert_eq|done].
  cbn [fst buffer position]. by rewrite py_read_start.
Qed.

Lemma init_eq cls d m σ :
  data_source.__init__ cls d m σ
  = (Ok (fresh (dom (sources σ))),
     with_sources <[fresh (dom (sources σ)) := Source cls d m]> σ).
Proof. reflexivity. Qed.

(** C2: a fresh mutable source holding "foonani", a writable text handle,
    [write("dar")], [close()], then a fresh read-only text handle: [read()]
    gives "darnani".  The writable handle starts at position 0 holding the
    whole of "foonani", so the three characters written replace "foo" and
    "nani" stays. *)
Theorem foonani_dar_reads_darnani σ :
  fst (construct_write_close_read (VStr (text "foonani")) (text "dar") σ)
  = Ok (VStr (text "darnani"))
  ∧ ∃ obj σ1 f σ2,
      data_source.__init__ cls_data_source (VStr (text "foonani")) true σ
      = (Ok obj, σ1)
      ∧ data_source.text_fileobj obj true σ1 = (Ok f, σ2)
      ∧ handles σ2 !! f
        = Some (StringIO text_wr_StringIO (VStr (text "foonani")) 0 false
                  (Some (bound_reset_data obj))).
Proof.
  split.
  - unfold construct_write_close_read.
    rewrite (bind_eq _ _ _ _ _ (init_eq _ _ _ _)).
    rewrite (write_close_read_eq _ _
               (Source cls_data_source (VStr (text "foonani")) true)
               (text "foonani"));
      [reflexivity|wsimpl; apply lookup_insert_eq|done..].
  - eexists _, _, _, _. split; [apply init_eq|]. split.
    + eapply open_text_wr; [wsimpl; apply lookup_insert_eq|done..].
    + wsimpl. apply lookup_insert_eq.
Qed.

(** C4, as stated, fails: with "foonani" stored, writing "dar" and closing
    does not make the source read "dar". *)
Lemma write_close_read_not_exactly_T :
  fst (construct_write_close_read (VStr (text "foonani")) (text "dar")
         empty_world)
  ≠ Ok (VStr (text "dar")).
Proof. vm_compute. discriminate. Qed.

(** C4, amended: for a mutable in-memory source presenting the text [s],
    writing [T] to a writable text handle, closing it and reading through
    a fresh read-only text handle yields [T] followed by what [s] has
    beyond the first [length T] characters; that is exactly [T] when [s]
    is no longer than [T].  (A source that stores bytes must be able to
    encode the result.) *)
Theorem write_close_read_overwrites_prefix σ src o s T :
  sources σ !! src = Some o → mutable o = true → well_typed o = true →
  text_view (data o) = Some s →
  (isinstance_bytes (data o) = true →
   Utf8.encode (T ++ drop (length T) s) ≠ None) →
  fst (write_close_read src T σ) = Ok (VStr (T ++ drop (length T) s))
  ∧ ((length s ≤ length T)%nat →
     fst (write_close_read src T σ) = Ok (VStr T)).
Proof.
  intros Hs Hm Hw Hv Henc.
  assert (fst (write_close_read src T σ) = Ok (VStr (T ++ drop (length T) s)))
    as H.
  { rewrite <- (buf_write_start 0%N).
    eapply write_close_read_eq; try done.
    by rewrite buf_write_start. }
  split; [done|]. intros Hlen.
  by rewrite H, drop_ge, app_nil_r.
Qed.

Lemma write_close_read_overwrites_prefix_witness :
  let σ := snd (data_source.__init__ cls_data_source (VStr (text "foonani"))
                  true empty_world) in
  fst (write_close_read 0%nat (text "snakeoil") σ)
  = Ok (VStr (text "snakeoil" ++ drop 8 (text "foonani")))
  ∧ ((length (text "foonani") ≤ length (text "snakeoil"))%nat →
     fst (write_close_read 0%nat (text "snakeoil") σ)
     = Ok (VStr (text "snakeoil"))).
Proof.
  intros σ.
  apply (write_close_read_overwrites_prefix σ 0%nat
           (Source cls_data_source (VStr (text "foonani")) true)
           (text "foonani") (text "snakeoil"));
    try reflexivity.
  discriminate.
Defined.

(** ** Text and bytes views of a source *)

Lemma source_reads_text σ self o s :
  sources σ !! self = Some o → well_typed o = true →
  text_view (data o) = Some s →
  ∃ h σ2, data_source.text_fileobj self false σ = (Ok h, σ2)
          ∧ fst (stringio.read h (-1) σ2) = Ok (VStr s).
Proof.
  intros Hs Hw Hv. eexists _, _. split; [by eapply open_text_ro|].
  erewrite read_eq; [|wsimpl; apply lookup_insert_eq|done].
  cbn [fst buffer position]. by rewrite py_read_start.
Qed.

Lemma source_reads_bytes σ self o b :
  sources σ !! self = Some o → well_typed o = true →
  bytes_view (data o) = Some b →
  ∃ h σ2, data_source.bytes_fileobj self false σ = (Ok h, σ2)
          ∧ fst (stringio.read h (-1) σ2) = Ok (VBytes b).
Proof.
  intros Hs Hw Hv. eexists _, _. split; [by eapply open_bytes_ro|].
  erewrite read_eq; [|wsimpl; apply lookup_insert_eq|done].
  cbn [fst buffer position]. by rewrite py_read_start.
Qed.

Lemma text_source_built σ T m self σ1 :
  data_source.__init__ cls_data_source (VStr T) m σ = (Ok self, σ1)
  ∨ text_data_source.__init__ (VStr T) m σ = (Ok self, σ1) →
  ∃ o, sources σ1 !! self = Some o ∧ well_typed o = true ∧ data o = VStr T.
Proof.
  intros [H|H]; unfold text_data_source.__init__ in H; simpl in H;
    rewrite init_eq in H; injection H as <- <-;
    eexists; (split; [wsimpl; apply lookup_insert_eq|done]).
Qed.

Lemma bytes_source_built σ B m self σ1 :
  data_source.__init__ cls_data_source (VBytes B) m σ = (Ok self, σ1)
  ∨ bytes_data_source.__init__ (VBytes B) m σ = (Ok self, σ1) →
  ∃ o, sources σ1 !! self = Some o ∧ well_typed o = true ∧ data o = VBytes B.
Proof.
  intros [H|H]; unfold bytes_data_source.__init__ in H; simpl in H;
    rewrite init_eq in H; injection H as <- <-;
    eexists; (split; [wsimpl; apply lookup_insert_eq|done]).
Qed.

(** C5: a source constructed from the text [T] reads as [T] through a
    text handle and, when [T] has an encoding [b], as [b] through a bytes
    handle.  The conversions of the sources undo each other: a source
    constructed from those octets [b] reads as [T] again through a text
    handle; and for any octets [B] that decode, to [s] say, a source
    constructed from [B] reads as [s] through a text handle, and a source
    constructed from [s] reads as [B] through a bytes handle.  So do the
    codecs they use: decoding [b] gives [T], and octets that decode at
    all encode back to themselves. *)
Theorem text_source_reads_as_text_and_bytes σ T m self σ1 :
  data_source.__init__ cls_data_source (VStr T) m σ = (Ok self, σ1)
  ∨ text_data_source.__init__ (VStr T) m σ = (Ok self, σ1) →
  (∃ h σ2, data_source.text_fileobj self false σ1 = (Ok h, σ2)
           ∧ fst (stringio.read h (-1) σ2) = Ok (VStr T))
  ∧ (∀ b, Utf8.encode T = Some b →
       (∃ h σ2, data_source.bytes_fileobj self false σ1 = (Ok h, σ2)
                ∧ fst (stringio.read h (-1) σ2) = Ok (VBytes b))
       ∧ Utf8.decode b = Some T
       ∧ ∀ σa m' back σb,
           data_source.__init__ cls_data_source (VBytes b) m' σa
           = (Ok back, σb)
           ∨ bytes_data_source.__init__ (VBytes b) m' σa = (Ok back, σb) →
           ∃ h σ2, data_source.text_fileobj back false σb = (Ok h, σ2)
                   ∧ fst (stringio.read h (-1) σ2) = Ok (VStr T))
  ∧ (∀ B s, Utf8.decode B = Some s →
       Utf8.encode s = Some B
       ∧ (∀ σa m' back σb,
            data_source.__init__ cls_data_source (VBytes B) m' σa
            = (Ok back, σb)
            ∨ bytes_data_source.__init__ (VBytes B) m' σa = (Ok back, σb) →
            ∃ h σ2, data_source.text_fileobj back false σb = (Ok h, σ2)
                    ∧ fst (stringio.read h (-1) σ2) = Ok (VStr s))
       ∧ (∀ σa m' again σb,
            data_source.__init__ cls_data_source (VStr s) m' σa
            = (Ok again, σb)
            ∨ text_data_source.__init__ (VStr s) m' σa = (Ok again, σb) →
            ∃ h σ2, data_source.bytes_fileobj again false σb = (Ok h, σ2)
                    ∧ fst (stringio.read h (-1) σ2) = Ok (VBytes B))).
Proof.
  intros Hinit.
  assert (∀ B s, Utf8.decode B = Some s →
            ∀ σa m' back σb,
              data_source.__init__ cls_data_source (VBytes B) m' σa
              = (Ok back, σb)
              ∨ bytes_data_source.__init__ (VBytes B) m' σa = (Ok back, σb) →
              ∃ h σ2, data_source.text_fileobj back false σb = (Ok h, σ2)
                      ∧ fst (stringio.read h (-1) σ2) = Ok (VStr s))
    as Hback.
  { intros B s Hd σa m' back σb Hb.
    destruct (bytes_source_built _ _ _ _ _ Hb) as (o & Ho & Hw & Hdata).
    eapply source_reads_text; [exact Ho|exact Hw|]. by rewrite Hdata. }
  assert (∀ B s, Utf8.encode s = Some B →
            ∀ σa m' again σb,
              data_source.__init__ cls_data_source (VStr s) m' σa
              = (Ok again, σb)
              ∨ text_data_source.__init__ (VStr s) m' σa = (Ok again, σb) →
              ∃ h σ2, data_source.bytes_fileobj again false σb = (Ok h, σ2)
                      ∧ fst (stringio.read h (-1) σ2) = Ok (VBytes B))
    as Hforth.
  { intros B s He σa m' again σb Ha.
    destruct (text_source_built _ _ _ _ _ Ha) as (o & Ho & Hw & Hdata).
    eapply source_reads_bytes; [exact Ho|exact Hw|]. by rewrite Hdata. }
  destruct (text_source_built _ _ _ _ _ Hinit) as (o & Ho & Hw & Hdata).
  split_and!.
  - eapply source_reads_text; [exact Ho|exact Hw|]. by rewrite Hdata.
  - intros b Hb. split_and!.
    + by eapply Hforth.
    + by apply Utf8Facts.decode_encode.
    + apply Hback. by apply Utf8Facts.decode_encode.
  - intros B s Hd. split_and!.
    + by apply Utf8Facts.encode_decode.
    + by apply Hback.
    + apply Hforth. by apply Utf8Facts.encode_decode.
Qed.

Lemma text_source_reads_as_text_and_bytes_witness :
  let T := text "foonani" ++ [0xf2%N] in
  let b := octets "foonani" ++ [Byte.xc3; Byte.xb2] in
  let r := text_data_source.__init__ (VStr T) false empty_world in
  let r' := bytes_data_source.__init__ (VBytes b) false (snd r) in
  (∃ h σ2, data_source.text_fileobj 0%nat false (snd r) = (Ok h, σ2)
           ∧ fst (stringio.read h (-1) σ2) = Ok (VStr T))
  ∧ (∃ h σ2, data_source.bytes_fileobj 0%nat false (snd r) = (Ok h, σ2)
             ∧ fst (stringio.read h (-1) σ2) = Ok (VBytes b))
  ∧ (∃ h σ2, data_source.text_fileobj 1%nat false (snd r') = (Ok h, σ2)
             ∧ fst (stringio.read h (-1) σ2) = Ok (VStr T)).
Proof.
  intros T b r r'.
  destruct (text_source_reads_as_text_and_bytes empty_world T false 0%nat
              (snd r) (or_intror eq_refl)) as (Htext & Hbytes & _).
  destruct (Hbytes b eq_refl) as (Hb & _ & Hback).
  split; [exact Htext|]. split; [exact Hb|].
  apply (Hback (snd r) false 1%nat (snd r')). right. reflexivity.
Defined.

(** ** The commit callback *)

(** C3, as stated, fails: when the conversion at commit raises, the handle
    keeps its callback, and a second close calls it a second time. *)
Lemma failing_commit_calls_back_twice :
  let σ := snd (close_twice_undecodable empty_world) in
  calls (trace σ)
  = [(bound_reset_data 0%nat, VBytes [Byte.xff]);
     (bound_reset_data 0%nat, VBytes [Byte.xff])]
  ∧ ¬ (length (calls (trace σ)) ≤ 1)%nat
  ∧ sources σ !! 0%nat = Some (Source cls_data_source (VStr (text "a")) true).
Proof. vm_compute. split; [done|]. split; [lia|done]. Qed.

(** C3, amended: closing an open writable handle reads the whole buffer
    back from position 0 and calls the source's commit callback on it.
    The callback brings the content to the representation the source
    holds (text stays text, bytes stay bytes) and replaces the stored
    content; the handle then drops the callback and is closed, and a
    further close neither calls back nor changes any source.  When the
    conversion raises, the close raises the same, the sources are as they
    were, and the handle stays open with its callback. *)
Theorem close_commits_then_disarms σ h o self src :
  handles σ !! h = Some o → closed o = false →
  _callback o = Some (bound_reset_data self) →
  sources σ !! self = Some src →
  (∀ t, isinstance_str (data src) = true → text_view (buffer o) = Some t →
        stored_form (data src) (buffer o) = inr (VStr t))
  ∧ (∀ b, isinstance_bytes (data src) = true →
          bytes_view (buffer o) = Some b →
          stored_form (data src) (buffer o) = inr (VBytes b))
  ∧ (∀ d', stored_form (data src) (buffer o) = inr d' →
       (isinstance_str (data src) = true → isinstance_str d' = true)
       ∧ (isinstance_bytes (data src) = true → isinstance_bytes d' = true))
  ∧ (∀ d', stored_form (data src) (buffer o) = inr d' →
       ∃ σ', kls.close h σ = (Ok tt, σ')
         ∧ sources σ'
           = <[self := Source (src_class src) d' (mutable src)]> (sources σ)
         ∧ handles σ' !! h
           = Some (StringIO (h_class o) (buffer o) (py_len (buffer o)) true None)
         ∧ trace σ'
           = trace σ ++ [EvRead h (-1) (buffer o);
                         EvCall (bound_reset_data self) (buffer o)]
         ∧ ∃ r σ'', kls.close h σ' = (r, σ'')
                    ∧ sources σ'' = sources σ' ∧ trace σ'' = trace σ')
  ∧ (∀ e, stored_form (data src) (buffer o) = inl e →
       ∃ σ', kls.close h σ = (Raise e, σ')
         ∧ sources σ' = sources σ
         ∧ handles σ' !! h
           = Some (StringIO (h_class o) (buffer o) (py_len (buffer o)) false
                     (Some (bound_reset_data self)))).
Proof.
  intros Hh Hc Hcb Hs. split_and!.
  - intros t Hk Hv. unfold stored_form.
    destruct (data src), (buffer o); simpl in *; try discriminate.
    + by injection Hv as ->.
    + by rewrite Hv.
  - intros b Hk Hv. unfold stored_form.
    destruct (data src), (buffer o); simpl in *; try discriminate.
    + by rewrite Hv.
    + by injection Hv as ->.
  - intros d' Hd. unfold stored_form, str_encode, bytes_decode in Hd.
    destruct (data src), (buffer o); simpl in *;
      repeat case_match; simplify_eq; done.
  - intros d' Hd. eexists. split; [by eapply kls_close_eq|].
    wsimpl. split_and!; [done|apply lookup_insert_eq|done|].
    edestruct (kls_close_no_callback) as (r & hs & ->);
      [wsimpl; apply lookup_insert_eq|done|].
    by eexists _, _.
  - intros e Hd. eexists. split; [by eapply kls_close_raise|].
    wsimpl. split_and!; [done|]. rewrite Hcb. apply lookup_insert_eq.
Qed.

Lemma close_commits_then_disarms_witness :
  let σ := snd ((let* obj := data_source.__init__ cls_data_source
                               (VStr (text "foonani")) true in
                 let* f := data_source.bytes_fileobj obj true in
                 stringio.write f (VBytes (octets "dar")))
                  empty_world) in
  ∃ σ', kls.close 0%nat σ = (Ok tt, σ')
        ∧ sources σ' !! 0%nat
          = Some (Source cls_data_source (VStr (text "darnani")) true).
Proof.
  intros σ.
  destruct (close_commits_then_disarms σ 0%nat
              (StringIO bytes_wr_StringIO
                 (VBytes (octets "darnani")) 3 false
                 (Some (bound_reset_data 0%nat)))
              0%nat (Source cls_data_source (VStr (text "foonani")) true))
    as (_ & _ & _ & Hok & _); try reflexivity.
  destruct (Hok (VStr (text "darnani")) eq_refl) as (σ' & Hclose & Hsrc & _).
  exists σ'. split; [exact Hclose|].
  rewrite Hsrc. apply lookup_insert_eq.
Defined.

(** ** What can change a source *)

Lemma keeps_ret {A} (a : A) : keeps_sources (ret a).
Proof. by intros σ. Qed.

Lemma keeps_raise {A} e : keeps_sources (@raise A e).
Proof. by intros σ. Qed.

Lemma keeps_lift {A} (r : exc + A) : keeps_sources (lift r).
Proof. by destruct r. Qed.

Lemma keeps_bind {A B} (m : M A) (k : A → M B) :
  keeps_sources m → (∀ a, keeps_sources (k a)) → keeps_sources (bind m k).
Proof.
  intros Hm Hk σ. unfold bind. specialize (Hm σ).
  destruct (m σ) as [[a|e] σ']; simpl in *; [|done].
  by rewrite Hk.
Qed.

Lemma keeps_get_source self : keeps_sources (get_source self).
Proof. intros σ. unfold get_source. by destruct (sources σ !! self). Qed.

Lemma keeps_get_handle self : keeps_sources (get_handle self).
Proof. intros σ. unfold get_handle. by destruct (handles σ !! self). Qed.

Lemma keeps_put_handle self o : keeps_sources (put_handle self o).
Proof. by intros σ. Qed.

Lemma keeps_new_handle o : keeps_sources (new_handle o).
Proof. by intros σ. Qed.

Lemma keeps_log e : keeps_sources (modify (log e)).
Proof. by intros σ. Qed.

Ltac keeps :=
  repeat first
    [ apply keeps_ret | apply keeps_raise | apply keeps_lift
    | apply keeps_get_source | apply keeps_get_handle
    | apply keeps_put_handle | apply keeps_new_handle | apply keeps_log
    | apply keeps_bind; [|intros ?]
    | match goal with
      | |- keeps_sources (if ?b then _ else _) => destruct b
      | |- keeps_sources (match ?x with _ => _ end) => destruct x
      end ].

Lemma keeps_read self size : keeps_sources (stringio.read self size).
Proof. unfold stringio.read. keeps. Qed.

Lemma keeps_write self v : keeps_sources (stringio.write self v).
Proof. unfold stringio.write. keeps. Qed.

Lemma keeps_seek self offset : keeps_sources (stringio.seek self offset).
Proof. unfold stringio.seek. keeps. Qed.

Lemma keeps_flush self : keeps_sources (stringio.flush self).
Proof. unfold stringio.flush. keeps. Qed.

Lemma keeps_stringio_close self : keeps_sources (stringio.close self).
Proof. unfold stringio.close. keeps. Qed.

Lemma keeps_stringio_init k v : keeps_sources (stringio.__init__ k v).
Proof. unfold stringio.__init__. keeps. Qed.

Lemma keeps_kls_init name cb d : keeps_sources (kls.__init__ name cb d).
Proof.
  unfold kls.__init__, set_callback. keeps.
Qed.

Lemma keeps_convert_data self mode : keeps_sources (_convert_data self mode).
Proof. unfold _convert_data. keeps. Qed.

Lemma keeps_text_fileobj self w : keeps_sources (data_source.text_fileobj self w).
Proof.
  unfold data_source.text_fileobj.
  destruct w; keeps;
    auto using keeps_convert_data, keeps_kls_init, keeps_stringio_init.
Qed.

Lemma keeps_bytes_fileobj self w : keeps_sources (data_source.bytes_fileobj self w).
Proof.
  unfold data_source.bytes_fileobj.
  destruct w; keeps;
    auto using keeps_convert_data, keeps_kls_init, keeps_stringio_init.
Qed.

Lemma keeps_run_op c : is_close c = false → keeps_sources (run_op c).
Proof.
  destruct c; simpl; intros Hc; try discriminate; keeps;
    auto using keeps_text_fileobj, keeps_bytes_fileobj, keeps_read,
      keeps_write, keeps_seek, keeps_flush.
Qed.

Lemma keeps_kls_close_disarmed σ h o :
  handles σ !! h = Some o → _callback o = None →
  sources (snd (kls.close h σ)) = sources σ.
Proof.
  intros Hh Hcb.
  by destruct (kls_close_no_callback _ _ _ Hh Hcb) as (r & hs & ->).
Qed.

(** C7: no operation on sources and handles other than closing a writable
    handle that still has its callback changes what any source stores:
    not obtaining a handle of either kind, read-only or writable, with
    whatever conversion that takes, not reading, writing, seeking or
    flushing, not closing a read-only handle.  Hence a client that never
    closes leaves every source as it found it, whatever it wrote. *)
Theorem sources_change_only_at_writable_close :
  (∀ c σ, is_close c = false → sources (snd (run_op c σ)) = sources σ)
  ∧ (∀ h o σ, handles σ !! h = Some o →
       is_readonly (h_class o) = true ∨ _callback o = None →
       sources (snd (run_op (op_close h) σ)) = sources σ)
  ∧ (∀ cs σ, forallb (λ c, negb (is_close c)) cs = true →
       sources (run_ops cs σ) = sources σ).
Proof.
  split_and!.
  - intros c σ Hc. by apply keeps_run_op.
  - intros h o σ Hh Hcase. simpl. unfold close_method.
    rewrite (bind_eq _ _ _ _ _ (get_handle_eq _ _ _ Hh)).
    destruct (is_readonly (h_class o)) eqn:Hro.
    + apply keeps_stringio_close.
    + destruct Hcase as [?|Hcb]; [done|].
      by eapply keeps_kls_close_disarmed.
  - intros cs. induction cs as [|c cs IH]; intros σ Hcs; [done|].
    simpl in Hcs. apply andb_prop in Hcs as [Hc Hcs].
    simpl. rewrite IH by done.
    apply keeps_run_op. by destruct (is_close c).
Qed.

Lemma sources_change_only_at_writable_close_witness :
  let σ := snd (data_source.__init__ cls_data_source (VStr (text "foonani"))
                  true empty_world) in
  sources (run_ops [op_text_fileobj 0%nat true;
                    op_write 0%nat (VStr (text "dar"));
                    op_bytes_fileobj 0%nat false;
                    op_read 1%nat (-1)] σ)
  = sources σ.
Proof.
  intros σ.
  apply (proj2 (proj2 sources_change_only_at_writable_close)).
  reflexivity.
Defined.

(** ** Typed constructors *)

(** C8: [text_data_source] refuses, with [TypeError] and before anything
    is stored, any content that is not a [str], and [bytes_data_source]
    any content that is not [bytes]; content of the right type is stored
    as given, in a new object of that class. *)
Theorem typed_sources_check_content d m σ :
  (isinstance_str d = false →
   text_data_source.__init__ d m σ = (Raise TypeError, σ))
  ∧ (isinstance_bytes d = false →
     bytes_data_source.__init__ d m σ = (Raise TypeError, σ))
  ∧ (isinstance_str d = true →
     ∃ self σ', text_data_source.__init__ d m σ = (Ok self, σ')
       ∧ sources σ !! self = None
       ∧ sources σ' = <[self := Source cls_text_data_source d m]> (sources σ))
  ∧ (isinstance_bytes d = true →
     ∃ self σ', bytes_data_source.__init__ d m σ = (Ok self, σ')
       ∧ sources σ !! self = None
       ∧ sources σ' = <[self := Source cls_bytes_data_source d m]> (sources σ)).
Proof.
  unfold text_data_source.__init__, bytes_data_source.__init__. simpl.
  split_and!; intros ->; simpl; try done;
    eexists _, _; (split; [apply init_eq|]);
    (split; [apply fresh_source|done]).
Qed.

Lemma typed_sources_check_content_witness :
  text_data_source.__init__ (VBytes (octets "foo")) true empty_world
  = (Raise TypeError, empty_world)
  ∧ bytes_data_source.__init__ (VStr (text "foo")) true empty_world
    = (Raise TypeError, empty_world)
  ∧ ∃ self σ', text_data_source.__init__ (VStr (text "foo")) true empty_world
               = (Ok self, σ')
      ∧ sources σ' !! self
        = Some (Source cls_text_data_source (VStr (text "foo")) true).
Proof.
  split_and!.
  - apply (typed_sources_check_content (VBytes (octets "foo")) true
             empty_world).
    reflexivity.
  - apply (typed_sources_check_content (VStr (text "foo")) true empty_world).
    reflexivity.
  - destruct (typed_sources_check_content (VStr (text "foo")) true empty_world)
      as (_ & _ & H & _).
    destruct (H eq_refl) as (self & σ' & Hinit & _ & Hsrc).
    exists self, σ'. split; [exact Hinit|].
    rewrite Hsrc. apply lookup_insert_eq.
Defined.

(** ** Opening files *)

Lemma open_file_existing path mode buffering enc σ :
  open_kind_of mode = Some OpenExisting →
  open_file path mode buffering enc σ
  = match files σ !! path with
    | Some _ =>
        (Ok (fresh (dom (fds σ))),
         World (sources σ) (handles σ)
           (<[fresh (dom (fds σ)) :=
                File path mode buffering enc (Some [EnvironmentError])]> (fds σ))
           (files σ) (trace σ ++ [EvOpen path mode]))
    | None => (Raise EnvironmentError, log (EvOpen path mode) σ)
    end.
Proof.
  intros Hk. unfold open_file, io_open, bind, modify, set_exceptions.
  wsimpl. rewrite Hk.
  destruct (files σ !! path); [|done].
  unfold new_fd, with_fds. wsimpl.
  rewrite lookup_insert_eq. simpl. by rewrite insert_insert_eq.
Qed.

Lemma local_text_fileobj_eq ls w σ :
  (w && negb (local_source.mutable ls)) = false →
  local_source.text_fileobj ls w σ
  = open_file (local_source.path ls) (if w then "r+" else "r")
      local_source.buffering_window
      (if local_source.has_encoding ls then local_source.encoding ls else None)
      σ.
Proof.
  intros Hw. unfold local_source.text_fileobj. rewrite Hw. simpl.
  by destruct (local_source.has_encoding ls), w.
Qed.

Lemma local_bytes_fileobj_eq ls w σ :
  (w && negb (local_source.mutable ls)) = false →
  local_source.bytes_fileobj ls w σ
  = open_file (local_source.path ls) (if w then "rb+" else "rb")
      local_source.buffering_window None σ.
Proof.
  intros Hw. unfold local_source.bytes_fileobj.
  destruct w; [|done]. simpl in Hw.
  by destruct (local_source.mutable ls).
Qed.

(** How the modelled [io.open] treats the other modes: "w" empties an
    existing file and creates a missing one. *)
Example open_w_truncates :
  let σ := with_files <["f" := [Byte.x61]]> empty_world in
  files (snd (io_open "f" "w" 0 None σ)) !! "f" = Some []
  ∧ files (snd (io_open "g" "w" 0 None σ)) !! "g" = Some []
  ∧ files (snd (io_open "f" "r+" 0 None σ)) !! "f" = Some [Byte.x61]
  ∧ files (snd (io_open "g" "r+" 0 None σ)) !! "g" = None.
Proof. done. Qed.



(** ** Declared exceptions *)

Lemma kls_init_raise name f d e σ :
  stringio.initial name d = inl e →
  kls.__init__ name (Callable f) d σ = (Raise e, σ).
Proof.
  intros Hi. unfold kls.__init__.
  by rewrite (bind_raise _ _ _ _ _ (stringio_init_raise _ _ _ _ Hi)).
Qed.

Lemma get_source_none σ self :
  sources σ !! self = None → get_source self σ = (Raise ValueError, σ).
Proof. intros H. unfold get_source. by rewrite H. Qed.

Lemma text_fileobj_inv self w σ h σ' :
  data_source.text_fileobj self w σ = (Ok h, σ') →
  ∃ buf, handles σ' !! h
         = Some (StringIO (if w then text_wr_StringIO else text_ro_StringIO)
                   buf 0 false
                   (if w then Some (bound_reset_data self) else None)).
Proof.
  unfold data_source.text_fileobj, _convert_data. intros H.
  destruct (sources σ !! self) as [o|] eqn:Hs; last first.
  { pose proof (get_source_none _ _ Hs) as Hn. destruct w.
    - by rewrite (bind_raise _ _ _ _ _ Hn) in H.
    - by rewrite (bind_raise _ _ _ _ _ (bind_raise _ _ _ _ _ Hn)) in H. }
  destruct (convert_data_of o "text") as [e|d] eqn:Hd.
  { destruct w.
    - rewrite (bind_eq _ _ _ _ _ (get_source_eq _ _ _ Hs)) in H.
      destruct (mutable o); cbn [negb] in H; [|discriminate].
      erewrite bind_raise in H; [discriminate|].
      rewrite (bind_eq _ _ _ _ _ (get_source_eq _ _ _ Hs)). by rewrite Hd.
    - erewrite bind_raise in H; [discriminate|].
      rewrite (bind_eq _ _ _ _ _ (get_source_eq _ _ _ Hs)). by rewrite Hd. }
  assert (bind (get_source self) (λ o, lift (convert_data_of o "text")) σ
          = (Ok d, σ)) as Hconv.
  { rewrite (bind_eq _ _ _ _ _ (get_source_eq _ _ _ Hs)). by rewrite Hd. }
  destruct w.
  - rewrite (bind_eq _ _ _ _ _ (get_source_eq _ _ _ Hs)) in H.
    destruct (mutable o); cbn [negb] in H; [|discriminate].
    rewrite (bind_eq _ _ _ _ _ Hconv) in H. cbv beta in H.
    destruct (stringio.initial text_wr_StringIO d) as [e|buf] eqn:Hi.
    + by rewrite (kls_init_raise _ _ _ _ _ Hi) in H.
    + rewrite (kls_init_eq _ _ _ _ _ Hi) in H. injection H as <- <-.
      exists buf. wsimpl. apply lookup_insert_eq.
  - rewrite (bind_eq _ _ _ _ _ Hconv) in H. cbv beta in H.
    destruct (stringio.initial text_ro_StringIO d) as [e|buf] eqn:Hi.
    + by rewrite (stringio_init_raise _ _ _ _ Hi) in H.
    + rewrite (stringio_init_eq _ _ _ _ Hi) in H. injection H as <- <-.
      exists buf. wsimpl. apply lookup_insert_eq.
Qed.

Lemma bytes_fileobj_inv self w σ h σ' :
  data_source.bytes_fileobj self w σ = (Ok h, σ') →
  ∃ buf, handles σ' !! h
         = Some (StringIO (if w then bytes_wr_StringIO else bytes_ro_StringIO)
                   buf 0 false
                   (if w then Some (bound_reset_data self) else None)).
Proof.
  unfold data_source.bytes_fileobj, _convert_data. intros H.
  destruct (sources σ !! self) as [o|] eqn:Hs; last first.
  { pose proof (get_source_none _ _ Hs) as Hn. destruct w.
    - by rewrite (bind_raise _ _ _ _ _ Hn) in H.
    - by rewrite (bind_raise _ _ _ _ _ (bind_raise _ _ _ _ _ Hn)) in H. }
  destruct (convert_data_of o "bytes") as [e|d] eqn:Hd.
  { destruct w.
    - rewrite (bind_eq _ _ _ _ _ (get_source_eq _ _ _ Hs)) in H.
      destruct (mutable o); cbn [negb] in H; [|discriminate].
      erewrite bind_raise in H; [discriminate|].
      rewrite (bind_eq _ _ _ _ _ (get_source_eq _ _ _ Hs)). by rewrite Hd.
    - erewrite bind_raise in H; [discriminate|].
      rewrite (bind_eq _ _ _ _ _ (get_source_eq _ _ _ Hs)). by rewrite Hd. }
  assert (bind (get_source self) (λ o, lift (convert_data_of o "bytes")) σ
          = (Ok d, σ)) as Hconv.
  { rewrite (bind_eq _ _ _ _ _ (get_source_eq _ _ _ Hs)). by rewrite Hd. }
  destruct w.
  - rewrite (bind_eq _ _ _ _ _ (get_source_eq _ _ _ Hs)) in H.
    destruct (mutable o); cbn [negb] in H; [|discriminate].
    rewrite (bind_eq _ _ _ _ _ Hconv) in H. cbv beta in H.
    destruct (stringio.initial bytes_wr_StringIO d) as [e|buf] eqn:Hi.
    + by rewrite (kls_init_raise _ _ _ _ _ Hi) in H.
    + rewrite (kls_init_eq _ _ _ _ _ Hi) in H. injection H as <- <-.
      exists buf. wsimpl. apply lookup_insert_eq.
  - rewrite (bind_eq _ _ _ _ _ Hconv) in H. cbv beta in H.
    destruct (stringio.initial bytes_ro_StringIO d) as [e|buf] eqn:Hi.
    + by rewrite (stringio_init_raise _ _ _ _ Hi) in H.
    + rewrite (stringio_init_eq _ _ _ _ Hi) in H. injection H as <- <-.
      exists buf. wsimpl. apply lookup_insert_eq.
Qed.

Lemma open_file_inv path mode buffering enc σ fd σ' :
  open_kind_of mode = Some OpenExisting →
  open_file path mode buffering enc σ = (Ok fd, σ') →
  ∃ f, fds σ' !! fd = Some f ∧ f_exceptions f = Some [EnvironmentError].
Proof.
  intros Hk H. rewrite (open_file_existing _ _ _ _ _ Hk) in H.
  destruct (files σ !! path); [|discriminate].
  injection H as <- <-. eexists. wsimpl. split; [apply lookup_insert_eq|done].
Qed.


(** X24: the handle a source returns belongs to a class fixed by the
    request alone, and each class declares its exceptions: [MemoryError]
    for the writable in-memory classes, [MemoryError] and [TypeError] for
    the read-only in-memory classes, [EnvironmentError] on every handle of
    a disk source.  Writing to a read-only in-memory handle raises
    [TypeError], one of the exceptions that handle declares.  An
    in-memory source whose content has the view asked for does return a
    handle, a writable one if it is mutable. *)
Theorem handles_declare_exceptions :
  (∀ self w σ h σ',
     data_source.text_fileobj self w σ = (Ok h, σ') →
     ∃ o, handles σ' !! h = Some o
          ∧ h_class o = (if w then text_wr_StringIO else text_ro_StringIO)
          ∧ class_exceptions (h_class o)
            = (if w then [MemoryError] else [MemoryError; TypeError]))
  ∧ (∀ self w σ h σ',
       data_source.bytes_fileobj self w σ = (Ok h, σ') →
       ∃ o, handles σ' !! h = Some o
            ∧ h_class o = (if w then bytes_wr_StringIO else bytes_ro_StringIO)
            ∧ class_exceptions (h_class o)
              = (if w then [MemoryError] else [MemoryError; TypeError]))
  ∧ (∀ ls w σ fd σ',
       local_source.text_fileobj ls w σ = (Ok fd, σ') →
       ∃ f, fds σ' !! fd = Some f
            ∧ f_exceptions f = Some [EnvironmentError])
  ∧ (∀ ls w σ fd σ',
       local_source.bytes_fileobj ls w σ = (Ok fd, σ') →
       ∃ f, fds σ' !! fd = Some f
            ∧ f_exceptions f = Some [EnvironmentError])
  ∧ (∀ h o v σ,
       handles σ !! h = Some o → is_readonly (h_class o) = true →
       stringio.write h v σ = (Raise TypeError, σ)
       ∧ TypeError ∈ class_exceptions (h_class o))
  ∧ (∀ self o w σ,
       sources σ !! self = Some o → well_typed o = true →
       (w = true → mutable o = true) →
       (is_Some (text_view (data o)) →
        ∃ h σ', data_source.text_fileobj self w σ = (Ok h, σ'))
       ∧ (is_Some (bytes_view (data o)) →
          ∃ h σ', data_source.bytes_fileobj self w σ = (Ok h, σ'))).
Proof.
  split_and!.
  - intros self w σ h σ' H.
    destruct (text_fileobj_inv _ _ _ _ _ H) as (buf & Hh).
    eexists. split; [exact Hh|]. by destruct w.
  - intros self w σ h σ' H.
    destruct (bytes_fileobj_inv _ _ _ _ _ H) as (buf & Hh).
    eexists. split; [exact Hh|]. by destruct w.
  - intros ls w σ fd σ' H.
    destruct (w && negb (local_source.mutable ls)) eqn:Hw.
    { unfold local_source.text_fileobj in H. by rewrite Hw in H. }
    rewrite (local_text_fileobj_eq _ _ _ Hw) in H.
    eapply open_file_inv; [|exact H]. by destruct w.
  - intros ls w σ fd σ' H.
    destruct (w && negb (local_source.mutable ls)) eqn:Hw.
    { unfold local_source.bytes_fileobj in H.
      destruct w; [|done]. simpl in Hw.
      by destruct (local_source.mutable ls). }
    rewrite (local_bytes_fileobj_eq _ _ _ Hw) in H.
    eapply open_file_inv; [|exact H]. by destruct w.
  - intros h o v σ Hh Hro. split; [by eapply write_readonly|].
    destruct (h_class o); try discriminate; set_solver.
  - intros self o w σ Hs Hw Hm. split.
    + intros [s Hv]. destruct w.
      * eexists _, _. eapply open_text_wr; [exact Hs|by apply Hm|done..].
      * eexists _, _. by eapply open_text_ro.
    + intros [b Hv]. destruct w.
      * eexists _, _. eapply open_bytes_wr; [exact Hs|by apply Hm|done..].
      * eexists _, _. by eapply open_bytes_ro.
Qed.

Lemma handles_declare_exceptions_witness :
  let σ := snd (data_source.__init__ cls_data_source (VStr (text "foonani"))
                  true (with_files <["localsource.test" := octets "foonani"]>
                          empty_world)) in
  let ls := local_source.__init__ "localsource.test" true (Some "utf8") in
  let declared (r : outcome loc * world) :=
    ∃ o, handles r.2 !! 0%nat = Some o
         ∧ class_exceptions (h_class o)
           = (if is_readonly (h_class o) then [MemoryError; TypeError]
              else [MemoryError]) in
  let declared_on_disk (r : outcome loc * world) :=
    ∃ f, fds r.2 !! 0%nat = Some f
         ∧ f_exceptions f = Some [EnvironmentError] in
  (declared (data_source.text_fileobj 0%nat false σ)
   ∧ declared (data_source.text_fileobj 0%nat true σ)
   ∧ declared (data_source.bytes_fileobj 0%nat false σ)
   ∧ declared (data_source.bytes_fileobj 0%nat true σ))
  ∧ (declared_on_disk (local_source.text_fileobj ls false σ)
     ∧ declared_on_disk (local_source.text_fileobj ls true σ)
     ∧ declared_on_disk (local_source.bytes_fileobj ls false σ)
     ∧ declared_on_disk (local_source.bytes_fileobj ls true σ))
  ∧ (let σ' := snd (data_source.bytes_fileobj 0%nat false σ) in
     stringio.write 0%nat (VBytes (octets "monkey")) σ' = (Raise TypeError, σ')
     ∧ TypeError ∈ class_exceptions bytes_ro_StringIO).
Proof.
  intros σ ls declared declared_on_disk.
  destruct handles_declare_exceptions as (Ht & Hb & Hlt & Hlb & Hw & _).
  assert (∀ fileobj w,
            (fileobj = data_source.text_fileobj
             ∨ fileobj = data_source.bytes_fileobj) →
            fileobj 0%nat w σ = (Ok 0%nat, snd (fileobj 0%nat w σ)) →
            declared (fileobj 0%nat w σ)) as Hmem.
  { intros fileobj w [-> | ->] H;
      [destruct (Ht _ _ _ _ _ H) as (o & Ho & Hc & He)
      |destruct (Hb _ _ _ _ _ H) as (o & Ho & Hc & He)];
      exists o; (split; [exact Ho|]); rewrite He, Hc; by destruct w. }
  split; [|split].
  - split_and!; apply Hmem; first [by left|by right|reflexivity].
  - split_and!;
      [eapply (Hlt ls false σ 0%nat)|eapply (Hlt ls true σ 0%nat)
      |eapply (Hlb ls false σ 0%nat)|eapply (Hlb ls true σ 0%nat)];
      reflexivity.
  - intros σ'.
    apply (Hw 0%nat
             (StringIO bytes_ro_StringIO (VBytes (octets "foonani")) 0 false
                None)); reflexivity.
Defined.

(** ** The transfer loop *)

Lemma buf_write_cons {A} (nul : A) buf pos s :
  s ≠ [] →
  buf_write nul buf pos s
  = take pos buf ++ replicate (pos - length buf) nul ++ s
    ++ drop (pos + length s) buf.
Proof. by destruct s. Qed.

Lemma buf_write_app {A} (nul : A) wb q c1 c2 :
  buf_write nul (buf_write nul wb q c1) (q + length c1) c2
  = buf_write nul wb q (c1 ++ c2).
Proof.
  destruct (decide (c1 = [])) as [->|H1]; [by rewrite Nat.add_0_r|].
  destruct (decide (c2 = [])) as [->|H2]; [by rewrite app_nil_r|].
  assert (c1 ++ c2 ≠ []) as H12 by (by destruct c1).
  rewrite (buf_write_cons _ _ _ c2), (buf_write_cons _ _ _ c1),
    (buf_write_cons _ _ _ (c1 ++ c2)) by done.
  set (P := take q wb ++ replicate (q - length wb) nul).
  assert (length P = q) as HP.
  { unfold P. rewrite length_app, length_take, length_replicate. lia. }
  rewrite !(app_assoc (take q wb)). fold P.
  rewrite (app_assoc P c1).
  rewrite take_app_length' by (rewrite length_app; lia).
  replace (q + length c1
           - length ((P ++ c1) ++ drop (q + length c1) wb))%nat
    with 0%nat by (rewrite !length_app; lia).
  simpl replicate. rewrite app_nil_l.
  rewrite <- !app_assoc. do 3 f_equal.
  rewrite (app_assoc P), drop_app_add' by (rewrite length_app; lia).
  rewrite drop_drop, length_app. f_equal. lia.
Qed.

Lemma take_drop_length {A} (l : list A) n :
  take n l ++ drop (length (take n l)) l = l.
Proof.
  rewrite length_take. destruct (decide (n ≤ length l)%nat).
  - rewrite Nat.min_l by done. apply take_drop.
  - rewrite Nat.min_r by lia. by rewrite take_ge, drop_all, app_nil_r by lia.
Qed.

Lemma transfer_loop_done fuel r w n chunk σ :
  truthy chunk = false →
  transfer_loop fuel r w n chunk σ = Some (Ok tt, σ).
Proof. intros H. destruct fuel; simpl; by rewrite H. Qed.

Section transfer.
Context {A : Type} (nul : A) (inj : list A → pyval).
Hypothesis inj_read : ∀ b p n, py_read (inj b) p n = inj (buf_read b p n).
Hypothesis inj_write :
  ∀ b p s, py_write (inj b) p (inj s) = Some (inj (buf_write nul b p s)).
Hypothesis inj_len : ∀ s, py_len (inj s) = length s.
Hypothesis inj_truthy :
  ∀ s, truthy (inj s) = match s with [] => false | _ => true end.

Lemma transfer_loop_spec n r w :
  0 < n → r ≠ w →
  ∀ m c rest σ kr kw p q rb wb cbr cbw,
    (length (c ++ rest) ≤ m)%nat →
    handles σ !! r = Some (StringIO kr (inj rb) p false cbr) →
    drop p rb = rest →
    handles σ !! w = Some (StringIO kw (inj wb) q false cbw) →
    is_readonly kw = false →
    (c = [] → rest = []) →
    ∃ σ' cs,
      (∀ fuel, (length (c ++ rest) ≤ fuel)%nat →
         transfer_loop fuel r w n (inj c) σ = Some (Ok tt, σ'))
      ∧ handles σ' !! r
        = Some (StringIO kr (inj rb) (p + length rest) false cbr)
      ∧ handles σ' !! w
        = Some (StringIO kw (inj (buf_write nul wb q (c ++ rest)))
                  (q + length (c ++ rest)) false cbw)
      ∧ (∀ h, h ≠ r → h ≠ w → handles σ' !! h = handles σ !! h)
      ∧ sources σ' = sources σ ∧ fds σ' = fds σ ∧ files σ' = files σ
      ∧ trace σ'
        = trace σ ++ match c with
                     | [] => []
                     | _ => EvWrite w (inj c)
                            :: chunk_events r w n (map inj cs)
                            ++ [EvRead r n (inj [])]
                     end
      ∧ concat cs = rest
      ∧ Forall (λ x, x ≠ [] ∧ (length x ≤ Z.to_nat n)%nat) cs.
Proof.
  intros Hn Hrw m. induction m as [|m IH];
    intros c rest σ kr kw p q rb wb cbr cbw Hm Hr Hrest Hw Hro Hinv.
  { destruct c; [|simpl in Hm; lia]. rewrite (Hinv eq_refl) in *.
    exists σ, []. split_and!; try done.
    - intros fuel _. apply transfer_loop_done. by rewrite inj_truthy.
    - by rewrite Nat.add_0_r.
    - simpl. by rewrite Nat.add_0_r.
    - by rewrite app_nil_r. }
  destruct c as [|a c].
  { rewrite (Hinv eq_refl) in *.
    exists σ, []. split_and!; try done.
    - intros fuel _. apply transfer_loop_done. by rewrite inj_truthy.
    - by rewrite Nat.add_0_r.
    - simpl. by rewrite Nat.add_0_r.
    - by rewrite app_nil_r. }
  clear Hinv.
  set (c0 := a :: c) in *.
  set (c2 := take (Z.to_nat n) rest).
  set (σ1 := log (EvWrite w (inj c0))
               (with_handles
                  <[w := StringIO kw (inj (buf_write nul wb q c0))
                           (q + length c0) false cbw]> σ)).
  set (σ2 := log (EvRead r n (inj c2))
               (with_handles
                  <[r := StringIO kr (inj rb) (p + length c2) false cbr]> σ1)).
  assert (stringio.write w (inj c0) σ = (Ok (length c0), σ1)) as Hwrite.
  { erewrite write_eq; [|exact Hw|done|done|apply inj_write].
    cbn [h_class position _callback]. by rewrite inj_len. }
  assert (stringio.read r n σ1 = (Ok (inj c2), σ2)) as Hread.
  { erewrite read_eq;
      [|unfold σ1; wsimpl; rewrite lookup_insert_ne by done; exact Hr|done].
    cbn [h_class buffer position _callback]. rewrite inj_read, inj_len.
    unfold buf_read. destruct (Z.ltb_spec n 0); [lia|].
    by rewrite Hrest. }
  assert (c2 ++ drop (length c2) rest = rest) as Hsplit
    by apply take_drop_length.
  destruct (IH c2 (drop (length c2) rest) σ2 kr kw (p + length c2)%nat
              (q + length c0)%nat rb (buf_write nul wb q c0) cbr cbw)
    as (σ' & cs' & Hloop & Hr' & Hw' & Hother & Hsrc & Hfds & Hfiles
        & Htrace & Hconcat & Hall).
  { rewrite Hsplit. rewrite length_app in Hm. simpl in Hm. lia. }
  { unfold σ2. wsimpl. apply lookup_insert_eq. }
  { by rewrite <- Hrest, drop_drop. }
  { unfold σ2, σ1. wsimpl. rewrite lookup_insert_ne by done.
    apply lookup_insert_eq. }
  { done. }
  { intros Hc2. apply take_nil_inv in Hc2 as [?| ->]; [lia|].
    by rewrite drop_nil. }
  exists σ', (match c2 with [] => [] | _ => c2 :: cs' end).
  split_and!.
  - intros [|fuel] Hfuel; [simpl in Hfuel; lia|].
    simpl. rewrite inj_truthy. unfold c0 at 1.
    rewrite Hwrite, Hread. apply Hloop.
    rewrite Hsplit. rewrite length_app in Hfuel. simpl in Hfuel. lia.
  - rewrite Hr'. do 2 f_equal.
    rewrite <- Hsplit at 2. rewrite length_app. lia.
  - rewrite Hw', buf_write_app, Hsplit.
    do 2 f_equal. rewrite !length_app. lia.
  - intros h Hhr Hhw. rewrite Hother by done.
    unfold σ2, σ1. wsimpl. by rewrite !lookup_insert_ne.
  - by rewrite Hsrc.
  - by rewrite Hfds.
  - by rewrite Hfiles.
  - rewrite Htrace. unfold σ2, σ1. wsimpl. unfold c0 at 2.
    rewrite <- !app_assoc. f_equal. simpl. f_equal.
    by destruct c2.
  - destruct c2 eqn:E.
    + unfold c2 in E. apply take_nil_inv in E as [?| ->]; [lia|done].
    + cbn [concat]. rewrite Hconcat. exact Hsplit.
  - destruct c2 eqn:E; [done|]. constructor; [|done].
    split; [done|]. rewrite <- E. unfold c2. rewrite length_take. lia.
Qed.

Lemma transfer_data_generic bufsize n r w σ kr kw p q rb wb cbr cbw :
  default default_bufsize bufsize = n → 0 < n → r ≠ w →
  handles σ !! r = Some (StringIO kr (inj rb) p false cbr) →
  handles σ !! w = Some (StringIO kw (inj wb) q false cbw) →
  is_readonly kw = false →
  ∃ σ' cs,
    (∀ fuel, (length (drop p rb) ≤ fuel)%nat →
       transfer_data fuel r w bufsize σ = Some (Ok tt, σ'))
    ∧ handles σ' !! r
      = Some (StringIO kr (inj rb) (p + length (drop p rb)) false cbr)
    ∧ handles σ' !! w
      = Some (StringIO kw (inj (buf_write nul wb q (drop p rb)))
                (q + length (drop p rb)) false cbw)
    ∧ (∀ h, h ≠ r → h ≠ w → handles σ' !! h = handles σ !! h)
    ∧ sources σ' = sources σ ∧ fds σ' = fds σ ∧ files σ' = files σ
    ∧ trace σ'
      = trace σ ++ chunk_events r w n (map inj cs) ++ [EvRead r n (inj [])]
    ∧ concat cs = drop p rb
    ∧ Forall (λ x, x ≠ [] ∧ (length x ≤ Z.to_nat n)%nat) cs.
Proof.
  intros Hdef Hn Hrw Hr Hw Hro.
  set (rest := drop p rb).
  set (c0 := take (Z.to_nat n) rest).
  set (σ0 := log (EvRead r n (inj c0))
               (with_handles
                  <[r := StringIO kr (inj rb) (p + length c0) false cbr]> σ)).
  assert (stringio.read r n σ = (Ok (inj c0), σ0)) as Hread.
  { erewrite read_eq; [|exact Hr|done].
    cbn [h_class buffer position _callback]. rewrite inj_read, inj_len.
    unfold buf_read. by destruct (Z.ltb_spec n 0); [lia|]. }
  assert (c0 ++ drop (length c0) rest = rest) as Hsplit
    by apply take_drop_length.
  destruct (transfer_loop_spec n r w Hn Hrw (length rest) c0
              (drop (length c0) rest) σ0 kr kw (p + length c0)%nat q rb wb
              cbr cbw)
    as (σ' & cs' & Hloop & Hr' & Hw' & Hother & Hsrc & Hfds & Hfiles
        & Htrace & Hconcat & Hall).
  { by rewrite Hsplit. }
  { unfold σ0. wsimpl. apply lookup_insert_eq. }
  { unfold rest. by rewrite drop_drop. }
  { unfold σ0. wsimpl. by rewrite lookup_insert_ne. }
  { done. }
  { intros Hc0. apply take_nil_inv in Hc0 as [?| ->]; [lia|].
    by rewrite drop_nil. }
  rewrite Hsplit in *.
  exists σ', (match c0 with [] => [] | _ => c0 :: cs' end).
  split_and!.
  - intros fuel Hfuel. unfold transfer_data. rewrite Hdef, Hread.
    by apply Hloop.
  - rewrite Hr'. do 2 f_equal. rewrite <- Hsplit at 2.
    rewrite length_app. lia.
  - done.
  - intros h Hhr Hhw. rewrite Hother by done.
    unfold σ0. wsimpl. by rewrite lookup_insert_ne.
  - by rewrite Hsrc.
  - by rewrite Hfds.
  - by rewrite Hfiles.
  - rewrite Htrace. unfold σ0. wsimpl. rewrite <- !app_assoc. f_equal.
    by destruct c0.
  - destruct c0 eqn:E.
    + unfold c0 in E. apply take_nil_inv in E as [?|E]; [lia|].
      by rewrite E.
    + cbn [concat]. rewrite Hconcat. exact Hsplit.
  - destruct c0 eqn:E; [done|]. constructor; [|done].
    split; [done|]. rewrite <- E. unfold c0. rewrite length_take. lia.
Qed.

Hypothesis inj_app : ∀ a b, py_app (inj a) (inj b) = inj (a ++ b).

Lemma foldr_py_app_inj cs : foldr py_app (inj []) (map inj cs) = inj (concat cs).
Proof.
  induction cs as [|c cs IH]; [done|]. simpl. by rewrite IH, inj_app.
Qed.

Lemma exhausted_at_end σ r k rb p cb :
  handles σ !! r = Some (StringIO k (inj rb) p false cb) →
  (length rb ≤ p)%nat → exhausted r σ.
Proof.
  intros Hr Hp size. exists (inj []).
  erewrite read_eq; [|exact Hr|done].
  cbn [fst buffer position]. rewrite inj_read, inj_truthy. split; [|done].
  f_equal. unfold buf_read. rewrite drop_ge by done.
  by destruct (size <? 0); rewrite ?take_nil.
Qed.

Lemma transfer_data_py bufsize r w σ ro wo rb wb :
  0 < default default_bufsize bufsize → r ≠ w →
  handles σ !! r = Some ro → closed ro = false → buffer ro = inj rb →
  handles σ !! w = Some wo → closed wo = false → buffer wo = inj wb →
  is_readonly (h_class wo) = false →
  ∃ σ' cs e,
    (∀ fuel, (py_len (py_read (buffer ro) (position ro) (-1)) ≤ fuel)%nat →
       transfer_data fuel r w bufsize σ = Some (Ok tt, σ'))
    ∧ exhausted r σ'
    ∧ handles σ' !! r
      = Some (StringIO (h_class ro) (buffer ro)
                (position ro + py_len (py_read (buffer ro) (position ro) (-1)))
                false (_callback ro))
    ∧ (∀ newbuf,
         py_write (buffer wo) (position wo)
           (py_read (buffer ro) (position ro) (-1)) = Some newbuf →
         handles σ' !! w
         = Some (StringIO (h_class wo) newbuf
                   (position wo
                    + py_len (py_read (buffer ro) (position ro) (-1)))
                   false (_callback wo)))
    ∧ (∀ h, h ≠ r → h ≠ w → handles σ' !! h = handles σ !! h)
    ∧ sources σ' = sources σ ∧ files σ' = files σ
    ∧ trace σ'
      = trace σ ++ chunk_events r w (default default_bufsize bufsize) cs
        ++ [EvRead r (default default_bufsize bufsize) e]
    ∧ truthy e = false
    ∧ foldr py_app e cs = py_read (buffer ro) (position ro) (-1)
    ∧ Forall (λ c, truthy c = true
                   ∧ (py_len c ≤ Z.to_nat (default default_bufsize bufsize))%nat)
        cs.
Proof.
  intros Hn Hrw Hr Hcr Hbr Hw Hcw Hbw Hro.
  destruct ro as [kr bufr p cr cbr], wo as [kw bufw q cw cbw].
  simpl in *. subst.
  destruct (transfer_data_generic bufsize _ r w σ kr kw p q rb wb cbr cbw
              eq_refl Hn Hrw Hr Hw Hro)
    as (σ' & cs & Hrun & Hr' & Hw' & Hother & Hsrc & _ & Hfiles
        & Htrace & Hconcat & Hall).
  assert (py_read (inj rb) p (-1) = inj (drop p rb)) as Hdata
    by (by rewrite inj_read).
  rewrite Hdata, inj_len.
  exists σ', (map inj cs), (inj []). split_and!; try done.
  - eapply exhausted_at_end; [exact Hr'|]. rewrite length_drop. lia.
  - intros newbuf. rewrite inj_write. by intros [= <-].
  - by rewrite inj_truthy.
  - by rewrite foldr_py_app_inj, Hconcat.
  - apply Forall_map. eapply Forall_impl; [exact Hall|].
    intros c [Hc Hlen]. simpl. rewrite inj_truthy, inj_len.
    split; [by destruct c|done].
Qed.

End transfer.

(** C6: with a chunk size of 0 [transfer_data] does not transfer the
    remaining data: the first read returns nothing, the loop is not
    entered, nothing is written, and the reader still has its data. *)
Lemma transfer_zero_chunk_not_exhausted :
  ∃ σ', transfer_data 1 0%nat 1%nat (Some 0) abc_and_empty = Some (Ok tt, σ')
        ∧ ¬ exhausted 0%nat σ'
        ∧ handles σ' !! 1%nat = handles abc_and_empty !! 1%nat.
Proof.
  eexists. split; [reflexivity|]. split; [|reflexivity].
  intros H. destruct (H (-1)) as (e & He & Ht).
  vm_compute in He. injection He as <-. discriminate.
Qed.

(** X23: with a positive chunk size (the default, 65536, is one),
    a reader and a distinct writer, both open in-memory streams of one
    kind, the writer writable: [transfer_data] returns, having read
    chunks of at least one and at most [bufsize] units and written each
    as it was read, until a read returned nothing.  The chunks, in order,
    make up exactly what the reader had left; the reader is exhausted and
    otherwise unchanged; the writer holds what one write of all that data
    at its starting position would have left, and stands just after it.
    No other handle, no source and no file is touched. *)
Theorem transfer_data_moves_the_rest σ r w ro wo bufsize newbuf :
  0 < default default_bufsize bufsize → r ≠ w →
  handles σ !! r = Some ro → closed ro = false →
  handles σ !! w = Some wo → closed wo = false →
  is_readonly (h_class wo) = false →
  py_write (buffer wo) (position wo) (py_read (buffer ro) (position ro) (-1))
  = Some newbuf →
  default_bufsize = 65536
  ∧ ∃ σ' cs e,
      (∀ fuel, (py_len (py_read (buffer ro) (position ro) (-1)) ≤ fuel)%nat →
         transfer_data fuel r w bufsize σ = Some (Ok tt, σ'))
      ∧ exhausted r σ'
      ∧ handles σ' !! r
        = Some (StringIO (h_class ro) (buffer ro)
                  (position ro + py_len (py_read (buffer ro) (position ro) (-1)))
                  false (_callback ro))
      ∧ handles σ' !! w
        = Some (StringIO (h_class wo) newbuf
                  (position wo
                   + py_len (py_read (buffer ro) (position ro) (-1)))
                  false (_callback wo))
      ∧ (∀ h, h ≠ r → h ≠ w → handles σ' !! h = handles σ !! h)
      ∧ sources σ' = sources σ ∧ files σ' = files σ
      ∧ trace σ'
        = trace σ ++ chunk_events r w (default default_bufsize bufsize) cs
          ++ [EvRead r (default default_bufsize bufsize) e]
      ∧ truthy e = false
      ∧ foldr py_app e cs = py_read (buffer ro) (position ro) (-1)
      ∧ Forall (λ c, truthy c = true
                     ∧ (py_len c
                        ≤ Z.to_nat (default default_bufsize bufsize))%nat) cs.
Proof.
  intros Hn Hrw Hr Hcr Hw Hcw Hro Hnew. split; [done|].
  destruct (buffer ro) as [rb|rb|?|] eqn:Hbr,
           (buffer wo) as [wb|wb|?|] eqn:Hbw; try discriminate.
  - assert (∀ s, truthy (VStr s) = match s with [] => false | _ => true end)
      as Htr by (by intros []).
    destruct (transfer_data_py 0%N VStr (λ _ _ _, eq_refl) (λ _ _ _, eq_refl)
                (λ _, eq_refl) Htr (λ _ _, eq_refl) bufsize r w σ ro wo rb wb
                Hn Hrw Hr Hcr Hbr Hw Hcw Hbw Hro)
      as (σ' & cs & e & H).
    rewrite Hbr, Hbw in H. exists σ', cs, e.
    destruct H as (?&?&?&H&?&?&?&?&?&?&?). split_and!; try done.
    by apply H.
  - assert (∀ s, truthy (VBytes s) = match s with [] => false | _ => true end)
      as Htr by (by intros []).
    destruct (transfer_data_py Byte.x00 VBytes (λ _ _ _, eq_refl)
                (λ _ _ _, eq_refl) (λ _, eq_refl) Htr (λ _ _, eq_refl)
                bufsize r w σ ro wo rb wb
                Hn Hrw Hr Hcr Hbr Hw Hcw Hbw Hro)
      as (σ' & cs & e & H).
    rewrite Hbr, Hbw in H. exists σ', cs, e.
    destruct H as (?&?&?&H&?&?&?&?&?&?&?). split_and!; try done.
    by apply H.
Qed.

Lemma transfer_data_moves_the_rest_witness :
  ∃ σ', transfer_data 3 0%nat 1%nat (Some 2) abc_and_empty = Some (Ok tt, σ')
        ∧ exhausted 0%nat σ'
        ∧ handles σ' !! 1%nat
          = Some (StringIO text_wr_StringIO (VStr (text "abc")) 3 false None).
Proof.
  destruct (transfer_data_moves_the_rest abc_and_empty 0%nat 1%nat
              (StringIO text_ro_StringIO (VStr (text "abc")) 0 false None)
              (StringIO text_wr_StringIO (VStr []) 0 false None)
              (Some 2) (VStr (text "abc")))
    as (_ & σ' & cs & e & Hrun & Hex & _ & Hw & _);
    try reflexivity; [discriminate|].
  exists σ'. split; [apply Hrun; apply le_n|]. split; [exact Hex|exact Hw].
Defined.

(** * Further properties of the module *)

(** ** Disk sources *)

(** X1: a handle a disk source returns is a new file object for the
    source's path, opened with the mode the request fixes ("r" or "r+" for
    text, "rb" or "rb+" for bytes), with [buffering_window] = 32768 as
    buffering, carrying the forced encoding for text only when the source
    has a non-empty one and never for bytes; and a writable handle is
    only ever returned by a mutable source. *)
Theorem local_source_handle_fields ls w σ fd σ' :
  (local_source.text_fileobj ls w σ = (Ok fd, σ') →
   fds σ !! fd = None
   ∧ fds σ' !! fd
     = Some (File (local_source.path ls) (if w then "r+" else "r") 32768
               (match local_source.encoding ls with
                | Some "" => None
                | e => e
                end)
               (Some [EnvironmentError]))
   ∧ (w = true → local_source.mutable ls = true))
  ∧ (local_source.bytes_fileobj ls w σ = (Ok fd, σ') →
     fds σ !! fd = None
     ∧ fds σ' !! fd
       = Some (File (local_source.path ls) (if w then "rb+" else "rb") 32768
                 None (Some [EnvironmentError]))
     ∧ (w = true → local_source.mutable ls = true)).
Proof.
  destruct (w && negb (local_source.mutable ls)) eqn:Hw.
  { split; intros H.
    - unfold local_source.text_fileobj in H. by rewrite Hw in H.
    - unfold local_source.bytes_fileobj in H. destruct w; [|done].
      simpl in Hw. by destruct (local_source.mutable ls). }
  rewrite (local_text_fileobj_eq _ _ _ Hw), (local_bytes_fileobj_eq _ _ _ Hw).
  rewrite !open_file_existing by by destruct w.
  assert (w = true → local_source.mutable ls = true) as Hmut.
  { intros ->. by destruct (local_source.mutable ls). }
  destruct (files σ !! local_source.path ls); [|by split].
  split; intros [= <- <-]; wsimpl;
    (split; [apply fresh_fd|]); (split; [|done]);
    rewrite lookup_insert_eq; do 2 f_equal.
  unfold local_source.has_encoding.
  by destruct (local_source.encoding ls) as [[|]|].
Qed.

Lemma local_source_handle_fields_witness :
  let ls := local_source.__init__ "localsource.test" false (Some "utf8") in
  let σ := with_files <["localsource.test" := octets "foonani"]> empty_world in
  fds (snd (local_source.text_fileobj ls false σ)) !! 0%nat
  = Some (File "localsource.test" "r" 32768 (Some "utf8")
            (Some [EnvironmentError])).
Proof.
  intros ls σ.
  apply (proj1 (local_source_handle_fields ls false σ 0%nat
                  (snd (local_source.text_fileobj ls false σ)))).
  reflexivity.
Defined.


(** ** Sources that store bytes *)

Lemma open_text_raise σ self o e :
  sources σ !! self = Some o → convert_data_of o "text" = inl e →
  (mutable o = true → data_source.text_fileobj self true σ = (Raise e, σ))
  ∧ data_source.text_fileobj self false σ = (Raise e, σ).
Proof.
  intros H Hd. unfold data_source.text_fileobj. split.
  - intros Hm. rewrite (bind_eq _ _ _ _ _ (get_source_eq _ _ _ H)), Hm.
    simpl. by rewrite (bind_raise _ _ _ _ _ (convert_data_raise _ _ _ _ _ H Hd)).
  - by rewrite (bind_raise _ _ _ _ _ (convert_data_raise _ _ _ _ _ H Hd)).
Qed.

(** X3: a source constructed from the octets [B], by [data_source] or by
    [bytes_data_source], reads as [B] itself through a bytes handle,
    whether or not [B] decodes; through a text handle it reads as the
    decoding of [B] when there is one, and otherwise the request for a
    text handle raises [UnicodeDecodeError] and creates nothing. *)
Theorem bytes_source_reads_as_bytes_and_text σ B m self σ1 :
  data_source.__init__ cls_data_source (VBytes B) m σ = (Ok self, σ1)
  ∨ bytes_data_source.__init__ (VBytes B) m σ = (Ok self, σ1) →
  (∃ h σ2, data_source.bytes_fileobj self false σ1 = (Ok h, σ2)
           ∧ fst (stringio.read h (-1) σ2) = Ok (VBytes B))
  ∧ (∀ T, Utf8.decode B = Some T →
       ∃ h σ2, data_source.text_fileobj self false σ1 = (Ok h, σ2)
               ∧ fst (stringio.read h (-1) σ2) = Ok (VStr T))
  ∧ (Utf8.decode B = None →
     data_source.text_fileobj self false σ1 = (Raise UnicodeDecodeError, σ1)).
Proof.
  intros Hinit.
  assert (∃ c, c ≠ cls_text_data_source
               ∧ sources σ1 !! self = Some (Source c (VBytes B) m))
    as (c & Hc & Hs).
  { destruct Hinit as [H|H]; unfold bytes_data_source.__init__ in H;
      simpl in H; rewrite init_eq in H; injection H as <- <-;
      eexists; (split; [|wsimpl; apply lookup_insert_eq]); done. }
  assert (well_typed (Source c (VBytes B) m) = true) as Hw by by destruct c.
  split_and!.
  - eexists _, _. split; [by eapply open_bytes_ro|].
    erewrite read_eq; [|wsimpl; apply lookup_insert_eq|done].
    cbn [fst buffer position]. by rewrite py_read_start.
  - intros T HT. eexists _, _. split; [by eapply open_text_ro|].
    erewrite read_eq; [|wsimpl; apply lookup_insert_eq|done].
    cbn [fst buffer position]. by rewrite py_read_start.
  - intros HT. eapply open_text_raise; [exact Hs|].
    destruct c; try done; unfold convert_data_of, data_source_convert_data,
      bytes_data_source_convert_data; simpl; by rewrite HT.
Qed.

Lemma bytes_source_reads_as_bytes_and_text_witness :
  let r := bytes_data_source.__init__ (VBytes [Byte.xff]) false empty_world in
  (∃ h σ2, data_source.bytes_fileobj 0%nat false (snd r) = (Ok h, σ2)
           ∧ fst (stringio.read h (-1) σ2) = Ok (VBytes [Byte.xff]))
  ∧ data_source.text_fileobj 0%nat false (snd r)
    = (Raise UnicodeDecodeError, snd r).
Proof.
  intros r.
  destruct (bytes_source_reads_as_bytes_and_text empty_world [Byte.xff] false
              0%nat (snd r)) as (H1 & _ & H3).
  { right. reflexivity. }
  split; [exact H1|]. apply H3. reflexivity.
Defined.

Lemma stored_form_bytes held new :
  bytes_view held ≠ None →
  (isinstance_str held = true → Utf8.decode new ≠ None) →
  ∃ d', stored_form held (VBytes new) = inr d'
        ∧ bytes_view d' = Some new
        ∧ isinstance_str d' = isinstance_str held
        ∧ isinstance_bytes d' = isinstance_bytes held.
Proof.
  intros Hv Hdec. destruct held as [s|b|z|]; simpl in *; try done.
  - unfold stored_form. simpl.
    destruct (Utf8.decode new) as [s'|] eqn:E; [|by destruct Hdec].
    exists (VStr s'). split_and!; try done.
    simpl. by apply Utf8Facts.encode_decode.
  - by exists (VBytes new).
Qed.

Lemma write_close_read_bytes_eq σ src o b B :
  sources σ !! src = Some o → mutable o = true → well_typed o = true →
  bytes_view (data o) = Some b →
  (isinstance_str (data o) = true →
   Utf8.decode (buf_write Byte.x00 b 0 B) ≠ None) →
  fst (write_close_read_bytes src B σ)
  = Ok (VBytes (buf_write Byte.x00 b 0 B)).
Proof.
  intros Hs Hm Hw Hv Hdec. unfold write_close_read_bytes.
  destruct (stored_form_bytes (data o) (buf_write Byte.x00 b 0 B))
    as (d' & Hd' & Hv' & Hk1 & Hk2); [congruence|done|].
  rewrite (bind_eq _ _ _ _ _ (open_bytes_wr _ _ _ _ Hs Hm Hw Hv)).
  set (h := fresh (dom (handles σ))).
  erewrite bind_eq; last first.
  { eapply write_eq; wsimpl; [apply lookup_insert_eq|done..]. }
  cbn [h_class buffer position _callback py_len].
  erewrite bind_eq; last first.
  { eapply kls_close_eq; wsimpl;
      [apply lookup_insert_eq|done|done|exact Hs|exact Hd']. }
  erewrite bind_eq; last first.
  { eapply open_bytes_ro; wsimpl; [apply lookup_insert_eq| |exact Hv'].
    destruct o as [c d m]. by apply (well_typed_same_kind c d). }
  wsimpl. erewrite read_eq; [|wsimpl; apply lookup_insert_eq|done].
  cbn [fst buffer position]. by rewrite py_read_start.
Qed.

(** X4: for a mutable source that presents the octets [b], writing [B]
    through a writable bytes handle, closing it and reading through a
    fresh read-only bytes handle yields [B] followed by what [b] has
    beyond its first [length B] octets.  A source that stores text takes
    the commit only if the result decodes, and goes on storing text. *)
Theorem write_close_read_bytes_overwrites_prefix σ src o b B :
  sources σ !! src = Some o → mutable o = true → well_typed o = true →
  bytes_view (data o) = Some b →
  (isinstance_str (data o) = true →
   Utf8.decode (B ++ drop (length B) b) ≠ None) →
  fst (write_close_read_bytes src B σ) = Ok (VBytes (B ++ drop (length B) b))
  ∧ ∃ o', sources (snd (write_close_read_bytes src B σ)) !! src = Some o'
          ∧ bytes_view (data o') = Some (B ++ drop (length B) b)
          ∧ isinstance_str (data o') = isinstance_str (data o).
Proof.
  intros Hs Hm Hw Hv Hdec.
  rewrite <- (buf_write_start Byte.x00) in *.
  split; [by eapply write_close_read_bytes_eq|].
  unfold write_close_read_bytes.
  destruct (stored_form_bytes (data o) (buf_write Byte.x00 b 0 B))
    as (d' & Hd' & Hv' & Hk1 & Hk2); [congruence|done|].
  rewrite (bind_eq _ _ _ _ _ (open_bytes_wr _ _ _ _ Hs Hm Hw Hv)).
  erewrite bind_eq; last first.
  { eapply write_eq; wsimpl; [apply lookup_insert_eq|done..]. }
  cbn [h_class buffer position _callback py_len].
  erewrite bind_eq; last first.
  { eapply kls_close_eq; wsimpl;
      [apply lookup_insert_eq|done|done|exact Hs|exact Hd']. }
  erewrite bind_eq; last first.
  { eapply open_bytes_ro; wsimpl; [apply lookup_insert_eq| |exact Hv'].
    destruct o as [c d m]. by apply (well_typed_same_kind c d). }
  wsimpl. erewrite read_eq; [|wsimpl; apply lookup_insert_eq|done].
  wsimpl. eexists. split; [apply lookup_insert_eq|]. done.
Qed.

Lemma write_close_read_bytes_overwrites_prefix_witness :
  let σ := snd (data_source.__init__ cls_data_source (VStr (text "foonani"))
                  true empty_world) in
  fst (write_close_read_bytes 0%nat (octets "dar") σ)
  = Ok (VBytes (octets "dar" ++ drop 3 (octets "foonani")))
  ∧ ∃ o', sources (snd (write_close_read_bytes 0%nat (octets "dar") σ)) !! 0%nat
          = Some o'
          ∧ bytes_view (data o')
            = Some (octets "dar" ++ drop 3 (octets "foonani"))
          ∧ isinstance_str (data o') = true.
Proof.
  intros σ.
  apply (write_close_read_bytes_overwrites_prefix σ 0%nat
           (Source cls_data_source (VStr (text "foonani")) true)
           (octets "foonani") (octets "dar"));
    try reflexivity.
  discriminate.
Defined.

(** ** Several handles on one source *)

Lemma fresh_handle_ne σ h o :
  handles σ !! h = Some o → fresh (dom (handles σ)) ≠ h.
Proof. intros H E. rewrite <- E, fresh_handle in H. done. Qed.

Lemma stored_form_keeps_bytes held d d' :
  stored_form held d = inr d' →
  isinstance_bytes d' = isinstance_bytes held.
Proof.
  unfold stored_form, str_encode, bytes_decode.
  destruct held, d; simpl; repeat case_match; intros; simplify_eq; done.
Qed.

Lemma stored_form_by_kind held held' d :
  isinstance_bytes held' = isinstance_bytes held →
  stored_form held' d = stored_form held d.
Proof. unfold stored_form. by intros ->. Qed.

(** X5: a handle holds the content its source had when the handle was
    obtained.  A read-only text handle taken before another handle
    overwrites and commits still reads the old text [s] afterwards,
    although the source by then presents the new one. *)
Theorem open_handle_keeps_old_content σ src o s T :
  sources σ !! src = Some o → mutable o = true → well_typed o = true →
  text_view (data o) = Some s →
  (isinstance_bytes (data o) = true →
   Utf8.encode (T ++ drop (length T) s) ≠ None) →
  fst (read_across_commit src T σ) = Ok (VStr s)
  ∧ ∃ o', sources (snd (read_across_commit src T σ)) !! src = Some o'
          ∧ text_view (data o') = Some (T ++ drop (length T) s).
Proof.
  intros Hs Hm Hw Hv Henc. rewrite <- (buf_write_start 0%N) in *.
  destruct (stored_form_text (data o) (buf_write 0%N s 0 T))
    as (d' & Hd' & Hv' & Hk1 & Hk2); [congruence|done|].
  unfold read_across_commit.
  rewrite (bind_eq _ _ _ _ _ (open_text_ro _ _ _ _ Hs Hw Hv)).
  set (g := fresh (dom (handles σ))).
  set (σ1 := with_handles _ σ).
  assert (handles σ1 !! g
          = Some (StringIO text_ro_StringIO (VStr s) 0 false None)) as Hg
    by (unfold σ1; wsimpl; apply lookup_insert_eq).
  erewrite bind_eq; last by (eapply open_text_wr; [exact Hs|done..]).
  set (f := fresh (dom (handles σ1))).
  assert (f ≠ g) as Hfg by by eapply fresh_handle_ne.
  erewrite bind_eq; last first.
  { eapply write_eq; wsimpl; [apply lookup_insert_eq|done..]. }
  cbn [h_class buffer position _callback py_len].
  erewrite bind_eq; last first.
  { eapply kls_close_eq; wsimpl;
      [apply lookup_insert_eq|done|done|exact Hs|exact Hd']. }
  erewrite read_eq;
    [|wsimpl; rewrite !lookup_insert_ne by done; exact Hg|done].
  cbn [fst buffer position snd]. rewrite py_read_start. split; [done|].
  wsimpl. eexists. split; [apply lookup_insert_eq|done].
Qed.

Lemma open_handle_keeps_old_content_witness :
  let σ := snd (data_source.__init__ cls_data_source (VStr (text "foonani"))
                  true empty_world) in
  fst (read_across_commit 0%nat (text "dar") σ) = Ok (VStr (text "foonani"))
  ∧ ∃ o', sources (snd (read_across_commit 0%nat (text "dar") σ)) !! 0%nat
          = Some o'
          ∧ text_view (data o') = Some (text "darnani").
Proof.
  intros σ.
  apply (open_handle_keeps_old_content σ 0%nat
           (Source cls_data_source (VStr (text "foonani")) true)
           (text "foonani") (text "dar"));
    try reflexivity.
  discriminate.
Defined.

(** X6: when two writable handles of one source are closed one after the
    other, the source ends with the content of the handle closed last, in
    the representation the source stores: nothing of the first commit is
    merged into it, and the order of obtaining or writing does not
    matter. *)
Theorem last_close_wins σ h1 h2 o1 o2 self src d1 d2 :
  h1 ≠ h2 →
  handles σ !! h1 = Some o1 → closed o1 = false →
  _callback o1 = Some (bound_reset_data self) →
  handles σ !! h2 = Some o2 → closed o2 = false →
  _callback o2 = Some (bound_reset_data self) →
  sources σ !! self = Some src →
  stored_form (data src) (buffer o1) = inr d1 →
  stored_form (data src) (buffer o2) = inr d2 →
  (∃ σ', (kls.close h1 >> kls.close h2) σ = (Ok tt, σ')
         ∧ sources σ' !! self = Some (Source (src_class src) d2 (mutable src)))
  ∧ (∃ σ', (kls.close h2 >> kls.close h1) σ = (Ok tt, σ')
           ∧ sources σ' !! self = Some (Source (src_class src) d1 (mutable src))).
Proof.
  intros Hne H1 Hc1 Hcb1 H2 Hc2 Hcb2 Hs Hd1 Hd2.
  split.
  - erewrite bind_eq; last by eapply kls_close_eq.
    eexists. split.
    + eapply kls_close_eq; wsimpl;
        [by rewrite lookup_insert_ne|done|done|apply lookup_insert_eq|].
      cbn [data]. rewrite <- Hd2. apply stored_form_by_kind.
      by eapply stored_form_keeps_bytes.
    + wsimpl. by rewrite insert_insert_eq, lookup_insert_eq.
  - erewrite bind_eq; last by eapply kls_close_eq.
    eexists. split.
    + eapply kls_close_eq; wsimpl;
        [by rewrite lookup_insert_ne|done|done|apply lookup_insert_eq|].
      cbn [data]. rewrite <- Hd1. apply stored_form_by_kind.
      by eapply stored_form_keeps_bytes.
    + wsimpl. by rewrite insert_insert_eq, lookup_insert_eq.
Qed.

Lemma last_close_wins_witness :
  let σ := snd ((let* obj := data_source.__init__ cls_data_source
                               (VStr (text "foonani")) true in
                 let* f := data_source.text_fileobj obj true in
                 let* g := data_source.bytes_fileobj obj true in
                 stringio.write f (VStr (text "dar")) >>
                 stringio.write g (VBytes (octets "x"))) empty_world) in
  ∃ σ', (kls.close 1%nat >> kls.close 0%nat) σ = (Ok tt, σ')
        ∧ sources σ' !! 0%nat
          = Some (Source cls_data_source (VStr (text "darnani")) true).
Proof.
  intros σ.
  apply (proj2 (last_close_wins σ 0%nat 1%nat
                  (StringIO text_wr_StringIO (VStr (text "darnani")) 3 false
                     (Some (bound_reset_data 0%nat)))
                  (StringIO bytes_wr_StringIO (VBytes (octets "xoonani")) 1
                     false (Some (bound_reset_data 0%nat)))
                  0%nat (Source cls_data_source (VStr (text "foonani")) true)
                  (VStr (text "darnani")) (VStr (text "xoonani"))
                  ltac:(discriminate) eq_refl eq_refl eq_refl eq_refl eq_refl
                  eq_refl eq_refl eq_refl eq_refl)).
Defined.

(** ** Each primitive in full *)

Lemma get_handle_none σ self :
  handles σ !! self = None → get_handle self σ = (Raise ValueError, σ).
Proof. intros H. unfold get_handle. by rewrite H. Qed.

Lemma read_full σ self size :
  stringio.read self size σ
  = match handles σ !! self with
    | None => (Raise ValueError, σ)
    | Some o =>
        if closed o then (Raise ValueError, σ)
        else
          (Ok (py_read (buffer o) (position o) size),
           log (EvRead self size (py_read (buffer o) (position o) size))
             (with_handles
                <[self := StringIO (h_class o) (buffer o)
                            (position o
                             + py_len (py_read (buffer o) (position o) size))
                            false (_callback o)]> σ))
    end.
Proof.
  destruct (handles σ !! self) as [o|] eqn:H.
  - destruct (closed o) eqn:Hc; [|by apply read_eq].
    unfold stringio.read.
    by rewrite (bind_eq _ _ _ _ _ (get_handle_eq _ _ _ H)), Hc.
  - unfold stringio.read. by rewrite (bind_raise _ _ _ _ _ (get_handle_none _ _ H)).
Qed.

Lemma write_full σ self v :
  stringio.write self v σ
  = match handles σ !! self with
    | None => (Raise ValueError, σ)
    | Some o =>
        if is_readonly (h_class o) then (Raise TypeError, σ)
        else if closed o then (Raise ValueError, σ)
        else match py_write (buffer o) (position o) v with
             | None => (Raise TypeError, σ)
             | Some buf =>
                 (Ok (py_len v),
                  log (EvWrite self v)
                    (with_handles
                       <[self := StringIO (h_class o) buf
                                   (position o + py_len v) false
                                   (_callback o)]> σ))
             end
    end.
Proof.
  destruct (handles σ !! self) as [o|] eqn:H; last first.
  { unfold stringio.write.
    by rewrite (bind_raise _ _ _ _ _ (get_handle_none _ _ H)). }
  destruct (is_readonly (h_class o)) eqn:Hro; [by eapply write_readonly|].
  destruct (closed o) eqn:Hc.
  { unfold stringio.write.
    by rewrite (bind_eq _ _ _ _ _ (get_handle_eq _ _ _ H)), Hro, Hc. }
  destruct (py_write (buffer o) (position o) v) eqn:Hw; [by apply write_eq|].
  unfold stringio.write.
  by rewrite (bind_eq _ _ _ _ _ (get_handle_eq _ _ _ H)), Hro, Hc, Hw.
Qed.

Lemma seek_full σ self offset :
  stringio.seek self offset σ
  = match handles σ !! self with
    | None => (Raise ValueError, σ)
    | Some o =>
        if closed o then (Raise ValueError, σ)
        else if offset <? 0 then (Raise ValueError, σ)
        else (Ok offset,
              with_handles
                <[self := StringIO (h_class o) (buffer o) (Z.to_nat offset)
                            false (_callback o)]> σ)
    end.
Proof.
  destruct (handles σ !! self) as [o|] eqn:H; last first.
  { unfold stringio.seek.
    by rewrite (bind_raise _ _ _ _ _ (get_handle_none _ _ H)). }
  destruct (closed o) eqn:Hc.
  { unfold stringio.seek.
    by rewrite (bind_eq _ _ _ _ _ (get_handle_eq _ _ _ H)), Hc. }
  destruct (Z.ltb_spec offset 0); [|by apply seek_eq].
  unfold stringio.seek.
  rewrite (bind_eq _ _ _ _ _ (get_handle_eq _ _ _ H)), Hc.
  by destruct (Z.ltb_spec offset 0); [|lia].
Qed.

Lemma flush_full σ self :
  stringio.flush self σ
  = (match handles σ !! self with
     | None => Raise ValueError
     | Some o =>
         if closed o && negb (is_text (h_class o)) then Raise ValueError
         else Ok tt
     end, σ).
Proof.
  destruct (handles σ !! self) as [o|] eqn:H; [by apply flush_cases|].
  unfold stringio.flush.
  by rewrite (bind_raise _ _ _ _ _ (get_handle_none _ _ H)).
Qed.

Lemma close_full σ self :
  stringio.close self σ
  = match handles σ !! self with
    | None => (Raise ValueError, σ)
    | Some o =>
        (Ok tt,
         with_handles
           <[self := StringIO (h_class o) (buffer o) (position o) true
                       (_callback o)]> σ)
    end.
Proof.
  destruct (handles σ !! self) as [o|] eqn:H; [by apply close_eq|].
  unfold stringio.close.
  by rewrite (bind_raise _ _ _ _ _ (get_handle_none _ _ H)).
Qed.

Lemma kls_close_full σ h :
  kls.close h σ
  = match handles σ !! h with
    | None => (Raise ValueError, σ)
    | Some o =>
        if closed o && negb (is_text (h_class o)) then (Raise ValueError, σ)
        else
          match _callback o with
          | None =>
              (Ok tt,
               with_handles
                 <[h := StringIO (h_class o) (buffer o) (position o) true
                          None]> σ)
          | Some (bound_reset_data self) =>
              if closed o then (Raise ValueError, σ)
              else
                let read_back :=
                  World (sources σ)
                    (<[h := StringIO (h_class o) (buffer o)
                              (py_len (buffer o)) false (_callback o)]>
                       (handles σ))
                    (fds σ) (files σ)
                    (trace σ ++ [EvRead h (-1) (buffer o);
                                 EvCall (bound_reset_data self) (buffer o)]) in
                match sources σ !! self with
                | None => (Raise ValueError, read_back)
                | Some src =>
                    match stored_form (data src) (buffer o) with
                    | inl e => (Raise e, read_back)
                    | inr d' =>
                        (Ok tt,
                         World
                           (<[self := Source (src_class src) d' (mutable src)]>
                              (sources σ))
                           (<[h := StringIO (h_class o) (buffer o)
                                     (py_len (buffer o)) true None]>
                              (handles σ))
                           (fds σ) (files σ)
                           (trace σ ++ [EvRead h (-1) (buffer o);
                                        EvCall (bound_reset_data self)
                                          (buffer o)]))
                    end
                end
          end
    end.
Proof.
  destruct (handles σ !! h) as [o|] eqn:Hh; last first.
  { unfold kls.close. erewrite bind_raise; [done|].
    by rewrite flush_full, Hh. }
  destruct (closed o && negb (is_text (h_class o))) eqn:Hfl.
  { unfold kls.close. erewrite bind_raise; [done|].
    by rewrite flush_full, Hh, Hfl. }
  assert (stringio.flush h σ = (Ok tt, σ)) as Hflush
    by by rewrite flush_full, Hh, Hfl.
  destruct (_callback o) as [[self]|] eqn:Hcb; last first.
  { unfold kls.close.
    rewrite (bind_eq _ _ _ _ _ Hflush),
      (bind_eq _ _ _ _ _ (get_handle_eq _ _ _ Hh)), Hcb.
    unfold ret, bind at 1. rewrite (close_eq _ _ _ Hh). by rewrite Hcb. }
  destruct (closed o) eqn:Hc.
  { unfold kls.close.
    rewrite (bind_eq _ _ _ _ _ Hflush),
      (bind_eq _ _ _ _ _ (get_handle_eq _ _ _ Hh)), Hcb.
    erewrite bind_raise; [done|].
    erewrite bind_raise; [done|]. by rewrite seek_full, Hh, Hc. }
  cbv zeta.
  destruct (sources σ !! self) as [src|] eqn:Hs; last first.
  { unfold kls.close.
    rewrite (bind_eq _ _ _ _ _ Hflush),
      (bind_eq _ _ _ _ _ (get_handle_eq _ _ _ Hh)), Hcb.
    erewrite bind_raise; [done|].
    erewrite bind_eq; last by apply (seek_eq _ _ _ 0 Hh Hc).
    erewrite bind_eq; last first.
    { apply read_eq; wsimpl; [apply lookup_insert_eq|done]. }
    cbn [buffer position h_class _callback closed call].
    rewrite py_read_start.
    erewrite bind_raise; last first.
    { unfold call, modify. unfold bind at 1. unfold _reset_data.
      apply bind_raise. apply get_source_none. wsimpl. exact Hs. }
    unfold with_handles, log. wsimpl. simpl.
    by rewrite !insert_insert_eq, <- app_assoc, Hcb. }
  destruct (stored_form (data src) (buffer o)) as [e|d'] eqn:Hd.
  - rewrite <- Hcb. by eapply kls_close_raise.
  - by eapply kls_close_eq.
Qed.

Lemma kls_init_full name cb d σ :
  kls.__init__ name cb d σ
  = match cb with
    | NotCallable _ => (Raise TypeError, σ)
    | Callable f =>
        match stringio.initial name d with
        | inl e => (Raise e, σ)
        | inr buf =>
            (Ok (fresh (dom (handles σ))),
             with_handles
               <[fresh (dom (handles σ)) := StringIO name buf 0 false (Some f)]>
               σ)
        end
    end.
Proof.
  destruct cb as [f|v]; [|done].
  destruct (stringio.initial name d) eqn:Hi;
    [by apply kls_init_raise|by apply kls_init_eq].
Qed.

Lemma text_fileobj_full self w σ :
  data_source.text_fileobj self w σ
  = match sources σ !! self with
    | None => (Raise ValueError, σ)
    | Some o =>
        if w && negb (mutable o) then (Raise TypeError, σ)
        else
          match convert_data_of o "text" with
          | inl e => (Raise e, σ)
          | inr d =>
              let k := if w then text_wr_StringIO else text_ro_StringIO in
              match stringio.initial k d with
              | inl e => (Raise e, σ)
              | inr buf =>
                  (Ok (fresh (dom (handles σ))),
                   with_handles
                     <[fresh (dom (handles σ)) :=
                         StringIO k buf 0 false
                           (if w then Some (bound_reset_data self) else None)]>
                     σ)
              end
          end
    end.
Proof.
  unfold data_source.text_fileobj, _convert_data.
  destruct (sources σ !! self) as [o|] eqn:Hs; last first.
  { pose proof (get_source_none _ _ Hs) as Hn. destruct w.
    - by rewrite (bind_raise _ _ _ _ _ Hn).
    - by rewrite (bind_raise _ _ _ _ _ (bind_raise _ _ _ _ _ Hn)). }
  pose proof (get_source_eq _ _ _ Hs) as Hg.
  destruct w; cbn [andb negb].
  - rewrite (bind_eq _ _ _ _ _ Hg). destruct (mutable o); cbn [negb]; [|done].
    destruct (convert_data_of o "text") as [e|d] eqn:Hd.
    + erewrite bind_raise; [done|]. rewrite (bind_eq _ _ _ _ _ Hg).
      by rewrite Hd.
    + erewrite bind_eq; last by (rewrite (bind_eq _ _ _ _ _ Hg), Hd).
      by rewrite kls_init_full.
  - destruct (convert_data_of o "text") as [e|d] eqn:Hd.
    + erewrite bind_raise; [done|]. rewrite (bind_eq _ _ _ _ _ Hg).
      by rewrite Hd.
    + erewrite bind_eq; last by (rewrite (bind_eq _ _ _ _ _ Hg), Hd).
      destruct (stringio.initial text_ro_StringIO d) eqn:Hi;
        [by apply stringio_init_raise|by apply stringio_init_eq].
Qed.

Lemma bytes_fileobj_full self w σ :
  data_source.bytes_fileobj self w σ
  = match sources σ !! self with
    | None => (Raise ValueError, σ)
    | Some o =>
        if w && negb (mutable o) then (Raise TypeError, σ)
        else
          match convert_data_of o "bytes" with
          | inl e => (Raise e, σ)
          | inr d =>
              let k := if w then bytes_wr_StringIO else bytes_ro_StringIO in
              match stringio.initial k d with
              | inl e => (Raise e, σ)
              | inr buf =>
                  (Ok (fresh (dom (handles σ))),
                   with_handles
                     <[fresh (dom (handles σ)) :=
                         StringIO k buf 0 false
                           (if w then Some (bound_reset_data self) else None)]>
                     σ)
              end
          end
    end.
Proof.
  unfold data_source.bytes_fileobj, _convert_data.
  destruct (sources σ !! self) as [o|] eqn:Hs; last first.
  { pose proof (get_source_none _ _ Hs) as Hn. destruct w.
    - by rewrite (bind_raise _ _ _ _ _ Hn).
    - by rewrite (bind_raise _ _ _ _ _ (bind_raise _ _ _ _ _ Hn)). }
  pose proof (get_source_eq _ _ _ Hs) as Hg.
  destruct w; cbn [andb negb].
  - rewrite (bind_eq _ _ _ _ _ Hg). destruct (mutable o); cbn [negb]; [|done].
    destruct (convert_data_of o "bytes") as [e|d] eqn:Hd.
    + erewrite bind_raise; [done|]. rewrite (bind_eq _ _ _ _ _ Hg).
      by rewrite Hd.
    + erewrite bind_eq; last by (rewrite (bind_eq _ _ _ _ _ Hg), Hd).
      by rewrite kls_init_full.
  - destruct (convert_data_of o "bytes") as [e|d] eqn:Hd.
    + erewrite bind_raise; [done|]. rewrite (bind_eq _ _ _ _ _ Hg).
      by rewrite Hd.
    + erewrite bind_eq; last by (rewrite (bind_eq _ _ _ _ _ Hg), Hd).
      destruct (stringio.initial bytes_ro_StringIO d) eqn:Hi;
        [by apply stringio_init_raise|by apply stringio_init_eq].
Qed.

(** ** The footprint of an operation *)

Lemma footprint_refl σ : footprint σ σ.
Proof. unfold footprint. auto. Qed.

Lemma footprint_log σ σ' e : footprint σ σ' → footprint σ (log e σ').
Proof. done. Qed.

Lemma footprint_put σ h o o' :
  handles σ !! h = Some o → h_class o' = h_class o →
  _callback o' = _callback o ∨ _callback o' = None →
  footprint σ (with_handles <[h := o']> σ).
Proof.
  intros Hh Hk Hcb. unfold footprint. wsimpl. split_and!; try done; [|by left].
  right. exists h, o'. by rewrite Hh.
Qed.

Lemma footprint_new σ o' :
  (∀ l, _callback o' = Some (bound_reset_data l) →
        ∃ s, sources σ !! l = Some s ∧ mutable s = true) →
  footprint σ (with_handles <[fresh (dom (handles σ)) := o']> σ).
Proof.
  intros Hcb. unfold footprint. wsimpl. split_and!; try done; [|by left].
  right. exists (fresh (dom (handles σ))), o'. by rewrite fresh_handle.
Qed.

Lemma footprint_fileobj_text self w σ :
  footprint σ (snd (data_source.text_fileobj self w σ)).
Proof.
  rewrite text_fileobj_full.
  destruct (sources σ !! self) as [o|] eqn:Hs; [|apply footprint_refl].
  destruct (w && negb (mutable o)) eqn:Hw; [apply footprint_refl|].
  destruct (convert_data_of o "text"); [apply footprint_refl|]. cbv zeta.
  destruct (stringio.initial _ _); [apply footprint_refl|].
  apply footprint_new. cbn [_callback].
  destruct w; [|done]. intros l [= <-]. eexists. split; [done|].
  by destruct (mutable o).
Qed.

Lemma footprint_fileobj_bytes self w σ :
  footprint σ (snd (data_source.bytes_fileobj self w σ)).
Proof.
  rewrite bytes_fileobj_full.
  destruct (sources σ !! self) as [o|] eqn:Hs; [|apply footprint_refl].
  destruct (w && negb (mutable o)) eqn:Hw; [apply footprint_refl|].
  destruct (convert_data_of o "bytes"); [apply footprint_refl|]. cbv zeta.
  destruct (stringio.initial _ _); [apply footprint_refl|].
  apply footprint_new. cbn [_callback].
  destruct w; [|done]. intros l [= <-]. eexists. split; [done|].
  by destruct (mutable o).
Qed.

Lemma footprint_read self size σ :
  footprint σ (snd (stringio.read self size σ)).
Proof.
  rewrite read_full.
  destruct (handles σ !! self) as [o|] eqn:Hh; [|apply footprint_refl].
  destruct (closed o); [apply footprint_refl|].
  apply footprint_log. eapply footprint_put; [done|done|by left].
Qed.

Lemma footprint_write self v σ :
  footprint σ (snd (stringio.write self v σ)).
Proof.
  rewrite write_full.
  destruct (handles σ !! self) as [o|] eqn:Hh; [|apply footprint_refl].
  destruct (is_readonly (h_class o)); [apply footprint_refl|].
  destruct (closed o); [apply footprint_refl|].
  destruct (py_write _ _ _); [|apply footprint_refl].
  apply footprint_log. eapply footprint_put; [done|done|by left].
Qed.

Lemma footprint_seek self offset σ :
  footprint σ (snd (stringio.seek self offset σ)).
Proof.
  rewrite seek_full.
  destruct (handles σ !! self) as [o|] eqn:Hh; [|apply footprint_refl].
  destruct (closed o); [apply footprint_refl|].
  destruct (offset <? 0); [apply footprint_refl|].
  eapply footprint_put; [done|done|by left].
Qed.

Lemma footprint_stringio_close self σ :
  footprint σ (snd (stringio.close self σ)).
Proof.
  rewrite close_full.
  destruct (handles σ !! self) as [o|] eqn:Hh; [|apply footprint_refl].
  eapply footprint_put; [done|done|by left].
Qed.

Lemma footprint_kls_close h σ :
  footprint σ (snd (kls.close h σ)).
Proof.
  rewrite kls_close_full. cbv zeta.
  destruct (handles σ !! h) as [o|] eqn:Hh; [|apply footprint_refl].
  destruct (closed o && negb (is_text (h_class o))); [apply footprint_refl|].
  destruct (_callback o) as [[self]|] eqn:Hcb; last first.
  { eapply footprint_put; [done|done|by right]. }
  destruct (closed o); [apply footprint_refl|].
  assert (∀ evs,
    footprint σ
      (World (sources σ)
         (<[h := StringIO (h_class o) (buffer o) (py_len (buffer o)) false
                   (Some (bound_reset_data self))]> (handles σ))
         (fds σ) (files σ) evs)) as Hback.
  { intros evs. unfold footprint. wsimpl. split_and!; try done; [|by left].
    right. eexists h, _. split; [done|]. rewrite Hh. simpl. auto. }
  destruct (sources σ !! self) as [src|] eqn:Hs; [|apply Hback].
  destruct (stored_form (data src) (buffer o)) as [e|d'] eqn:Hd;
    [apply Hback|].
  unfold footprint. wsimpl. split_and!; try done.
  - right. eexists h, _. split; [done|]. rewrite Hh. simpl. auto.
  - right. eexists _, _, _, _, h, _. split_and!; done.
Qed.

Lemma footprint_run_op c σ : footprint σ (snd (run_op c σ)).
Proof.
  destruct c; simpl.
  - pose proof (footprint_fileobj_text src writable σ) as H. unfold bind.
    by destruct (data_source.text_fileobj src writable σ) as [[?|?] ?].
  - pose proof (footprint_fileobj_bytes src writable σ) as H. unfold bind.
    by destruct (data_source.bytes_fileobj src writable σ) as [[?|?] ?].
  - pose proof (footprint_read h size σ) as H. unfold bind.
    by destruct (stringio.read h size σ) as [[?|?] ?].
  - pose proof (footprint_write h v σ) as H. unfold bind.
    by destruct (stringio.write h v σ) as [[?|?] ?].
  - pose proof (footprint_seek h offset σ) as H. unfold bind.
    by destruct (stringio.seek h offset σ) as [[?|?] ?].
  - rewrite flush_full. apply footprint_refl.
  - unfold close_method, bind, get_handle.
    destruct (handles σ !! h) as [o|]; [|apply footprint_refl].
    destruct (is_readonly (h_class o));
      [apply footprint_stringio_close|apply footprint_kls_close].
Qed.

(** ** What stays true of a store *)

Lemma same_shape_refl o : same_shape o o.
Proof. by unfold same_shape. Qed.

Lemma same_shape_trans o1 o2 o3 :
  same_shape o1 o2 → same_shape o2 o3 → same_shape o1 o3.
Proof.
  unfold same_shape. intros (?&?&?&?) (?&?&?&?).
  split_and!; [congruence|congruence|auto|auto].
Qed.

Lemma stored_form_keeps_str held d d' :
  stored_form held d = inr d' → isinstance_str held = true →
  isinstance_str d' = true.
Proof.
  unfold stored_form, str_encode, bytes_decode.
  destruct held, d; simpl; repeat case_match; intros; simplify_eq; done.
Qed.

Lemma later_store_refl σ : later_store σ σ.
Proof.
  split; [|done]. intros l o H. exists o. split; [done|apply same_shape_refl].
Qed.

Lemma later_store_trans σ1 σ2 σ3 :
  later_store σ1 σ2 → later_store σ2 σ3 → later_store σ1 σ3.
Proof.
  intros [Hs12 Hi12] [Hs23 Hi23]. split.
  - intros l o H. destruct (Hs12 l o H) as (o2 & H2 & Hsh2).
    destruct (Hs23 l o2 H2) as (o3 & H3 & Hsh3).
    exists o3. split; [done|by eapply same_shape_trans].
  - intros Hinv. destruct (Hi12 Hinv) as [Hinv2 Him2].
    destruct (Hi23 Hinv2) as [Hinv3 Him3]. split; [done|].
    intros l o H Hm. apply Him3; [by apply Him2|done].
Qed.

Lemma later_store_footprint σ σ' : footprint σ σ' → later_store σ σ'.
Proof.
  intros (_ & _ & Hh & Hs).
  assert (∀ l o, sources σ !! l = Some o →
            ∃ o', sources σ' !! l = Some o' ∧ same_shape o o') as Hshape.
  { intros l o Hl. destruct Hs as [->|(l0 & s & d & v & h & oh & Hl0 & _ & _
                                        & Hd & ->)].
    { exists o. split; [done|apply same_shape_refl]. }
    destruct (decide (l = l0)) as [->|Hne].
    - rewrite lookup_insert_eq. eexists. split; [done|].
      rewrite Hl0 in Hl. injection Hl as <-.
      unfold same_shape. simpl. split_and!; try done.
      + by eapply stored_form_keeps_str.
      + intros Hb. by rewrite (stored_form_keeps_bytes _ _ _ Hd).
    - rewrite lookup_insert_ne by done. exists o.
      split; [done|apply same_shape_refl]. }
  split; [done|]. intros Hinv. split.
  - intros h0 o0 self H0 Hcb0.
    assert (∃ s, sources σ !! self = Some s ∧ mutable s = true)
      as (s & Hself & Hm).
    { destruct Hh as [Heq|(h & o' & Heq & Hcase)].
      { rewrite Heq in H0. by eapply Hinv. }
      rewrite Heq in H0. destruct (decide (h0 = h)) as [->|Hne].
      - rewrite lookup_insert_eq in H0. injection H0 as <-.
        destruct (handles σ !! h) as [o|] eqn:Ho.
        + destruct Hcase as [_ [Hc|Hc]]; [|congruence].
          eapply Hinv; [exact Ho|congruence].
        + by apply Hcase.
      - rewrite lookup_insert_ne in H0 by done. by eapply Hinv. }
    destruct (Hshape _ _ Hself) as (s' & Hs' & _ & Hm' & _).
    exists s'. split; [done|congruence].
  - intros l o Hl Hm.
    destruct Hs as [->|(l0 & s & d & v & h & oh & Hl0 & Hoh & Hcb & _ & ->)];
      [done|].
    destruct (Hinv _ _ _ Hoh Hcb) as (s0 & Hs0 & Hm0).
    rewrite lookup_insert_ne; [done|]. intros <-. congruence.
Qed.

Lemma later_store_new_source σ o :
  later_store σ (with_sources <[fresh (dom (sources σ)) := o]> σ).
Proof.
  assert (∀ l o0, sources σ !! l = Some o0 →
            sources (with_sources <[fresh (dom (sources σ)) := o]> σ) !! l
            = Some o0) as Hkeep.
  { intros l o0 Hl. wsimpl. rewrite lookup_insert_ne; [done|].
    intros <-. by rewrite fresh_source in Hl. }
  split.
  - intros l o0 Hl. exists o0. split; [auto|apply same_shape_refl].
  - intros Hinv. split; [|auto].
    intros h oh self Hh Hcb. destruct (Hinv _ _ _ Hh Hcb) as (s & Hs & Hm).
    exists s. split; [auto|done].
Qed.

Lemma later_store_same σ σ' :
  sources σ' = sources σ → handles σ' = handles σ → later_store σ σ'.
Proof.
  intros Hs Hh. split.
  - intros l o Hl. exists o. rewrite Hs. split; [done|apply same_shape_refl].
  - intros Hinv. split; [|by rewrite Hs].
    intros h o self. rewrite Hh, Hs. apply Hinv.
Qed.

Lemma local_text_fileobj_frame ls w σ :
  sources (snd (local_source.text_fileobj ls w σ)) = sources σ
  ∧ handles (snd (local_source.text_fileobj ls w σ)) = handles σ
  ∧ files (snd (local_source.text_fileobj ls w σ)) = files σ.
Proof.
  destruct (w && negb (local_source.mutable ls)) eqn:Hw.
  { unfold local_source.text_fileobj. by rewrite Hw. }
  rewrite (local_text_fileobj_eq _ _ _ Hw), open_file_existing
    by by destruct w.
  by destruct (files σ !! local_source.path ls).
Qed.

Lemma local_bytes_fileobj_frame ls w σ :
  sources (snd (local_source.bytes_fileobj ls w σ)) = sources σ
  ∧ handles (snd (local_source.bytes_fileobj ls w σ)) = handles σ
  ∧ files (snd (local_source.bytes_fileobj ls w σ)) = files σ.
Proof.
  destruct (w && negb (local_source.mutable ls)) eqn:Hw.
  { unfold local_source.bytes_fileobj. destruct w; [|done].
    simpl in Hw. by destruct (local_source.mutable ls). }
  rewrite (local_bytes_fileobj_eq _ _ _ Hw), open_file_existing
    by by destruct w.
  by destruct (files σ !! local_source.path ls).
Qed.

Lemma later_store_transfer_loop fuel r w n :
  ∀ chunk σ res σ',
    transfer_loop fuel r w n chunk σ = Some (res, σ') → later_store σ σ'.
Proof.
  induction fuel as [|fuel IH]; intros chunk σ res σ' H; simpl in H.
  { destruct (truthy chunk); [done|]. injection H as <- <-.
    apply later_store_refl. }
  destruct (truthy chunk); last first.
  { injection H as <- <-. apply later_store_refl. }
  pose proof (later_store_footprint _ _ (footprint_write w chunk σ)) as Hw.
  destruct (stringio.write w chunk σ) as [[k|e] σ1]; simpl in Hw; last first.
  { by injection H as <- <-. }
  pose proof (later_store_footprint _ _ (footprint_read r n σ1)) as Hr.
  destruct (stringio.read r n σ1) as [[c|e] σ2]; simpl in Hr; last first.
  { injection H as <- <-. by eapply later_store_trans. }
  eapply later_store_trans; [exact Hw|].
  eapply later_store_trans; [exact Hr|]. by eapply IH.
Qed.

Lemma later_store_run_action a σ : later_store σ (run_action a σ).
Proof.
  destruct a; simpl.
  - apply later_store_footprint, footprint_run_op.
  - apply later_store_new_source.
  - unfold text_data_source.__init__. simpl.
    destruct (isinstance_str d); simpl;
      [apply later_store_new_source|apply later_store_refl].
  - unfold bytes_data_source.__init__. simpl.
    destruct (isinstance_bytes d); simpl;
      [apply later_store_new_source|apply later_store_refl].
  - destruct (local_text_fileobj_frame ls writable σ) as (?&?&?).
    by apply later_store_same.
  - destruct (local_bytes_fileobj_frame ls writable σ) as (?&?&?).
    by apply later_store_same.
  - unfold transfer_data.
    pose proof (later_store_footprint _ _
                  (footprint_read r (default default_bufsize bufsize) σ))
      as Hr.
    destruct (stringio.read r _ σ) as [[c|e] σ1]; simpl in Hr; [|done].
    destruct (transfer_loop fuel r w _ c σ1) as [[res σ']|] eqn:Hloop;
      [|apply later_store_refl].
    eapply later_store_trans; [exact Hr|].
    by eapply later_store_transfer_loop.
Qed.

Lemma later_store_run_actions l : ∀ σ, later_store σ (run_actions l σ).
Proof.
  induction l as [|a l IH]; intros σ; [apply later_store_refl|].
  simpl. eapply later_store_trans; [apply later_store_run_action|apply IH].
Qed.

Lemma callbacks_mutable_empty : callbacks_mutable empty_world.
Proof. intros h o self H. simpl in H. by rewrite lookup_empty in H. Qed.

(** X7: an operation on in-memory sources and handles (obtaining a handle,
    read, write, seek, flush, close) never changes a file or a file
    object; every handle that existed is still there, of the same class,
    its callback the same or dropped, never replaced; and all handles but
    at most one, and all sources but at most one, are exactly as they
    were. *)
Theorem operation_touches_one_handle_one_source c σ :
  let σ' := snd (run_op c σ) in
  files σ' = files σ ∧ fds σ' = fds σ
  ∧ (∀ h o, handles σ !! h = Some o →
       ∃ o', handles σ' !! h = Some o' ∧ h_class o' = h_class o
             ∧ (_callback o' = _callback o ∨ _callback o' = None))
  ∧ (∃ h0, ∀ h, h ≠ h0 → handles σ' !! h = handles σ !! h)
  ∧ (∃ l0, ∀ l, l ≠ l0 → sources σ' !! l = sources σ !! l).
Proof.
  intros σ'. destruct (footprint_run_op c σ) as (Hf & Hd & Hh & Hs).
  fold σ' in Hf, Hd, Hh, Hs. split_and!; try done.
  - intros h o Ho. destruct Hh as [->|(h1 & o' & -> & Hcase)]; [eauto|].
    destruct (decide (h = h1)) as [->|Hne].
    + rewrite lookup_insert_eq, Ho in *. destruct Hcase. eauto.
    + rewrite lookup_insert_ne by done. eauto.
  - destruct Hh as [->|(h1 & o' & -> & _)]; [by exists 0%nat|].
    exists h1. intros h Hne. by rewrite lookup_insert_ne.
  - destruct Hs as [->|(l1 & s & d & v & h & oh & _ & _ & _ & _ & ->)];
      [by exists 0%nat|].
    exists l1. intros l Hne. by rewrite lookup_insert_ne.
Qed.

(** X8: whatever a client does (constructing sources of any class,
    requesting handles from in-memory or disk sources, reading, writing,
    seeking, flushing, closing, transferring), a source that exists goes
    on existing with the class and the [mutable] flag it was constructed
    with, and goes on storing text if it stored text, bytes if it stored
    bytes. *)
Theorem sources_keep_class_flag_and_kind l σ loc0 o :
  sources σ !! loc0 = Some o →
  ∃ o', sources (run_actions l σ) !! loc0 = Some o'
        ∧ src_class o' = src_class o ∧ mutable o' = mutable o
        ∧ (isinstance_str (data o) = true → isinstance_str (data o') = true)
        ∧ (isinstance_bytes (data o) = true →
           isinstance_bytes (data o') = true).
Proof.
  intros H. destruct (later_store_run_actions l σ) as [Hs _].
  destruct (Hs _ _ H) as (o' & Ho' & Hshape). by exists o'.
Qed.

Lemma sources_keep_class_flag_and_kind_witness :
  let σ := snd (text_data_source.__init__ (VStr (text "foonani")) true
                  empty_world) in
  ∃ o', sources (run_actions [act (op_bytes_fileobj 0%nat true);
                              act (op_write 0%nat (VBytes (octets "dar")));
                              act (op_close 0%nat)] σ) !! 0%nat = Some o'
        ∧ src_class o' = cls_text_data_source ∧ mutable o' = true
        ∧ (true = true → isinstance_str (data o') = true)
        ∧ (false = true → isinstance_bytes (data o') = true).
Proof.
  intros σ.
  apply (sources_keep_class_flag_and_kind _ σ 0%nat
           (Source cls_text_data_source (VStr (text "foonani")) true)).
  reflexivity.
Defined.

(** X9: in a store built by the module's own operations from nothing,
    every callback a handle keeps is bound to a mutable source, and
    nothing a client does afterwards changes what an immutable source
    stores. *)
Theorem immutable_source_never_changes l0 l loc0 o :
  let σ := run_actions l0 empty_world in
  callbacks_mutable σ
  ∧ (sources σ !! loc0 = Some o → mutable o = false →
     sources (run_actions l σ) !! loc0 = Some o).
Proof.
  intros σ.
  destruct (later_store_run_actions l0 empty_world) as [_ H0].
  destruct (H0 callbacks_mutable_empty) as [Hinv _]. fold σ in Hinv.
  split; [done|]. intros Ho Hm.
  destruct (later_store_run_actions l σ) as [_ H1].
  destruct (H1 Hinv) as [_ Him]. by apply Him.
Qed.

Lemma immutable_source_never_changes_witness :
  let σ := run_actions [act_data_source (VStr (text "foonani")) false;
                        act (op_text_fileobj 0%nat false)] empty_world in
  sources (run_actions [act (op_text_fileobj 0%nat true);
                        act (op_write 1%nat (VStr (text "dar")));
                        act (op_close 1%nat);
                        act (op_close 0%nat)] σ) !! 0%nat
  = Some (Source cls_data_source (VStr (text "foonani")) false).
Proof.
  intros σ.
  apply (proj2 (immutable_source_never_changes
                  [act_data_source (VStr (text "foonani")) false;
                   act (op_text_fileobj 0%nat false)] _ 0%nat
                  (Source cls_data_source (VStr (text "foonani")) false)));
    reflexivity.
Defined.

(** ** Edges of the transfer helper *)

Lemma falsy_len v : truthy v = false → py_len v = 0%nat.
Proof. destruct v as [[|]|[|]|z|]; simpl; done. Qed.

Lemma put_same_handle σ h o :
  handles σ !! h = Some o → closed o = false →
  with_handles <[h := StringIO (h_class o) (buffer o) (position o + 0) false
                        (_callback o)]> σ = σ.
Proof.
  intros H Hc. destruct σ, o. simpl in *. subst.
  unfold with_handles. simpl. rewrite Nat.add_0_r. f_equal.
  by apply insert_id.
Qed.

(** X10: when the first read returns nothing, because the reader is
    exhausted or because the chunk size is 0, [transfer_data] returns at
    once: it has made that one read and nothing else.  The writer is not
    looked at, so the call succeeds even if the writer is read-only,
    closed, or the reader itself. *)
Theorem transfer_with_nothing_to_read σ r w ro bufsize fuel :
  handles σ !! r = Some ro → closed ro = false →
  truthy (py_read (buffer ro) (position ro) (default default_bufsize bufsize))
  = false →
  transfer_data fuel r w bufsize σ
  = Some (Ok tt,
          log (EvRead r (default default_bufsize bufsize)
                 (py_read (buffer ro) (position ro)
                    (default default_bufsize bufsize))) σ).
Proof.
  intros Hr Hc Hf. unfold transfer_data.
  rewrite (read_eq _ _ _ _ Hr Hc), (falsy_len _ Hf).
  rewrite (put_same_handle _ _ _ Hr Hc).
  by apply transfer_loop_done.
Qed.

Lemma transfer_with_nothing_to_read_witness :
  transfer_data 0 0%nat 0%nat (Some 0) abc_and_empty
  = Some (Ok tt, log (EvRead 0%nat 0 (VStr [])) abc_and_empty).
Proof.
  apply (transfer_with_nothing_to_read abc_and_empty 0%nat 0%nat
           (StringIO text_ro_StringIO (VStr (text "abc")) 0 false None)
           (Some 0) 0%nat);
    reflexivity.
Defined.

(** X11: when the reader has data but the writer refuses it, being
    read-only ([TypeError]) or closed ([ValueError]), [transfer_data]
    raises that exception after its first read: the writer is untouched,
    and the reader has moved past the first chunk, which is lost. *)
Theorem transfer_refused_by_writer σ r w ro wo bufsize fuel :
  r ≠ w →
  handles σ !! r = Some ro → closed ro = false →
  handles σ !! w = Some wo →
  is_readonly (h_class wo) || closed wo = true →
  truthy (py_read (buffer ro) (position ro) (default default_bufsize bufsize))
  = true →
  let n := default default_bufsize bufsize in
  let chunk := py_read (buffer ro) (position ro) n in
  ∃ σ', transfer_data (S fuel) r w bufsize σ
        = Some (Raise (if is_readonly (h_class wo) then TypeError
                       else ValueError), σ')
        ∧ handles σ' !! w = Some wo
        ∧ handles σ' !! r
          = Some (StringIO (h_class ro) (buffer ro)
                    (position ro + py_len chunk) false (_callback ro))
        ∧ trace σ' = trace σ ++ [EvRead r n chunk].
Proof.
  intros Hrw Hr Hc Hw Hbad Ht n chunk. subst n chunk. eexists. split.
  - unfold transfer_data. rewrite (read_eq _ _ _ _ Hr Hc).
    cbn [transfer_loop]. rewrite Ht, write_full. wsimpl.
    rewrite lookup_insert_ne by done. rewrite Hw.
    destruct (is_readonly (h_class wo)); [done|].
    simpl in Hbad. by rewrite Hbad.
  - wsimpl. rewrite lookup_insert_ne by done. rewrite lookup_insert_eq.
    done.
Qed.

Lemma transfer_refused_by_writer_witness :
  let σ := snd ((stringio.__init__ text_ro_StringIO (VStr (text "abc")) >>
                 stringio.__init__ text_ro_StringIO (VStr (text "xy")))
                  empty_world) in
  ∃ σ', transfer_data 1 0%nat 1%nat (Some 2) σ = Some (Raise TypeError, σ')
        ∧ handles σ' !! 1%nat
          = Some (StringIO text_ro_StringIO (VStr (text "xy")) 0 false None)
        ∧ handles σ' !! 0%nat
          = Some (StringIO text_ro_StringIO (VStr (text "abc")) 2 false None)
        ∧ trace σ' = [EvRead 0%nat 2 (VStr (text "ab"))].
Proof.
  intros σ.
  apply (transfer_refused_by_writer σ 0%nat 1%nat
           (StringIO text_ro_StringIO (VStr (text "abc")) 0 false None)
           (StringIO text_ro_StringIO (VStr (text "xy")) 0 false None)
           (Some 2) 0%nat);
    try reflexivity.
  discriminate.
Defined.

Lemma py_read_past_end buf pos n size :
  isinstance_str buf || isinstance_bytes buf = true →
  n < 0 →
  truthy (py_read buf (pos + py_len (py_read buf pos n)) size) = false.
Proof.
  intros Hk Hn. destruct buf as [s|b|z|]; try done; simpl;
    unfold buf_read; destruct (Z.ltb_spec n 0); try lia;
    rewrite (drop_ge _ (pos + _)) by (rewrite length_drop; lia);
    by destruct (size <? 0); rewrite ?take_nil.
Qed.

Lemma py_write_nothing buf pos v newbuf :
  truthy v = false → py_write buf pos v = Some newbuf → newbuf = buf.
Proof. destruct buf, v as [[|]|[|]| |]; intros; by simplify_eq/=. Qed.

(** X12: with a negative chunk size a read returns all that is left, so
    [transfer_data] moves the reader's remaining data in a single chunk:
    one read, one write of everything (none if nothing was left), and the
    read that finds the reader exhausted.  One round of the loop is
    enough. *)
Theorem transfer_negative_size_is_one_chunk σ r w ro wo n newbuf :
  n < 0 → r ≠ w →
  handles σ !! r = Some ro → closed ro = false →
  handles σ !! w = Some wo → closed wo = false →
  is_readonly (h_class wo) = false →
  py_write (buffer wo) (position wo) (py_read (buffer ro) (position ro) n)
  = Some newbuf →
  let data := py_read (buffer ro) (position ro) n in
  ∃ σ' e,
    transfer_data 1 r w (Some n) σ = Some (Ok tt, σ')
    ∧ exhausted r σ'
    ∧ handles σ' !! w
      = Some (StringIO (h_class wo) newbuf (position wo + py_len data) false
                (_callback wo))
    ∧ truthy e = false
    ∧ trace σ'
      = trace σ ++ (if truthy data
                    then [EvRead r n data; EvWrite w data] else [])
        ++ [EvRead r n e].
Proof.
  intros Hn Hrw Hr Hcr Hw Hcw Hro Hnew data.
  subst data.
  assert (isinstance_str (buffer ro) || isinstance_bytes (buffer ro) = true)
    as Hkind.
  { destruct (buffer ro), (buffer wo); simpl in *; done. }
  unfold transfer_data. change (default default_bufsize (Some n)) with n.
  cbv zeta. rewrite (read_eq _ _ _ _ Hr Hcr).
  remember (py_read (buffer ro) (position ro) n) as data eqn:Hdata.
  destruct (truthy data) eqn:Ht.
  - cbn [transfer_loop]. rewrite Ht.
    erewrite write_eq;
      [|wsimpl; rewrite lookup_insert_ne by done; exact Hw|done..].
    erewrite read_eq; [|wsimpl; rewrite lookup_insert_ne by done;
                        apply lookup_insert_eq|done].
    cbn [h_class buffer position _callback].
    pose proof (py_read_past_end (buffer ro) (position ro) n n Hkind Hn)
      as He. rewrite <- Hdata in He.
    rewrite He. eexists _, _. split; [reflexivity|]. split_and!.
    + intros size. eexists. split.
      * erewrite read_eq; [done|wsimpl; apply lookup_insert_eq|done].
      * cbn [buffer position].
        rewrite (falsy_len _ He), Nat.add_0_r, Hdata.
        by apply py_read_past_end.
    + wsimpl. rewrite lookup_insert_ne by done. apply lookup_insert_eq.
    + exact He.
    + wsimpl. by rewrite <- !app_assoc.
  - rewrite (falsy_len _ Ht), (put_same_handle _ _ _ Hr Hcr).
    rewrite transfer_loop_done by done.
    eexists _, data. split; [reflexivity|]. split_and!.
    + intros size. eexists. split.
      * erewrite read_eq; [done|wsimpl; exact Hr|done].
      * pose proof (py_read_past_end (buffer ro) (position ro) n size
                      Hkind Hn) as He.
        rewrite <- Hdata in He.
        by rewrite (falsy_len _ Ht), Nat.add_0_r in He.
    + wsimpl. rewrite Hw, Nat.add_0_r, <- Hcw.
      rewrite (py_write_nothing _ _ _ _ Ht Hnew). by destruct wo.
    + done.
    + done.
Qed.

Lemma transfer_negative_size_is_one_chunk_witness :
  ∃ σ' e,
    transfer_data 1 0%nat 1%nat (Some (-1)) abc_and_empty = Some (Ok tt, σ')
    ∧ exhausted 0%nat σ'
    ∧ handles σ' !! 1%nat
      = Some (StringIO text_wr_StringIO (VStr (text "abc")) 3 false None)
    ∧ truthy e = false
    ∧ trace σ'
      = [EvRead 0%nat (-1) (VStr (text "abc"));
         EvWrite 1%nat (VStr (text "abc")); EvRead 0%nat (-1) e].
Proof.
  apply (transfer_negative_size_is_one_chunk abc_and_empty 0%nat 1%nat
           (StringIO text_ro_StringIO (VStr (text "abc")) 0 false None)
           (StringIO text_wr_StringIO (VStr []) 0 false None)
           (-1) (VStr (text "abc")));
    try reflexivity.
  discriminate.
Defined.

(** ** Opening for writing and closing at once *)

Lemma stored_form_of_converted o mode k d buf :
  well_typed o = true →
  (mode = "text" ∧ is_text k = true) ∨ (mode = "bytes" ∧ is_text k = false) →
  convert_data_of o mode = inr d →
  stringio.initial k d = inr buf →
  stored_form (data o) buf = inr (data o).
Proof.
  intros Hw [[-> Hk]|[-> Hk]] Hd Hi;
    unfold stringio.initial in Hi; rewrite Hk in Hi;
    destruct o as [c v m]; unfold convert_data_of, data_source_convert_data,
      text_data_source_convert_data, bytes_data_source_convert_data,
      str_encode, bytes_decode, well_typed in *;
    destruct c, v as [s|b|z|]; simpl in *; try done;
    repeat case_match; simplify_eq; try done;
    unfold stored_form, str_encode, bytes_decode; simpl.
  all: try by match goal with
              | H : Utf8.decode _ = Some _ |- _ =>
                  rewrite (Utf8Facts.encode_decode _ _ H)
              | H : Utf8.encode _ = Some _ |- _ =>
                  rewrite (Utf8Facts.decode_encode _ _ H)
              end.
Qed.

(** X13: a writable handle that is closed without having been written to
    gives the source back what it held.  Whichever view was asked for,
    and also when the view is not the stored form (the text view of
    stored bytes, the bytes view of a stored [str]), the commit at close
    converts the handle's content back to exactly the stored value: the
    sources after the close are the sources before the open. *)
Theorem open_for_writing_and_close_keeps_data σ src o fileobj f σ1 :
  sources σ !! src = Some o → well_typed o = true →
  fileobj = data_source.text_fileobj ∨ fileobj = data_source.bytes_fileobj →
  fileobj src true σ = (Ok f, σ1) →
  ∃ σ2, kls.close f σ1 = (Ok tt, σ2) ∧ sources σ2 = sources σ.
Proof.
  intros Hs Hw Hf Hopen.
  assert (∃ mode k d buf,
    ((mode = "text" ∧ is_text k = true) ∨ (mode = "bytes" ∧ is_text k = false))
    ∧ convert_data_of o mode = inr d ∧ stringio.initial k d = inr buf
    ∧ f = fresh (dom (handles σ))
    ∧ σ1 = with_handles
             <[f := StringIO k buf 0 false (Some (bound_reset_data src))]> σ)
    as (mode & k & d & buf & Hm & Hd & Hi & -> & ->).
  { destruct Hf as [-> | ->];
      [rewrite text_fileobj_full in Hopen|rewrite bytes_fileobj_full in Hopen];
      rewrite Hs in Hopen; cbn [andb] in Hopen;
      destruct (negb (mutable o)); try done;
      destruct (convert_data_of o _) as [|d] eqn:Hd; try done;
      cbv zeta in Hopen;
      destruct (stringio.initial _ d) as [|buf] eqn:Hi; try done;
      injection Hopen as <- <-; eexists _, _, d, buf;
      (split; [|done]); [left|right]; done. }
  pose proof (stored_form_of_converted _ _ _ _ _ Hw Hm Hd Hi) as Hst.
  eexists. split.
  - eapply kls_close_eq; wsimpl;
      [apply lookup_insert_eq|done|done|exact Hs|exact Hst].
  - wsimpl. destruct o. by apply insert_id.
Qed.

Lemma open_for_writing_and_close_keeps_data_witness :
  let σ := snd (data_source.__init__ cls_data_source
                  (VBytes (octets "abc")) true empty_world) in
  ∃ σ2, kls.close 0%nat (snd (data_source.text_fileobj 0%nat true σ))
        = (Ok tt, σ2)
        ∧ sources σ2 = sources σ.
Proof.
  intros σ.
  apply (open_for_writing_and_close_keeps_data σ 0%nat
           (Source cls_data_source (VBytes (octets "abc")) true)
           data_source.text_fileobj 0%nat
           (snd (data_source.text_fileobj 0%nat true σ)));
    [reflexivity|reflexivity|by left|reflexivity].
Defined.

(** ** The transfer test helper *)

Lemma tell_eq σ self o :
  handles σ !! self = Some o → closed o = false →
  tell self σ = (Ok (position o), σ).
Proof.
  intros H Hc. unfold tell. munfold.
  by rewrite (get_handle_eq _ _ _ H), Hc.
Qed.

Lemma run_bind {A B} (m : M A) (k : A → test.T B) σ a σ' :
  m σ = (Ok a, σ') → (test.run m ≫= k) σ = k a σ'.
Proof.
  intros H. unfold mbind, test.T_bind, test.run. by rewrite H.
Qed.

Lemma run_fuel_bind {A B} (m : world → option (outcome A * world))
    (k : A → test.T B) σ a σ' :
  m σ = Some (Ok a, σ') → (test.run_fuel m ≫= k) σ = k a σ'.
Proof.
  intros H. unfold mbind, test.T_bind, test.run_fuel. by rewrite H.
Qed.

Lemma assert_bind {B} (k : unit → test.T B) σ :
  (test.assertTrue true ≫= k) σ = k tt σ.
Proof. done. Qed.

Lemma assertEqual_same {B} v (k : unit → test.T B) σ :
  (test.assertEqual v v true ≫= k) σ = k tt σ.
Proof.
  unfold test.assertEqual, py_ne, py_eq.
  rewrite bool_decide_eq_true_2 by done. done.
Qed.

Lemma assertEqual_last a b σ :
  test.assertEqual a b true σ
  = Some (if py_eq a b then test.Returns tt else test.Fails, σ).
Proof.
  unfold test.assertEqual, py_ne. by destruct (py_eq a b).
Qed.

Lemma assertLen_bind {B} v n len (k : unit → test.T B) σ :
  builtin_len v = inr n → Z.of_nat n = len →
  (test.assertLen v len ≫= k) σ = k tt σ.
Proof.
  intros Hn <-.
  unfold test.assertLen, mbind, test.T_bind, test.run, test.assertTrue, lift.
  rewrite Hn. unfold ret. by rewrite Z.eqb_refl.
Qed.

Lemma drop_buf_write {A} (nul : A) wb q s :
  drop q (buf_write nul wb q s)
  = match s with [] => drop q wb | _ => s ++ drop (q + length s) wb end.
Proof.
  unfold buf_write. destruct s as [|a s]; [done|].
  rewrite (app_assoc (take q wb)), drop_app_length'; [done|].
  rewrite length_app, length_take, length_replicate. lia.
Qed.

Lemma written_is_rest {A} (nul : A) wb q s :
  drop q (buf_write nul wb q s) = s ↔ (length wb ≤ q + length s)%nat.
Proof.
  rewrite drop_buf_write. destruct s as [|a s].
  - rewrite Nat.add_0_r. split.
    + intros H. apply (f_equal length) in H. rewrite length_drop in H.
      simpl in H. lia.
    + intros H. by apply drop_ge.
  - split.
    + intros H. apply (f_equal length) in H.
      rewrite length_app, length_drop in H. lia.
    + intros H. rewrite drop_ge by done. by rewrite app_nil_r.
Qed.

Lemma py_read_written bw q rest newbuf :
  py_write bw q rest = Some newbuf →
  py_eq rest (py_read newbuf q (-1))
  = bool_decide (py_len bw ≤ q + py_len rest)%nat.
Proof.
  intros H. unfold py_eq.
  destruct bw as [wb|wb| |], rest as [s|s| |]; try done;
    injection H as <-; simpl; unfold buf_read; simpl;
    apply bool_decide_ext;
    match goal with
    | |- context [buf_write ?nul _ _ _] =>
        rewrite <- (written_is_rest nul wb q s)
    end;
    split; intros E; [by injection E|by rewrite E
                     |by injection E|by rewrite E].
Qed.

Lemma transfer_data_result σ r w ro wo bufsize newbuf :
  0 < default default_bufsize bufsize → r ≠ w →
  handles σ !! r = Some ro → closed ro = false →
  handles σ !! w = Some wo → closed wo = false →
  is_readonly (h_class wo) = false →
  py_write (buffer wo) (position wo) (py_read (buffer ro) (position ro) (-1))
  = Some newbuf →
  ∃ σ',
    (∀ fuel, (py_len (py_read (buffer ro) (position ro) (-1)) ≤ fuel)%nat →
       transfer_data fuel r w bufsize σ = Some (Ok tt, σ'))
    ∧ handles σ' !! r
      = Some (StringIO (h_class ro) (buffer ro)
                (position ro + py_len (py_read (buffer ro) (position ro) (-1)))
                false (_callback ro))
    ∧ handles σ' !! w
      = Some (StringIO (h_class wo) newbuf
                (position wo
                 + py_len (py_read (buffer ro) (position ro) (-1)))
                false (_callback wo))
    ∧ sources σ' = sources σ ∧ files σ' = files σ.
Proof.
  intros Hn Hrw Hr Hcr Hw Hcw Hro Hnew.
  destruct (buffer ro) as [rb|rb|?|] eqn:Hbr,
           (buffer wo) as [wb|wb|?|] eqn:Hbw; try discriminate.
  - assert (∀ s, truthy (VStr s) = match s with [] => false | _ => true end)
      as Htr by (by intros []).
    destruct (transfer_data_py 0%N VStr (λ _ _ _, eq_refl) (λ _ _ _, eq_refl)
                (λ _, eq_refl) Htr (λ _ _, eq_refl) bufsize r w σ ro wo rb wb
                Hn Hrw Hr Hcr Hbr Hw Hcw Hbw Hro)
      as (σ' & cs & e & H).
    rewrite Hbr, Hbw in H. exists σ'.
    destruct H as (?&?&?&H&?&?&?&?). split_and!; try done.
    by apply H.
  - assert (∀ s, truthy (VBytes s) = match s with [] => false | _ => true end)
      as Htr by (by intros []).
    destruct (transfer_data_py Byte.x00 VBytes (λ _ _ _, eq_refl)
                (λ _ _ _, eq_refl) (λ _, eq_refl) Htr (λ _ _, eq_refl)
                bufsize r w σ ro wo rb wb
                Hn Hrw Hr Hcr Hbr Hw Hcw Hbw Hro)
      as (σ' & cs & e & H).
    rewrite Hbr, Hbw in H. exists σ'.
    destruct H as (?&?&?&H&?&?&?&?). split_and!; try done.
    by apply H.
Qed.

Lemma builtin_len_read buf p n :
  isinstance_str buf || isinstance_bytes buf = true →
  builtin_len (py_read buf p n) = inr (py_len (py_read buf p n)).
Proof. by destruct buf. Qed.

(** X14: the test helper [assertTransfer] checks more than that the
    transfer copied the reader's remaining data.  Its last comparison
    reads the writer from its starting position to its end, so the helper
    passes exactly when the writer held nothing beyond the region the
    transfer wrote; with a longer writer that last comparison fails,
    although [transfer_data] did its work.  No source changes. *)
Theorem assertTransfer_passes_iff_writer_ends_there σ r w ro wo newbuf fuel :
  r ≠ w →
  handles σ !! r = Some ro → closed ro = false →
  handles σ !! w = Some wo → closed wo = false →
  is_readonly (h_class wo) = false →
  py_write (buffer wo) (position wo) (py_read (buffer ro) (position ro) (-1))
  = Some newbuf →
  (py_len (py_read (buffer ro) (position ro) (-1)) ≤ fuel)%nat →
  ∃ σ',
    test.assertTransfer fuel r w σ
    = Some (if bool_decide
                 (py_len (buffer wo)
                  ≤ position wo
                    + py_len (py_read (buffer ro) (position ro) (-1)))%nat
            then test.Returns tt else test.Fails, σ')
    ∧ sources σ' = sources σ.
Proof.
  intros Hrw Hr Hcr Hw Hcw Hro Hnew Hfuel.
  assert (isinstance_str (buffer ro) || isinstance_bytes (buffer ro) = true)
    as Hkind.
  { destruct (buffer ro), (buffer wo); simpl in *; done. }
  destruct (transfer_data_result σ r w ro wo None newbuf)
    as (σ1 & Hrun & Hr1 & Hw1 & Hsrc & _); try done.
  remember (py_read (buffer ro) (position ro) (-1)) as rest eqn:Hrest.
  unfold test.assertTransfer.
  rewrite (run_bind _ _ _ _ _ (tell_eq _ _ _ Hr Hcr)).
  rewrite (run_bind _ _ _ _ _ (tell_eq _ _ _ Hw Hcw)).
  rewrite (run_fuel_bind _ _ _ _ _ (Hrun fuel Hfuel)).
  rewrite (run_bind _ _ _ _ _ (tell_eq _ _ _ Hr1 eq_refl)).
  cbn [position].
  erewrite run_bind; [|by apply (read_eq _ _ _ _ Hr1)].
  cbn [buffer position h_class _callback].
  pose proof (py_read_past_end (buffer ro) (position ro) (-1) (-1) Hkind
                ltac:(lia)) as He.
  rewrite <- Hrest in He. unfold test.assertFalse. rewrite He.
  cbn [negb]. rewrite assert_bind.
  rewrite (falsy_len _ He), Nat.add_0_r.
  erewrite run_bind; last first.
  { apply tell_eq; wsimpl;
      [rewrite lookup_insert_ne by done; exact Hw1|done]. }
  cbn [position].
  replace (Z.of_nat (position wo + py_len rest) - Z.of_nat (position wo))
    with (Z.of_nat (position ro + py_len rest) - Z.of_nat (position ro))
    by lia.
  rewrite assertEqual_same.
  erewrite run_bind; last first.
  { apply seek_eq; wsimpl;
      [rewrite lookup_insert_ne by done; exact Hw1|done|lia]. }
  cbn [buffer position h_class _callback]. rewrite Nat2Z.id.
  erewrite run_bind; last first.
  { apply seek_eq; wsimpl;
      [rewrite lookup_insert_ne by done; apply lookup_insert_eq|done|lia]. }
  cbn [buffer position h_class _callback]. rewrite Nat2Z.id.
  erewrite run_bind; last first.
  { apply read_eq; wsimpl; [apply lookup_insert_eq|done]. }
  cbn [buffer position h_class _callback]. rewrite <- Hrest.
  assert (builtin_len rest = inr (py_len rest)) as Hlen
    by (rewrite Hrest; by apply builtin_len_read).
  rewrite (assertLen_bind _ _ _ _ _ Hlen) by lia.
  erewrite run_bind; last first.
  { apply read_eq; wsimpl;
      [rewrite lookup_insert_ne by done; rewrite lookup_insert_ne by done;
       apply lookup_insert_eq|done]. }
  cbn [buffer position h_class _callback].
  rewrite assertEqual_last, (py_read_written _ _ _ _ Hnew).
  eexists. split; [reflexivity|]. wsimpl. exact Hsrc.
Qed.

Lemma assertTransfer_passes_iff_writer_ends_there_witness :
  ∃ σ', test.assertTransfer 3 0%nat 1%nat abc_and_empty
        = Some (test.Returns tt, σ')
        ∧ sources σ' = sources abc_and_empty.
Proof.
  apply (assertTransfer_passes_iff_writer_ends_there abc_and_empty 0%nat 1%nat
           (StringIO text_ro_StringIO (VStr (text "abc")) 0 false None)
           (StringIO text_wr_StringIO (VStr []) 0 false None)
           (VStr (text "abc")) 3%nat);
    try reflexivity.
  discriminate.
Defined.

(** ** The checks of the handle test *)

(** X15: the two [assertRaises] checks of [_test_fileobj] pass on every
    source and handle of the kind they are applied to: requesting a
    writable handle from an immutable source raises [TypeError], and a
    write to a read-only handle raises an exception the handle declares.
    But the second check does not tell a read-only handle from a writable
    one: [assertRaises] also passes when the call raises nothing, so it
    passes on a writable handle too whenever the write succeeds, where
    [assertRaisesMsg] fails. *)
Theorem assertRaises_checks_of_the_handle_test ignored σ :
  (∀ src o fileobj,
     sources σ !! src = Some o → mutable o = false →
     fileobj = data_source.text_fileobj ∨ fileobj = data_source.bytes_fileobj →
     test.assertRaises ignored [TypeError] (fileobj src true) σ
     = Some (test.Returns tt, σ))
  ∧ (∀ h o v,
       handles σ !! h = Some o → is_readonly (h_class o) = true →
       test.assertRaises ignored (class_exceptions (h_class o))
         (stringio.write h v) σ
       = Some (test.Returns tt, σ)
       ∧ test.assertRaisesMsg (class_exceptions (h_class o))
           (stringio.write h v) σ
         = Some (test.Returns tt, σ))
  ∧ (∀ h o v n σ',
       handles σ !! h = Some o → is_readonly (h_class o) = false →
       stringio.write h v σ = (Ok n, σ') →
       test.assertRaises ignored (class_exceptions (h_class o))
         (stringio.write h v) σ
       = Some (test.Returns tt, σ')
       ∧ test.assertRaisesMsg (class_exceptions (h_class o))
           (stringio.write h v) σ
         = Some (test.Fails, σ')).
Proof.
  split_and!.
  - intros src o fileobj Hs Hm [-> | ->]; unfold test.assertRaises;
      [rewrite text_fileobj_full|rewrite bytes_fileobj_full];
      by rewrite Hs, Hm.
  - intros h o v Hh Hro.
    unfold test.assertRaises, test.assertRaisesMsg.
    rewrite (write_readonly _ _ _ _ Hh Hro).
    by destruct (h_class o).
  - intros h o v n σ' Hh Hro Hw.
    unfold test.assertRaises, test.assertRaisesMsg. by rewrite Hw.
Qed.

Lemma assertRaises_checks_of_the_handle_test_witness :
  let write := stringio.write 1%nat (VStr (text "x")) in
  test.assertRaises (λ _, false) [MemoryError] write abc_and_empty
  = Some (test.Returns tt, snd (write abc_and_empty))
  ∧ test.assertRaisesMsg [MemoryError] write abc_and_empty
    = Some (test.Fails, snd (write abc_and_empty)).
Proof.
  intros write.
  apply (proj2 (proj2 (assertRaises_checks_of_the_handle_test
                         (λ _, false) abc_and_empty))
           1%nat (StringIO text_wr_StringIO (VStr []) 0 false None)
           (VStr (text "x")) 1%nat);
    reflexivity.
Defined.

(** ** Running a test case *)

Section run_facts.
Context {cls : Type} `{!EqDecision cls}.
Variables is_failure is_skip is_interrupt : cls → bool.

Local Set Warnings "-clear-no-such-hyp".


















End run_facts.


(** ** Comparison by attributes *)

Section attrs_facts.
Context {V : Type}.
Variable ne : option V → option V → bool.

Lemma ne_loop_negb (inst1 inst2 : _klass.instance) l :
  _klass.ne_loop ne inst1 inst2 l = negb (_klass.eq_loop ne inst1 inst2 l).
Proof.
  induction l as [|attr l IH]; [done|]. cbn [_klass.ne_loop _klass.eq_loop].
  by destruct (ne _ _).
Qed.

Lemma eq_loop_true (inst1 inst2 : _klass.instance) l :
  _klass.eq_loop ne inst1 inst2 l = true
  ↔ ∀ attr, attr ∈ l →
      ne (_klass.attributes inst1 !! attr) (_klass.attributes inst2 !! attr)
      = false.
Proof.
  induction l as [|a l IH]; cbn [_klass.eq_loop].
  - split; [|done]. intros _ attr H. by apply elem_of_nil in H.
  - destruct (ne _ _) eqn:Ha.
    + split; [done|]. intros H. specialize (H a). rewrite Ha in H.
      symmetry. apply H. by left.
    + rewrite IH. split.
      * intros H attr [->|Hin]%elem_of_cons; [done|by apply H].
      * intros H attr Hin. apply H. by right.
Qed.

(** X19: [generic_attr_ne] is the negation of [generic_attr_eq] on every
    pair of instances, whatever [!=] does on the attribute values, and
    raises [AttributeError] exactly when [generic_attr_eq] does.
    [generic_attr_eq] answers true exactly when the two are the same
    object or no attribute named by the first instance's
    [__attr_comparison__] differs; the second instance's list is never
    consulted. *)
Theorem generic_attr_ne_negates_eq (inst1 inst2 : _klass.instance) :
  _klass.generic_attr_ne ne inst1 inst2
  = match _klass.generic_attr_eq ne inst1 inst2 with
    | inl e => inl e
    | inr b => inr (negb b)
    end
  ∧ (_klass.generic_attr_eq ne inst1 inst2 = inr true ↔
     _klass.ident inst1 = _klass.ident inst2
     ∨ ∃ l, _klass.__attr_comparison__ inst1 = Some l
            ∧ ∀ attr, attr ∈ l →
                ne (_klass.attributes inst1 !! attr)
                   (_klass.attributes inst2 !! attr) = false)
  ∧ (_klass.generic_attr_eq ne inst1 inst2 = inl AttributeError ↔
     _klass.ident inst1 ≠ _klass.ident inst2
     ∧ _klass.__attr_comparison__ inst1 = None).
Proof.
  unfold _klass.generic_attr_ne, _klass.generic_attr_eq, _klass.is_,
    _klass._attrlist_getter.
  destruct (decide (_klass.ident inst1 = _klass.ident inst2)) as [Hi|Hi].
  - rewrite !bool_decide_eq_true_2 by done. split_and!; [done|..].
    + split; [by left|done].
    + split; [done|]. by intros [? _].
  - rewrite !bool_decide_eq_false_2 by done.
    destruct (_klass.__attr_comparison__ inst1) as [l|]; split_and!.
    + by rewrite ne_loop_negb.
    + split.
      * intros [= H]. right. exists l. split; [done|]. by apply eq_loop_true.
      * intros [?|(l' & [= <-] & H)]; [done|]. f_equal.
        by apply eq_loop_true.
    + split; [done|]. by intros [_ ?].
    + done.
    + split; [done|]. by intros [?|(l' & ? & _)].
    + done.
Qed.

(** X20: between two instances that name the same attributes to compare,
    [generic_attr_eq] is symmetric provided [!=] is. *)
Theorem generic_attr_eq_symmetric (inst1 inst2 : _klass.instance) :
  (∀ a b, ne a b = ne b a) →
  _klass.__attr_comparison__ inst1 = _klass.__attr_comparison__ inst2 →
  _klass.generic_attr_eq ne inst1 inst2 = _klass.generic_attr_eq ne inst2 inst1.
Proof.
  intros Hsym Hl.
  unfold _klass.generic_attr_eq, _klass.is_, _klass._attrlist_getter.
  rewrite Hl.
  destruct (decide (_klass.ident inst1 = _klass.ident inst2)) as [Hi|Hi].
  - by rewrite !bool_decide_eq_true_2.
  - rewrite !bool_decide_eq_false_2 by done.
    destruct (_klass.__attr_comparison__ inst2) as [l|]; [|done]. f_equal.
    clear Hl. induction l as [|a l IH]; [done|]. cbn [_klass.eq_loop].
    by rewrite IH, Hsym.
Qed.

End attrs_facts.

Lemma generic_attr_eq_symmetric_witness :
  let ne := λ a b : option Z, negb (bool_decide (a = b)) in
  let inst1 := _klass.Instance 1 (Some ["x"; "y"]) {["x" := 1; "y" := 2]} in
  let inst2 := _klass.Instance 2 (Some ["x"; "y"]) {["x" := 1; "z" := 3]} in
  _klass.generic_attr_eq ne inst1 inst2 = _klass.generic_attr_eq ne inst2 inst1.
Proof.
  intros ne inst1 inst2.
  apply (generic_attr_eq_symmetric ne inst1 inst2); [|reflexivity].
  intros a b. unfold ne. f_equal. apply bool_decide_ext. split; congruence.
Defined.

(** ** Copying a source into another *)

(** X21: copying a source into a mutable one with [transfer_data], through
    a read-only text handle on the first and a writable text handle on
    the second that is then closed, leaves the second presenting the text
    [s] of the first followed by what its own text [t] has beyond the
    first [length s] characters: the copy overwrites, it does not
    truncate.  The first source is as it was, unless it is the second. *)
Theorem copy_text_overwrites_prefix σ src dst os od s t fuel :
  sources σ !! src = Some os → well_typed os = true →
  text_view (data os) = Some s →
  sources σ !! dst = Some od → mutable od = true → well_typed od = true →
  text_view (data od) = Some t →
  (isinstance_bytes (data od) = true →
   Utf8.encode (s ++ drop (length s) t) ≠ None) →
  (length s ≤ fuel)%nat →
  ∃ σ' od',
    copy_text fuel src dst σ = Some (Ok tt, σ')
    ∧ sources σ' !! dst = Some od'
    ∧ text_view (data od') = Some (s ++ drop (length s) t)
    ∧ src_class od' = src_class od ∧ mutable od' = true
    ∧ (src ≠ dst → sources σ' !! src = Some os).
Proof.
  intros Hs Hws Hvs Hd Hm Hwd Hvd Henc Hfuel.
  rewrite <- (buf_write_start 0%N) in *.
  destruct (stored_form_text (data od) (buf_write 0%N t 0 s))
    as (d' & Hd' & Hv' & _); [congruence|done|].
  unfold copy_text.
  rewrite (open_text_ro _ _ _ _ Hs Hws Hvs).
  set (g := fresh (dom (handles σ))).
  set (σ1 := with_handles _ σ).
  assert (handles σ1 !! g
          = Some (StringIO text_ro_StringIO (VStr s) 0 false None)) as Hg
    by (unfold σ1; wsimpl; apply lookup_insert_eq).
  erewrite (open_text_wr σ1); [|exact Hd|done..].
  set (f := fresh (dom (handles σ1))).
  set (σ2 := with_handles _ σ1).
  assert (f ≠ g) as Hfg by by eapply fresh_handle_ne.
  assert (handles σ2 !! f
          = Some (StringIO text_wr_StringIO (VStr t) 0 false
                    (Some (bound_reset_data dst)))) as Hf
    by (unfold σ2; wsimpl; apply lookup_insert_eq).
  assert (handles σ2 !! g
          = Some (StringIO text_ro_StringIO (VStr s) 0 false None)) as Hg2
    by (unfold σ2; wsimpl; by rewrite lookup_insert_ne).
  destruct (transfer_data_result σ2 g f _ _ None
              (VStr (buf_write 0%N t 0 s)) ltac:(done) ltac:(done)
              Hg2 eq_refl Hf eq_refl eq_refl)
    as (σ3 & Hrun & _ & Hf3 & Hsrc3 & _).
  { simpl. unfold buf_read. simpl. by rewrite drop_0. }
  cbn [buffer position h_class _callback py_read] in Hrun, Hf3.
  unfold buf_read in Hrun, Hf3. cbn [Z.ltb Z.compare] in Hrun, Hf3.
  rewrite drop_0 in Hrun, Hf3. cbn [py_len] in Hrun, Hf3.
  rewrite (Hrun fuel Hfuel).
  assert (sources σ3 !! dst = Some od) as Hd3 by by rewrite Hsrc3.
  erewrite kls_close_eq; [|exact Hf3|done|done|exact Hd3|exact Hd'].
  eexists _, _. split; [reflexivity|]. wsimpl.
  split; [apply lookup_insert_eq|]. split_and!; try done.
  intros Hne. rewrite lookup_insert_ne by done. by rewrite Hsrc3.
Qed.

Lemma copy_text_overwrites_prefix_witness :
  let σ := snd ((data_source.__init__ cls_data_source (VStr (text "dar")) false
                 >> data_source.__init__ cls_data_source
                      (VBytes (octets "foonani")) true) empty_world) in
  ∃ σ' od',
    copy_text 3 0%nat 1%nat σ = Some (Ok tt, σ')
    ∧ sources σ' !! 1%nat = Some od'
    ∧ text_view (data od') = Some (text "darnani")
    ∧ src_class od' = cls_data_source ∧ mutable od' = true
    ∧ (0%nat ≠ 1%nat →
       sources σ' !! 0%nat
       = Some (Source cls_data_source (VStr (text "dar")) false)).
Proof.
  intros σ.
  apply (copy_text_overwrites_prefix σ 0%nat 1%nat
           (Source cls_data_source (VStr (text "dar")) false)
           (Source cls_data_source (VBytes (octets "foonani")) true)
           (text "dar") (text "foonani") 3%nat);
    try reflexivity.
  discriminate.
Defined.

(** ** The conversion overrides *)

(** X22: on the data their constructors admit, the [_convert_data]
    overrides of [text_data_source] and [bytes_data_source] return, for
    every mode, exactly what [data_source._convert_data] returns: a
    source built by a typed constructor presents what the untyped class
    would present for the same data. *)
Theorem typed_overrides_agree_with_base o mode :
  (isinstance_str (data o) = true →
   text_data_source_convert_data o mode = data_source_convert_data o mode)
  ∧ (isinstance_bytes (data o) = true →
     bytes_data_source_convert_data o mode = data_source_convert_data o mode).
Proof.
  unfold text_data_source_convert_data, bytes_data_source_convert_data,
    data_source_convert_data.
  destruct o as [c [s|b|z|] m]; simpl; split; intros H; try discriminate;
    by destruct (String.eqb mode "bytes").
Qed.

Lemma typed_overrides_agree_with_base_witness :
  let o := Source cls_text_data_source (VStr (text "abc")) false in
  text_data_source_convert_data o "bytes" = data_source_convert_data o "bytes".
Proof.
  intros o. apply (proj1 (typed_overrides_agree_with_base o "bytes")).
  reflexivity.
Defined.
